(** * llmhaloc: resumable streaming batch engine and two-stage review

    A shallow embedding of the core of the repository:
    - the web review boundary and the consensus state machine
      ([05_src_relevance_web_processing]: [main.py], [utils/json_processor.py]);
    - the resume store, the JSON array writer and the streaming reader
      ([01_src_initial_llm_process/utils/data_handler.py]);
    - the batch driver ([01_src_initial_llm_process/main.py]);
    - the per-file time estimator
      ([07_src_function_llm_analysis/utils/time_estimator.py]).

    Python integers are [Z]; text is a list of Unicode code points; a file
    that may be absent is an [option]; an exception is an explicit error
    result. *)

From Stdlib Require Import List ZArith NArith Lia Bool Ascii String Arith QArith.
Import ListNotations.

Set Implicit Arguments.

(* ================================================================== *)
(** * Decisions at the web boundary *)
(* ================================================================== *)

Module Decision.

Local Open Scope string_scope.
Local Open Scope Z_scope.

(** A decision as the request model carries it:
    [decision: Union[int, bool, str]]. *)
Inductive decision : Type :=
| DBool (b : bool)
| DInt (z : Z)
| DStr (s : string).

(** What [_normalize_decision] returns: [Union[int, str]]. *)
Inductive normalized : Type :=
| NInt (z : Z)
| NStr (s : string).

Definition normalized_eqb (a b : normalized) : bool :=
  match a, b with
  | NInt x, NInt y => Z.eqb x y
  | NStr x, NStr y => String.eqb x y
  | _, _ => false
  end.

(** ** [str.lower()] on ASCII letters *)

Definition lower_ascii (c : ascii) : ascii :=
  let n := nat_of_ascii c in
  if ((65 <=? n) && (n <=? 90))%nat then ascii_of_nat (n + 32) else c.

Fixpoint lower (s : string) : string :=
  match s with
  | EmptyString => EmptyString
  | String c r => String (lower_ascii c) (lower r)
  end.

(** ** [int(str)] in base 10

    Surrounding whitespace is stripped, one sign is allowed, and single
    underscores may separate digits.  [None] stands for [ValueError]. *)

Definition is_digit (c : ascii) : bool :=
  let n := nat_of_ascii c in ((48 <=? n) && (n <=? 57))%nat.

Definition digit_val (c : ascii) : Z := Z.of_nat (nat_of_ascii c) - 48.

Definition is_space (c : ascii) : bool :=
  let n := nat_of_ascii c in
  (((9 <=? n) && (n <=? 13)) || ((28 <=? n) && (n <=? 32)) ||
   (n =? 133) || (n =? 160))%nat.

Fixpoint lstrip (l : list ascii) : list ascii :=
  match l with
  | c :: r => if is_space c then lstrip r else l
  | [] => []
  end.

Definition strip (l : list ascii) : list ascii :=
  rev (lstrip (rev (lstrip l))).

Fixpoint int_digits (acc : Z) (after_digit : bool) (l : list ascii)
  : option Z :=
  match l with
  | [] => if after_digit then Some acc else None
  | c :: r =>
      if is_digit c then int_digits (acc * 10 + digit_val c) true r
      else if (Ascii.eqb c "_" && after_digit)%bool then int_digits acc false r
      else None
  end.

Definition py_int_of_string (s : string) : option Z :=
  match strip (list_ascii_of_string s) with
  | c :: r =>
      if Ascii.eqb c "-" then option_map Z.opp (int_digits 0 false r)
      else if Ascii.eqb c "+" then int_digits 0 false r
      else int_digits 0 false (c :: r)
  | [] => None
  end.

(** ** [JsonProcessor._normalize_decision] *)

Definition _normalize_decision (d : decision) : normalized :=
  match d with
  | DBool true => NInt 1
  | DBool false => NInt 0
  | DInt z => NInt z
  | DStr s =>
      match py_int_of_string s with
      | Some z => NInt z
      | None => NStr s
      end
  end.

(** A value already normalized, handed to [_normalize_decision] again
    (as [_apply_user_decision] does with the stored decision). *)
Definition as_decision (n : normalized) : decision :=
  match n with
  | NInt z => DInt z
  | NStr s => DStr s
  end.

(** ** The shared mailbox of [JsonProcessor]

    [user_decision] is the single slot; [processing_paused] is the event
    the batch thread waits on. *)
Record mailbox : Type := Mailbox {
  user_decision : option normalized;
  processing_paused : bool
}.

(** [JsonProcessor.set_user_decision]: normalize, store, wake the batch
    thread. *)
Definition set_user_decision (d : decision) (m : mailbox) : mailbox :=
  {| user_decision := Some (_normalize_decision d);
     processing_paused := true |}.

(** ** The route [submit_decision] of [main.py]

    Strings are converted first: "true" and "false" (any case) to the
    booleans, any other string through [int], whose [ValueError] becomes
    an error response that leaves the mailbox untouched. *)
Inductive response : Type :=
| DecisionReceived
| ErrorResponse.

Definition submit_decision (d : decision) (m : mailbox) : mailbox * response :=
  match d with
  | DStr s =>
      if String.eqb (lower s) "true" then
        (set_user_decision (DBool true) m, DecisionReceived)
      else if String.eqb (lower s) "false" then
        (set_user_decision (DBool false) m, DecisionReceived)
      else
        match py_int_of_string s with
        | Some z => (set_user_decision (DInt z) m, DecisionReceived)
        | None => (m, ErrorResponse)
        end
  | _ => (set_user_decision d m, DecisionReceived)
  end.

(** The value the batch thread will find in the slot after a submission. *)
Definition stored (d : decision) (m : mailbox) : option normalized :=
  user_decision (fst (submit_decision d m)).

(** ** Decimal rendering of an integer, [str(z)] *)

Definition digit_char (k : nat) : ascii := ascii_of_nat (48 + k).

Fixpoint nat_digits (fuel n : nat) : list nat :=
  match fuel with
  | O => []
  | S f =>
      if (n <? 10)%nat then [n]
      else nat_digits f (n / 10) ++ [(n mod 10)%nat]
  end.

(** The number a list of digits stands for, after the digits [acc]. *)
Definition digits_value (acc : Z) (ks : list nat) : Z :=
  fold_left (fun a k => a * 10 + Z.of_nat k) ks acc.

Definition decimal_chars (z : Z) : list ascii :=
  let n := Z.abs_nat z in
  (if z <? 0 then ["-"%char] else []) ++ map digit_char (nat_digits (S n) n).

Definition decimal (z : Z) : string := string_of_list_ascii (decimal_chars z).

End Decision.

(* ================================================================== *)
(** * Two-stage consensus review *)
(* ================================================================== *)

Module Review.

Import Decision.
Local Open Scope string_scope.
Local Open Scope Z_scope.

(** What [json.loads] makes of the [relevance_analysis] text, as far as
    [_extract_result] and [_try_json_extraction] look at it. *)
Inductive analysis : Type :=
| EmptyText                      (* [not text] *)
| Unparseable                    (* [JSONDecodeError], or any other exception *)
| NoResultKey                    (* parsed, no ["result"] key *)
| ResultString (s : string).     (* parsed, ["result"] is this string *)

(** [JsonProcessor._try_json_extraction] *)
Definition _try_json_extraction (a : analysis) : option Z :=
  match a with
  | ResultString s =>
      let result := lower s in
      if String.eqb result "vulnerable" then Some 1
      else if String.eqb result "not vulnerable" then Some 0
      else if String.eqb result "not relevant" then Some (-1)
      else None
  | _ => None
  end.

(** [JsonProcessor._extract_result] *)
Definition _extract_result (a : analysis) : option Z :=
  match a with
  | EmptyText => None
  | _ => _try_json_extraction a
  end.

Inductive reason : Type := Mismatch | Unparsed.

(** The review fields of the object under review.  [review_stage] is
    [None] once the label is final ([obj["review_stage"] = None]). *)
Record review : Type := MkReview {
  analysis_label : option Z;
  analysis_label_parsed : bool;
  review_stage : option Z;
  review_reason : option reason;
  relevance_label : option normalized;
  user_decision_round1 : option normalized;
  user_decision_round2 : option normalized
}.

(** [JsonProcessor._process_json_object] *)
Definition _process_json_object (a : analysis) : review :=
  let result := _extract_result a in
  {| analysis_label := result;
     analysis_label_parsed := match result with Some _ => true | None => false end;
     review_stage := Some 1;
     review_reason := None;
     relevance_label := None;
     user_decision_round1 := None;
     user_decision_round2 := None |}.

(** [decision_value == analysis_label], an [int] or [str] against an
    [int]. *)
Definition equals_label (d : normalized) (a : Z) : bool :=
  match d with
  | NInt z => Z.eqb z a
  | NStr _ => false
  end.

(** [JsonProcessor._apply_user_decision] *)
Definition _apply_user_decision (obj : review) (decision : normalized) : review :=
  let decision_value := _normalize_decision (as_decision decision) in
  match review_stage obj with
  | Some 1 =>
      match analysis_label obj with
      | Some a =>
          if equals_label decision_value a then
            {| analysis_label := analysis_label obj;
               analysis_label_parsed := analysis_label_parsed obj;
               review_stage := None;
               review_reason := None;
               relevance_label := Some decision_value;
               user_decision_round1 := Some decision_value;
               user_decision_round2 := user_decision_round2 obj |}
          else
            {| analysis_label := analysis_label obj;
               analysis_label_parsed := analysis_label_parsed obj;
               review_stage := Some 2;
               review_reason := Some Mismatch;
               relevance_label := relevance_label obj;
               user_decision_round1 := Some decision_value;
               user_decision_round2 := user_decision_round2 obj |}
      | None =>
          {| analysis_label := analysis_label obj;
             analysis_label_parsed := analysis_label_parsed obj;
             review_stage := Some 2;
             review_reason := Some Unparsed;
             relevance_label := relevance_label obj;
             user_decision_round1 := Some decision_value;
             user_decision_round2 := user_decision_round2 obj |}
      end
  | _ =>
      {| analysis_label := analysis_label obj;
         analysis_label_parsed := analysis_label_parsed obj;
         review_stage := None;
         review_reason := None;
         relevance_label := Some decision_value;
         user_decision_round1 := user_decision_round1 obj;
         user_decision_round2 := Some decision_value |}
  end.

(** The wait loop of [process_json_files] for one object:
    [while obj.get("relevance_label") is None], take the next decision out
    of the mailbox and apply it.  The decisions are the values the request
    thread stores one after the other; when none is left the batch thread
    stays blocked, and the object is returned as it stands together with
    the number of decisions consumed. *)
Fixpoint review_loop (obj : review) (consumed : nat) (ds : list normalized)
  : review * nat :=
  match ds with
  | [] => (obj, consumed)
  | d :: rest =>
      match relevance_label obj with
      | Some _ => (obj, consumed)
      | None => review_loop (_apply_user_decision obj d) (S consumed) rest
      end
  end.

(** One object from [_process_json_object] to the end of its wait loop,
    the human decisions arriving through [set_user_decision]. *)
Definition review_object (a : analysis) (humans : list decision) : review * nat :=
  review_loop (_process_json_object a) 0 (map _normalize_decision humans).

(** [JsonProcessor._get_result_description] on an integer. *)
Definition _get_result_description (result : Z) : string :=
  if result =? 1 then "vulnerable"
  else if result =? 0 then "not vulnerable"
  else if result =? -1 then "not relevant"
  else "unknown (" ++ decimal result ++ ")".

End Review.

(* ================================================================== *)
(** * Per-file time estimator *)
(* ================================================================== *)

Module TimeEstimator.

Local Open Scope Z_scope.

(** A Python call that may raise. *)
Inductive outcome (A : Type) : Type :=
| Returns (a : A)
| ZeroDivisionError.
Arguments Returns {A} a.
Arguments ZeroDivisionError {A}.

(** The snapshot dictionary of [get_estimates]. *)
Record estimates : Type := MkEstimates {
  avg_time_per_entry : Q;
  median_time_per_entry : Q;
  weighted_avg_time : Q;
  std_dev : Q;
  elapsed_time : Q;
  estimated_remaining_time : Q;
  estimated_total_time : Q;
  estimated_completion_time : option Q;
  progress_percentage : Q;
  entries_completed : Z;
  entries_total : Z;
  entries_remaining : Z;
  entries_per_minute : Q
}.

(** The fields of a [TimeEstimator] instance that [get_estimates] reads. *)
Record estimator : Type := MkEstimator {
  total_entries : Z;
  current_index : Z;
  remaining_entries : Z;
  start_time : Q;
  processing_times : list Q
}.

(** [TimeEstimator.__init__], before any stored history is loaded. *)
Definition new_estimator (total resume_index : Z) (now : Q) : estimator :=
  {| total_entries := total;
     current_index := resume_index;
     remaining_entries := total - resume_index;
     start_time := now;
     processing_times := [] |}.

Section Statistics.

(** [statistics.median], [statistics.stdev] and [round(_, 2)] work on
    floats; they are taken as given. *)
Variables median stdev : list Q -> Q.
Variable round2 : Q -> Q.

Definition qsum (l : list Q) : Q := fold_right Qplus 0%Q l.

Definition mean (l : list Q) : Q := (qsum l / inject_Z (Z.of_nat (List.length l)))%Q.

(** [self.processing_times[-5:]] *)
Definition last5 (l : list Q) : list Q := skipn (List.length l - 5) l.

Definition weights : list Q :=
  [(1 # 10); (15 # 100); (2 # 10); (25 # 100); (3 # 10)]%Q.

(** [TimeEstimator._calculate_progress_percentage]:
    [round((self.current_index / self.total_entries) * 100, 2)]. *)
Definition _calculate_progress_percentage (e : estimator) : outcome Q :=
  if total_entries e =? 0 then ZeroDivisionError
  else Returns (round2 (inject_Z (current_index e) / inject_Z (total_entries e)
                        * 100)%Q).

(** [TimeEstimator._get_empty_estimates] *)
Definition _get_empty_estimates (e : estimator) : outcome estimates :=
  match _calculate_progress_percentage e with
  | ZeroDivisionError => ZeroDivisionError
  | Returns p =>
      Returns {| avg_time_per_entry := 0;
                 median_time_per_entry := 0;
                 weighted_avg_time := 0;
                 std_dev := 0;
                 elapsed_time := 0;
                 estimated_remaining_time := 0;
                 estimated_total_time := 0;
                 estimated_completion_time := None;
                 progress_percentage := p;
                 entries_completed := current_index e;
                 entries_total := total_entries e;
                 entries_remaining := remaining_entries e;
                 entries_per_minute := 0 |}
  end.

(** [TimeEstimator._calculate_time_statistics] *)
Definition _calculate_time_statistics (e : estimator) : Q * Q * Q * Q :=
  let times := processing_times e in
  let avg_time := mean times in
  let median_time := median times in
  let weighted :=
    if (5 <? List.length times)%nat then
      qsum (map (fun tw => (fst tw * snd tw)%Q) (combine (last5 times) weights))
    else avg_time in
  let sd := if (1 <? List.length times)%nat then stdev times else 0%Q in
  (avg_time, median_time, weighted, sd).

(** [TimeEstimator._calculate_time_estimates], with the clock reading
    [now] for [time.time()]. *)
Definition _calculate_time_estimates (e : estimator) (now weighted : Q)
  : Q * Q * Q * Q * Q :=
  let elapsed := (now - start_time e)%Q in
  let remaining := (weighted * inject_Z (remaining_entries e))%Q in
  let total := (elapsed + remaining)%Q in
  let completion := (now + remaining)%Q in
  let per_minute :=
    if Qlt_le_dec 0 elapsed
    then (inject_Z (current_index e) / elapsed * 60)%Q else 0%Q in
  (elapsed, remaining, total, completion, per_minute).

(** [TimeEstimator.get_estimates] *)
Definition get_estimates (e : estimator) (now : Q) : outcome estimates :=
  match processing_times e with
  | [] => _get_empty_estimates e
  | _ =>
      let '(avg_time, median_time, weighted, sd) := _calculate_time_statistics e in
      let '(elapsed, remaining, total, completion, per_minute) :=
        _calculate_time_estimates e now weighted in
      match _calculate_progress_percentage e with
      | ZeroDivisionError => ZeroDivisionError
      | Returns p =>
          Returns {| avg_time_per_entry := avg_time;
                     median_time_per_entry := median_time;
                     weighted_avg_time := weighted;
                     std_dev := sd;
                     elapsed_time := elapsed;
                     estimated_remaining_time := remaining;
                     estimated_total_time := total;
                     estimated_completion_time := Some completion;
                     progress_percentage := p;
                     entries_completed := current_index e;
                     entries_total := total_entries e;
                     entries_remaining := remaining_entries e;
                     entries_per_minute := per_minute |}
      end
  end.

(** [GlobalTimeEstimator._get_empty_estimates] computes its percentage
    under a guard:
    [(completed / total) * 100 if self.total_files > 0 else 0]. *)
Definition global_empty_progress (completed_files total_files : Z) : Q :=
  if 0 <? total_files
  then (inject_Z completed_files / inject_Z total_files * 100)%Q else 0%Q.

End Statistics.

(** The snapshot has every time field at zero. *)
Definition zero_valued (s : estimates) : Prop :=
  avg_time_per_entry s = 0%Q /\ median_time_per_entry s = 0%Q /\
  weighted_avg_time s = 0%Q /\ std_dev s = 0%Q /\ elapsed_time s = 0%Q /\
  estimated_remaining_time s = 0%Q /\ estimated_total_time s = 0%Q.

(** [int(seconds)] on a float: truncation toward zero. *)
Definition py_int (seconds : Q) : Z := Z.quot (Qnum seconds) (Zpos (Qden seconds)).

(** The hours, minutes and seconds of [_format_time_duration]:
    [divmod(int(seconds), 3600)], then [divmod(remainder, 60)]. *)
Definition duration_parts (seconds : Q) : Z * Z * Z :=
  let hours := py_int seconds / 3600 in
  let remainder := py_int seconds mod 3600 in
  (hours, remainder / 60, remainder mod 60).

(** [TimeEstimator._format_time_duration(seconds)] *)
Definition _format_time_duration (seconds : Q) : string :=
  let '(hours, minutes, seconds) := duration_parts seconds in
  if 0 <? hours then
    (Decision.decimal hours ++ "h " ++ Decision.decimal minutes ++ "m "
     ++ Decision.decimal seconds ++ "s")%string
  else if 0 <? minutes then
    (Decision.decimal minutes ++ "m " ++ Decision.decimal seconds ++ "s")%string
  else (Decision.decimal seconds ++ "s")%string.

End TimeEstimator.

(* ================================================================== *)
(** * Text files *)
(* ================================================================== *)

Module Text.

Local Open Scope N_scope.

(** A decoded character is its code point; a text is what [file.read()]
    returns.  The writer only produces ASCII ([json.dumps] escapes the
    rest), so there a character is also a byte and [tell()] counts
    characters. *)
Definition char : Type := N.
Definition text : Type := list char.

Definition LBRACKET : char := 91.   (* [ *)
Definition RBRACKET : char := 93.   (* ] *)
Definition COMMA : char := 44.      (* , *)
Definition NEWLINE : char := 10.    (* \n *)

Definition of_string (s : string) : text :=
  map N_of_ascii (list_ascii_of_string s).

(** [json.decoder.WHITESPACE]: space, tab, line feed, carriage return. *)
Definition json_ws (c : char) : bool :=
  (c =? 32) || (c =? 9) || (c =? 10) || (c =? 13).

(** [str.isspace] on one character, which is what [lstrip()] and
    [strip()] remove. *)
Definition py_space (c : char) : bool :=
  ((9 <=? c) && (c <=? 13)) || ((28 <=? c) && (c <=? 32)) ||
  (c =? 133) || (c =? 160) || (c =? 5760) ||
  ((8192 <=? c) && (c <=? 8202)) || (c =? 8232) || (c =? 8233) ||
  (c =? 8239) || (c =? 8287) || (c =? 12288).

Fixpoint drop_while (p : char -> bool) (s : text) : text :=
  match s with
  | c :: r => if p c then drop_while p r else s
  | [] => []
  end.

(** [WHITESPACE.match(s, idx).end()], as the text that remains. *)
Definition skip_ws (s : text) : text := drop_while json_ws s.

(** [str.lstrip()], [str.rstrip()], [str.strip()] *)
Definition lstrip (s : text) : text := drop_while py_space s.
Definition rstrip (s : text) : text := rev (drop_while py_space (rev s)).
Definition strip (s : text) : text := rstrip (lstrip s).

(** [s.startswith(c)] for a one-character prefix. *)
Definition startswith (s : text) (c : char) : bool :=
  match s with
  | d :: _ => d =? c
  | [] => false
  end.

(** [s.find(c)], -1 when absent. *)
Fixpoint find (s : text) (c : char) : Z :=
  match s with
  | [] => (-1)%Z
  | d :: r =>
      if d =? c then 0%Z
      else match find r c with
           | Zneg _ => (-1)%Z
           | i => (i + 1)%Z
           end
  end.

(** [s[i:]] for a non-negative index. *)
Definition slice_from (s : text) (i : nat) : text := skipn i s.

(** [sub in msg] on strings. *)
Fixpoint contains (sub msg : string) : bool :=
  String.prefix sub msg ||
  match msg with
  | EmptyString => false
  | String _ rest => contains sub rest
  end.

End Text.

(* ================================================================== *)
(** * The JSON array reader and writer of [data_handler.py] *)
(* ================================================================== *)

Module Json.

Import Text.
Local Open Scope N_scope.

(** The characters a JSON value can start with for Python's scanner:
    a quote, a brace, a bracket, a minus sign, a digit, and the first
    letters of [true], [false], [null], [NaN] and [Infinity]. *)
Definition value_start_chars : list char :=
  [34; 123; 91; 45; 48; 49; 50; 51; 52; 53; 54; 55; 56; 57;
   116; 102; 110; 78; 73].

Definition value_start (c : char) : bool :=
  existsb (N.eqb c) value_start_chars.

Section Codec.

(** Python's [json] module is given: the decoded values, the scanner
    behind [JSONDecoder.raw_decode] and [json.dumps(_, indent=4)]. *)
Variable value : Type.

(** [raw_decode(s)] returns the value that starts at index 0 and the index
    where it ends, or raises [JSONDecodeError] with a message. *)
Inductive decoded : Type :=
| Decoded (obj : value) (idx : nat)
| JSONDecodeError (msg : string).

Variable raw_decode : text -> decoded.

(** ** The full-file parse, [json.load]

    [JSONDecoder.decode] skips whitespace, scans one value and accepts
    only whitespace after it.  When the value is an array the scan is the
    loop of [json.decoder.JSONArray], which calls the same scanner for
    each element. *)
Inductive loaded : Type :=
| LoadedArray (items : list value)
| LoadedValue (v : value)
| LoadError.

Inductive array_scan : Type :=
| ArrayEnd (items : list value) (rest : text)
| ArrayError.

(** The element loop of [JSONArray], entered with the text at the first
    element.  Every round consumes a comma, so the length of the text is
    enough fuel. *)
Fixpoint JSONArray_items (fuel : nat) (s : text) (values : list value)
  : array_scan :=
  match fuel with
  | O => ArrayError
  | S fuel' =>
      match raw_decode s with
      | JSONDecodeError _ => ArrayError
      | Decoded v idx =>
          match skip_ws (slice_from s idx) with
          | c :: rest =>
              if c =? RBRACKET then ArrayEnd (values ++ [v]) rest
              else if c =? COMMA then
                JSONArray_items fuel' (skip_ws rest) (values ++ [v])
              else ArrayError
          | [] => ArrayError
          end
      end
  end.

(** [JSONArray], entered after the opening bracket. *)
Definition JSONArray (s : text) : array_scan :=
  match skip_ws s with
  | c :: rest =>
      if c =? RBRACKET then ArrayEnd [] rest
      else JSONArray_items (S (List.length s)) (skip_ws s) []
  | [] => ArrayError
  end.

Definition json_load (s : text) : loaded :=
  match skip_ws s with
  | [] => LoadError
  | c :: body =>
      if c =? LBRACKET then
        match JSONArray body with
        | ArrayEnd items rest =>
            match skip_ws rest with
            | [] => LoadedArray items
            | _ :: _ => LoadError
            end
        | ArrayError => LoadError
        end
      else
        match raw_decode (c :: body) with
        | Decoded v idx =>
            match skip_ws (slice_from (c :: body) idx) with
            | [] => LoadedValue v
            | _ :: _ => LoadError
            end
        | JSONDecodeError _ => LoadError
        end
  end.

(** ** [stream_json_data]

    The generator is run to its end: what it yielded, and how it ended. *)
Inductive stream_end : Type :=
| StopIteration
| FileNotFoundError
| ValueError
| DecodeError (msg : string).

Record streamed : Type := Streamed {
  yielded : list value;
  ending : stream_end
}.

(** The [while content:] loop.  [None] when the fuel runs out. *)
Fixpoint stream_loop (fuel : nat) (content : text) (objs : list value)
  : option streamed :=
  match fuel with
  | O => None
  | S fuel' =>
      match content with
      | [] => Some (Streamed objs StopIteration)
      | _ :: _ =>
          match raw_decode content with
          | Decoded obj idx =>
              let content1 := lstrip (slice_from content idx) in
              let content2 :=
                if startswith content1 COMMA
                then lstrip (slice_from content1 1) else content1 in
              if startswith content2 RBRACKET
              then Some (Streamed (objs ++ [obj]) StopIteration)
              else stream_loop fuel' content2 (objs ++ [obj])
          | JSONDecodeError msg =>
              if contains "Expecting value" msg
                 && startswith (strip content) RBRACKET
              then Some (Streamed objs StopIteration)
              else Some (Streamed objs (DecodeError msg))
          end
      end
  end.

Definition stream_json_data_fuel (fuel : nat) (file : option text)
  : option streamed :=
  match file with
  | None => Some (Streamed [] FileNotFoundError)
  | Some content =>
      let first_char := firstn 1 content in
      match first_char with
      | [c] =>
          if c =? LBRACKET then
            let idx := Z.to_nat (find content LBRACKET + 1) in
            stream_loop fuel (lstrip (slice_from content idx)) []
          else Some (Streamed [] ValueError)
      | _ => Some (Streamed [] ValueError)
      end
  end.

(** One unit of fuel per round; a round that goes on removes at least one
    character when the scanner does. *)
Definition stream_json_data (file : option text) : option streamed :=
  stream_json_data_fuel
    (S (match file with Some c => List.length c | None => O end)) file.

(** ** [load_json_data]: [list(stream_json_data(file_path))] *)
Inductive load_result : Type :=
| Loaded (data : list value)
| LoadRaised (e : stream_end).

Definition load_json_data (file : option text) : option load_result :=
  match stream_json_data file with
  | None => None
  | Some r =>
      match ending r with
      | StopIteration => Some (Loaded (yielded r))
      | e => Some (LoadRaised e)
      end
  end.

(** ** [write_to_json] *)

Variable entry : Type.
Variable dumps : entry -> text.

Inductive write_result : Type :=
| Written (content : text)
| WriteValueError.

(** The file after the call, or the [ValueError] the call raises. *)
Definition write_to_json (new_entry : entry) (file : option text)
  : write_result :=
  let entry_json := dumps new_entry in
  let fresh := Written ([LBRACKET; NEWLINE] ++ entry_json ++ [NEWLINE; RBRACKET]) in
  match file with
  | None => fresh
  | Some [] => fresh
  | Some content =>
      let position := (List.length content - 1)%nat in
      match nth_error content position with
      | Some c =>
          if negb (c =? RBRACKET) then WriteValueError
          else
            match nth_error content 0 with
            | Some first_char =>
                if negb (first_char =? LBRACKET) then WriteValueError
                else
                  match nth_error content (position - 1) with
                  | Some ch =>
                      let needs_comma := negb (ch =? LBRACKET) in
                      Written (firstn position content
                               ++ (if needs_comma then [COMMA; NEWLINE]
                                   else [NEWLINE])
                               ++ entry_json ++ [NEWLINE; RBRACKET])
                  | None => WriteValueError
                  end
            | None => WriteValueError
            end
      | None => WriteValueError
      end
  end.

(** A sequence of appends; [None] as soon as one of them raises. *)
Fixpoint write_all (entries : list entry) (file : option text)
  : option (option text) :=
  match entries with
  | [] => Some file
  | e :: rest =>
      match write_to_json e file with
      | Written content => write_all rest (Some content)
      | WriteValueError => None
      end
  end.

(** The layout the writer gives an array of rendered records: each
    append overwrites the closing bracket with a comma, so two records are
    separated by line feed, comma, line feed. *)
Fixpoint array_body (items : list text) : text :=
  match items with
  | [] => []
  | e :: rest =>
      match rest with
      | [] => e
      | _ :: _ => e ++ [NEWLINE; COMMA; NEWLINE] ++ array_body rest
      end
  end.

Definition array_text (items : list text) : text :=
  [LBRACKET; NEWLINE] ++ array_body items ++ [NEWLINE; RBRACKET].

(** What [find_resume_point] writes when it clears a result file. *)
Definition cleared : text := [LBRACKET; NEWLINE; RBRACKET].

(** ** What is assumed of Python's [json]

    A value starts with one of the characters of [value_start_chars] and
    is not empty, and a text that does not start with one of them is
    refused with the message "Expecting value". *)
Definition scanner_contract : Prop :=
  (forall s obj idx, raw_decode s = Decoded obj idx ->
     (1 <= idx)%nat /\ exists c r, s = c :: r /\ value_start c = true) /\
  (forall s, match s with c :: _ => value_start c = false | [] => True end ->
     exists msg, raw_decode s = JSONDecodeError msg /\
                 contains "Expecting value" msg = true).

(** A rendered record is scanned back as the value [to_value] of the
    record, whatever follows it: the record is a [dict] and its text ends
    at the closing brace. *)
Definition dumps_contract (to_value : entry -> value) : Prop :=
  forall e rest,
    raw_decode (dumps e ++ rest) = Decoded (to_value e) (List.length (dumps e)).

End Codec.

End Json.

(* ================================================================== *)
(** * Resume state store of [data_handler.py] *)
(* ================================================================== *)

Module Resume.

Import Text.
Local Open Scope string_scope.
Local Open Scope Z_scope.

(** A JSON scalar as a field of a record: [None], an integer or a
    string. *)
Inductive scalar : Type :=
| PyNone
| PyInt (z : Z)
| PyStr (s : string).

Definition scalar_eqb (a b : scalar) : bool :=
  match a, b with
  | PyNone, PyNone => true
  | PyInt x, PyInt y => Z.eqb x y
  | PyStr x, PyStr y => String.eqb x y
  | _, _ => false
  end.

(** An input record is a [dict]; only scalar fields are read. *)
Definition entry : Type := list (string * scalar).

Fixpoint dict_get (d : entry) (k : string) : option scalar :=
  match d with
  | [] => None
  | (k', v) :: rest => if String.eqb k' k then Some v else dict_get rest k
  end.

(** [entry.get(k)] and [entry.get(k, default)] *)
Definition get (d : entry) (k : string) : scalar :=
  match dict_get d k with Some v => v | None => PyNone end.

Definition get_or (d : entry) (k : string) (default : scalar) : scalar :=
  match dict_get d k with Some v => v | None => default end.

(** The identity key [(id, sub_id, code_id)]. *)
Definition key : Type := (scalar * scalar * scalar)%type.

Definition key_eqb (a b : key) : bool :=
  let '(a1, a2, a3) := a in
  let '(b1, b2, b3) := b in
  scalar_eqb a1 b1 && scalar_eqb a2 b2 && scalar_eqb a3 b3.

(** One entry of the failure ledger.  [retry_count] may be missing. *)
Record failed_entry : Type := FailedEntry {
  fe_id : scalar;
  fe_sub_id : scalar;
  fe_code_id : scalar;
  fe_error : option string;
  fe_retry_count : option Z
}.

Definition fe_key (f : failed_entry) : key := (fe_id f, fe_sub_id f, fe_code_id f).

(** [f.get('retry_count', 0)] *)
Definition retry_count_of (f : failed_entry) : Z :=
  match fe_retry_count f with Some n => n | None => 0 end.

Definition set_retry_count (f : failed_entry) (n : Z) : failed_entry :=
  {| fe_id := fe_id f; fe_sub_id := fe_sub_id f; fe_code_id := fe_code_id f;
     fe_error := fe_error f; fe_retry_count := Some n |}.

(** The resume file of one model, as the JSON object it holds.  A field
    that a writer leaves out is [None].  Time stamps and time estimates
    are not kept. *)
Record resume_data : Type := ResumeData {
  last_processed : option key;
  index : option Z;
  total : option Z;
  completed : option bool;
  failed_entries : option (list failed_entry)
}.

(** The resume file: [None] when there is no file or the file is empty.
    A file that holds something else than a JSON object is not
    modelled. *)
Definition resume_file : Type := option resume_data.

(** [get_resume_data] *)
Definition get_resume_data (file : resume_file) : option resume_data := file.

(** The stored resume index, when there is one. *)
Definition resume_index (file : resume_file) : option Z :=
  match file with
  | Some d => index d
  | None => None
  end.

(** A stored [completed] flag is backed by an index that has reached the
    [n] records of the data file. *)
Definition flag_sound (n : Z) (file : resume_file) : Prop :=
  match file with
  | Some d =>
      completed d = Some true -> exists i, index d = Some i /\ n <= i
  | None => True
  end.

(** [get_failed_entries] *)
Definition get_failed_entries (file : resume_file) : list failed_entry :=
  match get_resume_data file with
  | Some d => match failed_entries d with Some l => l | None => [] end
  | None => []
  end.

(** An insertion-ordered [dict] keyed by identity. *)
Fixpoint dict_set (k : key) (v : failed_entry) (d : list (key * failed_entry))
  : list (key * failed_entry) :=
  match d with
  | [] => [(k, v)]
  | (k', v') :: rest =>
      if key_eqb k' k then (k', v) :: rest else (k', v') :: dict_set k v rest
  end.

Fixpoint dict_find (k : key) (d : list (key * failed_entry))
  : option failed_entry :=
  match d with
  | [] => None
  | (k', v) :: rest => if key_eqb k' k then Some v else dict_find k rest
  end.

(** [{key(e): e for e in existing_failed_entries}] *)
Definition unique_of (existing : list failed_entry) : list (key * failed_entry) :=
  fold_left (fun d e => dict_set (fe_key e) e d) existing [].

(** The merge loop of [save_resume_point] over the new failed entries. *)
Definition merge_failed (unique : list (key * failed_entry))
    (new_failed : list failed_entry) : list (key * failed_entry) :=
  fold_left
    (fun d f =>
       match dict_find (fe_key f) d with
       | Some existing_entry =>
           dict_set (fe_key f)
             (set_retry_count existing_entry (retry_count_of existing_entry + 1)) d
       | None => dict_set (fe_key f) (set_retry_count f 1) d
       end)
    new_failed unique.

Inductive saved : Type :=
| Saved (file : resume_file)
| SaveZeroDivisionError.

(** [save_resume_point(model_name, entry, index, total, log_dir,
    time_estimates, failed_entries)] on the resume file of the model.
    [round((index / total) * 100, 2)] raises when [total] is 0, before
    anything is written. *)
Definition save_resume_point (e : entry) (idx tot : Z)
    (new_failed : list failed_entry) (file : resume_file) : saved :=
  let existing_failed_entries :=
    match file with
    | Some d => match failed_entries d with Some l => l | None => [] end
    | None => []
    end in
  let existing_failed_entries :=
    match new_failed with
    | [] => existing_failed_entries
    | _ :: _ =>
        map snd (merge_failed (unique_of existing_failed_entries) new_failed)
    end in
  if tot =? 0 then SaveZeroDivisionError
  else
    Saved (Some {| last_processed := Some (get e "id", get e "sub_id", get e "code_id");
                   index := Some idx;
                   total := Some tot;
                   completed := Some (tot <=? idx);
                   failed_entries := Some existing_failed_entries |}).

(** The [status_info] dictionary of [is_model_completed]. *)
Record status_info : Type := StatusInfo {
  st_completed : bool;
  failed_entries_count : nat;
  max_retries_reached : nat;
  retryable_entries : nat
}.

Definition default_max_retries : Z := 3.

(** [is_model_completed(model_name, _, result_dir, log_dir)].
    [log_dir] tells whether a log directory was passed. *)
Definition is_model_completed (log_dir : bool) (file : resume_file)
  : bool * status_info :=
  let nothing := {| st_completed := false; failed_entries_count := 0;
                    max_retries_reached := 0; retryable_entries := 0 |} in
  if log_dir then
    match get_resume_data file with
    | Some d =>
        let flag := match completed d with Some b => b | None => false end in
        let failed := match failed_entries d with Some l => l | None => [] end in
        let max_retries := default_max_retries in
        let reached :=
          List.length (filter (fun f => max_retries <=? retry_count_of f) failed) in
        let retryable :=
          List.length (filter (fun f => negb (max_retries <=? retry_count_of f)) failed) in
        let status := {| st_completed := flag;
                         failed_entries_count := List.length failed;
                         max_retries_reached := reached;
                         retryable_entries := retryable |} in
        if flag && (retryable =? 0)%nat then (true, status)
        else if (0 <? retryable)%nat then (false, status)
        else if flag then (true, status)
        else (false, status)
    | None => (false, nothing)
    end
  else (false, nothing).

(** [find_resume_point(model_name, ori_json_data, result_dir, log_dir)]:
    the index to resume from and the result file as the call leaves it.
    A result file with content and no usable resume point is overwritten
    with an empty array. *)
Definition find_resume_point (log_dir : bool) (data_len : nat)
    (result_dir : bool) (file : resume_file) (result : option text)
  : Z * option text :=
  let from_file :=
    if log_dir then
      match get_resume_data file with
      | Some d =>
          match index d with
          | Some i =>
              if (0 <=? i) && (i <=? Z.of_nat data_len) then Some i else None
          | None => None
          end
      | None => None
      end
    else None in
  match from_file with
  | Some i => (i, result)
  | None =>
      if result_dir then
        match result with
        | Some (_ :: _) => (0, Some [LBRACKET; NEWLINE; RBRACKET])
        | _ => (0, result)
        end
      else (0, result)
  end.

(** The search loop of [add_failed_entry]: the ledger with the first
    entry of the same identity bumped, or [None] when there is none. *)
Fixpoint bump_existing (k : key) (error_message : option string)
    (l : list failed_entry) : option (list failed_entry) :=
  match l with
  | [] => None
  | existing :: rest =>
      if key_eqb (fe_key existing) k
      then Some ({| fe_id := fe_id existing;
                    fe_sub_id := fe_sub_id existing;
                    fe_code_id := fe_code_id existing;
                    fe_error := error_message;
                    fe_retry_count := Some (retry_count_of existing + 1) |}
                 :: rest)
      else option_map (cons existing) (bump_existing k error_message rest)
  end.

(** [add_failed_entry(model_name, entry, log_dir, error_message)]: the
    resume file after the call.  When there is no resume file yet the
    first ledger entry is written without a [retry_count]. *)
Definition add_failed_entry (e : entry) (error_message : option string)
    (file : resume_file) : resume_file :=
  let fe :=
    {| fe_id := get e "id"; fe_sub_id := get e "sub_id";
       fe_code_id := get e "code_id"; fe_error := error_message;
       fe_retry_count := None |} in
  match file with
  | None =>
      Some {| last_processed := None; index := None; total := None;
              completed := None; failed_entries := Some [fe] |}
  | Some d =>
      let failed := match failed_entries d with Some l => l | None => [] end in
      let failed' :=
        match bump_existing (fe_key fe) error_message failed with
        | Some l => l
        | None => (failed ++ [set_retry_count fe 1])%list
        end in
      Some {| last_processed := last_processed d; index := index d;
              total := total d; completed := completed d;
              failed_entries := Some failed' |}
  end.

(** [should_retry_entry(model_name, entry, log_dir, max_retries)] *)
Definition should_retry_entry (e : entry) (max_retries : Z) (file : resume_file)
  : bool :=
  match List.find (fun f => key_eqb (fe_key f) (get e "id", get e "sub_id", get e "code_id"))
             (get_failed_entries file) with
  | Some f => retry_count_of f <? max_retries
  | None => true
  end.

(** The identity [(entry.get('id'), entry.get('sub_id'),
    entry.get('code_id'))] under which the ledger files a record. *)
Definition ledger_key (e : entry) : key :=
  (get e "id", get e "sub_id", get e "code_id").

(** The ledger entry of a record: the first one with its identity. *)
Definition ledger_entry (e : entry) (file : resume_file) : option failed_entry :=
  List.find (fun f => key_eqb (fe_key f) (ledger_key e)) (get_failed_entries file).

(** The ledger entry that [add_failed_entry] leaves for a record whose
    failures have been counted up to [n]. *)
Definition counted (e : entry) (msg : option string) (n : Z) : failed_entry :=
  {| fe_id := get e "id"; fe_sub_id := get e "sub_id";
     fe_code_id := get e "code_id"; fe_error := msg;
     fe_retry_count := Some n |}.

(** [get_last_processed_entry(model_name, _result_dir, log_dir)]: the
    stored identity when all three of its fields are there. *)
Definition get_last_processed_entry (log_dir : bool) (file : resume_file)
  : option key :=
  if log_dir then
    match get_resume_data file with
    | Some d => last_processed d
    | None => None
    end
  else None.

(** [clear_failed_entries(model_name, log_dir)]: the resume file after
    the call and the value returned. *)
Definition clear_failed_entries (file : resume_file) : resume_file * bool :=
  match file with
  | Some d =>
      (Some {| last_processed := last_processed d; index := index d;
               total := total d; completed := completed d;
               failed_entries := Some [] |}, true)
  | None => (None, false)
  end.

(** [reset_resume_point(model_name, log_dir)]: the file is removed. *)
Definition reset_resume_point (file : resume_file) : resume_file * bool :=
  (None, true).

(** The summary of [update_incomplete_models_summary]. *)
Record summary : Type := Summary {
  incomplete_models : list (string * (status_info * list failed_entry));
  total_models : nat;
  incomplete_count : nat;
  failed_entries_total : nat
}.

(** [update_incomplete_models_summary(models, log_dir, result_dir)] over
    the model names [models.keys()], each with its resume file. *)
Definition update_incomplete_models_summary
    (models : list (string * resume_file)) : summary :=
  fold_left
    (fun s m =>
       let '(model_name, file) := m in
       let '(done, status) := is_model_completed true file in
       if done then s
       else {| incomplete_models :=
                 (incomplete_models s
                  ++ [(model_name, (status, get_failed_entries file))])%list;
               total_models := total_models s;
               incomplete_count := S (incomplete_count s);
               failed_entries_total :=
                 (failed_entries_total s + failed_entries_count status)%nat |})
    models
    {| incomplete_models := []; total_models := List.length models;
       incomplete_count := 0; failed_entries_total := 0 |}.

End Resume.

(* ================================================================== *)
(** * A small JSON scanner

    A scanner in the manner of [json.scanner] for a part of JSON:
    [null], [true], [false], integers, strings without escapes, arrays
    and objects.  It gives the reader and the writer a concrete codec to
    run on. *)
(* ================================================================== *)

Module MiniJson.

Import Text Json.
Local Open Scope N_scope.

#[local] Set Warnings "-register-all".

Inductive json : Type :=
| JNull
| JBool (b : bool)
| JNumber (z : Z)
| JString (s : text)
| JArray (items : list json)
| JObject (members : list (text * json)).

Inductive scanned : Type :=
| Scanned (v : json) (rest : text)
| ScanError (msg : string).

Definition is_digit (c : char) : bool := (48 <=? c) && (c <=? 57).

(** The digits of an integer part, most significant first. *)
Fixpoint scan_digits (acc : N) (s : text) : N * text :=
  match s with
  | c :: r => if is_digit c then scan_digits (acc * 10 + (c - 48)) r else (acc, s)
  | [] => (acc, [])
  end.

(** Zero, or a non-zero digit followed by digits. *)
Definition scan_natural (s : text) : option (N * text) :=
  match s with
  | c :: r =>
      if c =? 48 then Some (0, r)
      else if is_digit c then Some (scan_digits 0 s)
      else None
  | [] => None
  end.

(** A number: an integer part, with a fraction or an exponent refused. *)
Definition scan_number (s : text) : scanned :=
  let finish (neg : bool) (r : option (N * text)) :=
    match r with
    | Some (n, rest) =>
        if startswith rest 46 || startswith rest 101 || startswith rest 69
        then ScanError "Unsupported number"
        else Scanned (JNumber (if neg then (- Z.of_N n)%Z else Z.of_N n)) rest
    | None => ScanError "Expecting value"
    end in
  match s with
  | c :: r => if c =? 45 then finish true (scan_natural r)
              else finish false (scan_natural s)
  | [] => ScanError "Expecting value"
  end.

(** The characters of a string up to the closing quote. *)
Fixpoint scan_chars (s : text) : option (text * text) :=
  match s with
  | [] => None
  | c :: r =>
      if c =? 34 then Some ([], r)
      else if (c =? 92) || (c <? 32) then None
      else match scan_chars r with
           | Some (body, rest) => Some (c :: body, rest)
           | None => None
           end
  end.

Fixpoint strip_prefix (p s : text) : option text :=
  match p, s with
  | [], _ => Some s
  | a :: p', b :: s' => if a =? b then strip_prefix p' s' else None
  | _ :: _, [] => None
  end.

Fixpoint scan_once (fuel : nat) (s : text) : scanned :=
  match fuel with
  | O => ScanError "Expecting value"
  | S fuel' =>
      match s with
      | [] => ScanError "Expecting value"
      | c :: r =>
          if c =? 34 then
            match scan_chars r with
            | Some (body, rest) => Scanned (JString body) rest
            | None => ScanError "Unterminated string"
            end
          else if c =? 123 then
            match skip_ws r with
            | d :: r1 =>
                if d =? 125 then Scanned (JObject []) r1
                else scan_members fuel' (d :: r1) []
            | [] => ScanError "Expecting property name"
            end
          else if c =? 91 then
            match skip_ws r with
            | d :: r1 =>
                if d =? 93 then Scanned (JArray []) r1
                else scan_items fuel' (d :: r1) []
            | [] => ScanError "Expecting value"
            end
          else if (c =? 45) || is_digit c then scan_number s
          else
            match strip_prefix (of_string "null") s,
                  strip_prefix (of_string "true") s,
                  strip_prefix (of_string "false") s with
            | Some rest, _, _ => Scanned JNull rest
            | None, Some rest, _ => Scanned (JBool true) rest
            | None, None, Some rest => Scanned (JBool false) rest
            | None, None, None => ScanError "Expecting value"
            end
      end
  end

with scan_items (fuel : nat) (s : text) (acc : list json) : scanned :=
  match fuel with
  | O => ScanError "Expecting value"
  | S fuel' =>
      match scan_once fuel' s with
      | ScanError msg => ScanError msg
      | Scanned v rest =>
          match skip_ws rest with
          | c :: r =>
              if c =? 93 then Scanned (JArray (acc ++ [v])) r
              else if c =? 44 then scan_items fuel' (skip_ws r) (acc ++ [v])
              else ScanError "Expecting ',' delimiter"
          | [] => ScanError "Expecting ',' delimiter"
          end
      end
  end

with scan_members (fuel : nat) (s : text) (acc : list (text * json)) : scanned :=
  match fuel with
  | O => ScanError "Expecting value"
  | S fuel' =>
      match s with
      | c :: r =>
          if c =? 34 then
            match scan_chars r with
            | None => ScanError "Unterminated string"
            | Some (name, rest) =>
                match skip_ws rest with
                | d :: r1 =>
                    if d =? 58 then
                      match scan_once fuel' (skip_ws r1) with
                      | ScanError msg => ScanError msg
                      | Scanned v rest1 =>
                          match skip_ws rest1 with
                          | e :: r2 =>
                              if e =? 125 then
                                Scanned (JObject (acc ++ [(name, v)])) r2
                              else if e =? 44 then
                                scan_members fuel' (skip_ws r2) (acc ++ [(name, v)])
                              else ScanError "Expecting ',' delimiter"
                          | [] => ScanError "Expecting ',' delimiter"
                          end
                      end
                    else ScanError "Expecting ':' delimiter"
                | [] => ScanError "Expecting ':' delimiter"
                end
            end
          else ScanError "Expecting property name"
      | [] => ScanError "Expecting property name"
      end
  end.

(** [JSONDecoder.raw_decode] *)
Definition raw_decode (s : text) : decoded json :=
  match scan_once (S (List.length s)) s with
  | Scanned v rest => Decoded v (List.length s - List.length rest)
  | ScanError msg => JSONDecodeError json msg
  end.

(** A record of the smallest kind, [{"done": true}] or
    [{"done": false}], and its rendering by [json.dumps(_, indent=4)]. *)
Definition flag_entry : Type := bool.

Definition dumps (e : flag_entry) : text :=
  [123; 10; 32; 32; 32; 32; 34] ++ of_string "done" ++ [34; 58; 32]
  ++ of_string (if e then "true" else "false") ++ [10; 125].

Definition to_value (e : flag_entry) : json :=
  JObject [(of_string "done", JBool e)].

(** A data file: an array of a number, an array and an object with the
    key [k]. *)
Definition sample_file : text :=
  of_string "[1, [true], {" ++ [34; 107; 34] ++ of_string ": null}]".

End MiniJson.

(* ================================================================== *)
(** * Batch driver of [main.py] *)
(* ================================================================== *)

Module Driver.

Import Text Json Resume.
Local Open Scope string_scope.
Local Open Scope Z_scope.

(** An output record: what [interact_with_llm] builds on success and
    what [_handle_entry_error] builds when it gives up. *)
Record out_entry : Type := OutEntry {
  out_id : scalar;
  out_sub_id : scalar;
  out_code_id : scalar;
  response : string;
  total_duration : Q;
  load_duration : Q;
  prompt_eval_count : Q;
  prompt_eval_duration : Q;
  eval_count : Q;
  eval_duration : Q
}.

Definition out_key (o : out_entry) : key := (out_id o, out_sub_id o, out_code_id o).

(** [(entry.get('id', 'Unknown'), entry.get('sub_id', 'Unknown'),
    entry.get('code_id', 'Unknown'))] *)
Definition entry_ids (e : entry) : key :=
  (get_or e "id" (PyStr "Unknown"), get_or e "sub_id" (PyStr "Unknown"),
   get_or e "code_id" (PyStr "Unknown")).

(** The record with an empty response and every number at 0. *)
Definition sentinel (e : entry) : out_entry :=
  let '(entry_id, sub_id, code_id) := entry_ids e in
  {| out_id := entry_id; out_sub_id := sub_id; out_code_id := code_id;
     response := "";
     total_duration := 0; load_duration := 0; prompt_eval_count := 0;
     prompt_eval_duration := 0; eval_count := 0; eval_duration := 0 |}.

(** What the chat call returns: the message content and the metadata
    fields that are present. *)
Record llm_response : Type := LlmResponse {
  content : string;
  r_total_duration : option Q;
  r_load_duration : option Q;
  r_prompt_eval_count : option Q;
  r_prompt_eval_duration : option Q;
  r_eval_count : option Q;
  r_eval_duration : option Q
}.

Inductive llm_outcome : Type :=
| LlmReturns (r : llm_response)
| LlmRaises (msg : string).

(** The files of one model and the history of chat calls. *)
Record world : Type := World {
  result_file : option text;
  resume : resume_file;
  llm_calls : list key
}.

Definition set_result (w : world) (f : option text) : world :=
  {| result_file := f; resume := resume w; llm_calls := llm_calls w |}.

Definition set_resume (w : world) (f : resume_file) : world :=
  {| result_file := result_file w; resume := f; llm_calls := llm_calls w |}.

(** The result file holds exactly the rendered records [items]. *)
Definition file_holds (items : list text) (file : option text) : Prop :=
  match items with
  | [] => file = None \/ file = Some []
  | _ :: _ => file = Some (array_text items)
  end.

Section Run.

(** [json.dumps(_, indent=4)] on an output record. *)
Variable dumps : out_entry -> text.

(** [ns_to_seconds]: [round(ns / 1e9, 3)], on floats. *)
Variable ns_to_seconds : Q -> Q.

(** The chat call as an oracle: the outcome of the call number [n] of the
    history, made for a record. *)
Variable call_ollama_chat : nat -> entry -> llm_outcome.

(** The [retry_count] in the retry file of a record under
    [log_dir/retries], when there is one.  The driver never writes these
    files. *)
Variable retry_file : key -> option Z.

(** [config['processing']['max_retries']] *)
Variable max_retries : Z.

Definition or_zero (q : option Q) : Q :=
  match q with Some x => x | None => 0%Q end.

(** The record [interact_with_llm] builds from an answer; a missing
    metadata field counts as 0. *)
Definition answered (e : entry) (r : llm_response) : out_entry :=
  let '(entry_id, sub_id, code_id) := entry_ids e in
  {| out_id := entry_id; out_sub_id := sub_id; out_code_id := code_id;
     response := content r;
     total_duration := ns_to_seconds (or_zero (r_total_duration r));
     load_duration := ns_to_seconds (or_zero (r_load_duration r));
     prompt_eval_count := or_zero (r_prompt_eval_count r);
     prompt_eval_duration := ns_to_seconds (or_zero (r_prompt_eval_duration r));
     eval_count := or_zero (r_eval_count r);
     eval_duration := ns_to_seconds (or_zero (r_eval_duration r)) |}.

Definition log_call (w : world) (e : entry) : world :=
  {| result_file := result_file w; resume := resume w;
     llm_calls := (llm_calls w ++ [entry_ids e])%list |}.

Inductive interaction : Type :=
| NewEntry (w : world) (o : out_entry)
| InteractionRaised (w : world) (msg : string).

(** [interact_with_llm(entry, custom_prompt, model_name, config)]: a retry
    file that has reached [max_retries] gives the empty record without a
    call; otherwise the chat call is made and its exception passed on. *)
Definition interact_with_llm (w : world) (e : entry) : interaction :=
  let exhausted :=
    match retry_file (entry_ids e) with
    | Some retry_count => max_retries <=? retry_count
    | None => false
    end in
  if exhausted then NewEntry w (sentinel e)
  else
    match call_ollama_chat (List.length (llm_calls w)) e with
    | LlmRaises msg => InteractionRaised (log_call w e) msg
    | LlmReturns r => NewEntry (log_call w e) (answered e r)
    end.

(** The world after a record has been answered and stored on a result
    file that held [items]. *)
Definition after_answer (w : world) (e : entry) (idx total_entries : Z)
    (items : list text) (r : llm_response) : world :=
  {| result_file := Some (array_text (items ++ [dumps (answered e r)])%list);
     resume := Some {| last_processed := Some (get e "id", get e "sub_id", get e "code_id");
                       index := Some (idx + 1); total := Some total_entries;
                       completed := Some (total_entries <=? idx + 1);
                       failed_entries := Some (get_failed_entries (resume w)) |};
     llm_calls := (llm_calls w ++ [entry_ids e])%list |}.

Inductive attempt : Type :=
| AttemptOk (w : world)
| AttemptRaised (w : world) (msg : string).

(** [_process_entry_attempt]: chat call, append to the result file, save
    the resume point at [idx + 1].  Any exception leaves through the
    caller's [except Exception]. *)
Definition _process_entry_attempt (w : world) (e : entry) (idx total_entries : Z)
  : attempt :=
  match interact_with_llm w e with
  | InteractionRaised w1 msg => AttemptRaised w1 msg
  | NewEntry w1 new_entry =>
      match write_to_json dumps new_entry (result_file w1) with
      | WriteValueError => AttemptRaised w1 "Invalid JSON array format"
      | Written file =>
          let w2 := set_result w1 (Some file) in
          match save_resume_point e (idx + 1) total_entries [] (resume w2) with
          | SaveZeroDivisionError => AttemptRaised w2 "division by zero"
          | Saved f => AttemptOk (set_resume w2 f)
          end
      end
  end.

Inductive handled : Type :=
| Handled (w : world)
| HandlerRaised (w : world).

(** [_handle_entry_error]: record the failure in the ledger and, once
    [retry_count >= max_retries], append the sentinel record.  A
    [ValueError] of that append is not caught. *)
Definition _handle_entry_error (w : world) (e : entry) (error_msg : string)
    (retry_count : Z) : handled :=
  let w1 := set_resume w (add_failed_entry e (Some error_msg) (resume w)) in
  if max_retries <=? retry_count then
    match write_to_json dumps (sentinel e) (result_file w1) with
    | Written file => Handled (set_result w1 (Some file))
    | WriteValueError => HandlerRaised w1
    end
  else Handled w1.

Inductive entry_run : Type :=
| EntryDone (w : world) (success : bool) (attempts : nat)
| EntryAborted (w : world) (attempts : nat).

(** The [while retry_count <= max_retries and not success] loop of
    [_process_entry]; [None] when the fuel runs out. *)
Fixpoint retry_loop (fuel : nat) (w : world) (e : entry)
    (idx total_entries retry_count : Z) (attempts : nat) : option entry_run :=
  match fuel with
  | O => None
  | S fuel' =>
      if retry_count <=? max_retries then
        match _process_entry_attempt w e idx total_entries with
        | AttemptOk w1 => Some (EntryDone w1 true (S attempts))
        | AttemptRaised w1 error_msg =>
            let retry_count := retry_count + 1 in
            match _handle_entry_error w1 e error_msg retry_count with
            | HandlerRaised w2 => Some (EntryAborted w2 (S attempts))
            | Handled w2 =>
                if max_retries <=? retry_count
                then Some (EntryDone w2 true (S attempts))
                else retry_loop fuel' w2 e idx total_entries retry_count
                                (S attempts)
            end
        end
      else Some (EntryDone w false attempts)
  end.

(** [_process_entry]: at most [max_retries + 1] rounds are possible. *)
Definition _process_entry (w : world) (e : entry) (idx total_entries : Z)
  : option entry_run :=
  retry_loop (S (Z.to_nat (max_retries + 1))) w e idx total_entries 0 0.

Inductive job_run : Type :=
| JobReturned (w : world) (completed : bool)
| JobRaised (w : world).

(** The [for idx, entry in enumerate(stream_json_data(...))] loop, over
    the records the data file yields. *)
Fixpoint process_entries (w : world) (entries : list entry)
    (idx start_idx total_entries : Z) : option (world * bool) :=
  match entries with
  | [] => Some (w, true)
  | e :: rest =>
      if idx <? start_idx then
        process_entries w rest (idx + 1) start_idx total_entries
      else
        match _process_entry w e idx total_entries with
        | None => None
        | Some (EntryDone w1 _ _) =>
            process_entries w1 rest (idx + 1) start_idx total_entries
        | Some (EntryAborted w1 _) => Some (w1, false)
        end
  end.

(** The start of [process_model_streaming]: completion check and resume
    point.  [inl] when the model is skipped as completed. *)
Definition start_job (w : world) (data : list entry) : world + world * Z :=
  if fst (is_model_completed true (resume w)) then inl w
  else
    let '(start_idx, file) :=
      find_resume_point true (List.length data) true (resume w) (result_file w) in
    inr (set_result w file, start_idx).

(** [process_model_streaming(model_name)] on the records [data] of the
    data file. *)
Definition process_model_streaming (w : world) (data : list entry)
  : option job_run :=
  match start_job w data with
  | inl w0 => Some (JobReturned w0 true)
  | inr (w0, start_idx) =>
      match process_entries w0 data 0 start_idx (Z.of_nat (List.length data)) with
      | None => None
      | Some (w1, true) =>
          Some (JobReturned w1 (fst (is_model_completed true (resume w1))))
      | Some (w1, false) => Some (JobRaised w1)
      end
  end.

(** The same run with the process killed once the record number [k]
    (counted from 1) is done: the loop stops there and nothing is
    reported. *)
Definition killed_after (k : nat) (w : world) (data : list entry)
  : option world :=
  match start_job w data with
  | inl w0 => Some w0
  | inr (w0, start_idx) =>
      match process_entries w0 (firstn k data) 0 start_idx
                            (Z.of_nat (List.length data)) with
      | None => None
      | Some (w1, _) => Some w1
      end
  end.

End Run.

(** A job that starts with no file. *)
Definition fresh : world :=
  {| result_file := None; resume := None; llm_calls := [] |}.

(** Three records, and a chat call that answers for every record but the
    one with id 2, for which it always raises. *)
Definition record (n : Z) : entry :=
  [("id", PyInt n); ("sub_id", PyInt 0); ("code_id", PyInt 0)]%list.

Definition answer : llm_response :=
  {| content := "ok";
     r_total_duration := None; r_load_duration := None;
     r_prompt_eval_count := None; r_prompt_eval_duration := None;
     r_eval_count := None; r_eval_duration := None |}.

Definition fails_on_2 (n : nat) (e : entry) : llm_outcome :=
  if scalar_eqb (get e "id") (PyInt 2) then LlmRaises "connection refused"
  else LlmReturns answer.

(** A chat call that answers for every record. *)
Definition always_answers (n : nat) (e : entry) : llm_outcome :=
  LlmReturns answer.

Definition no_retry_file (k : key) : option Z := None.

Definition refused : option string := Some "connection refused".

(** The world after record 2 has used up three attempts on a result file
    that held [items]. *)
Definition after_giving_up (dumps : out_entry -> text) (w : world)
    (items : list text) : world :=
  {| result_file := Some (array_text (items ++ [dumps (sentinel (record 2))])%list);
     resume := add_failed_entry (record 2) refused
                 (add_failed_entry (record 2) refused
                    (add_failed_entry (record 2) refused (resume w)));
     llm_calls := (llm_calls w ++ repeat (entry_ids (record 2)) 3)%list |}.

End Driver.

(* ================================================================== *)
(** * A rendering of output records to run the driver on *)
(* ================================================================== *)

Module DriverSample.

Import Text Resume Driver.
Local Open Scope N_scope.

Definition quoted (s : string) : text := [34] ++ of_string s ++ [34].

Definition render_scalar (s : scalar) : text :=
  match s with
  | PyNone => of_string "null"
  | PyInt z => of_string (Decision.decimal z)
  | PyStr t => quoted t
  end.

(** An object with the identity fields and the response; the six numbers
    are left out. *)
Definition sample_dumps (o : out_entry) : text :=
  of_string "{" ++ quoted "id" ++ of_string ": " ++ render_scalar (out_id o)
  ++ of_string ", " ++ quoted "sub_id" ++ of_string ": " ++ render_scalar (out_sub_id o)
  ++ of_string ", " ++ quoted "code_id" ++ of_string ": " ++ render_scalar (out_code_id o)
  ++ of_string ", " ++ quoted "response" ++ of_string ": " ++ quoted (response o)
  ++ of_string "}".

(** Nanoseconds to seconds, without the rounding. *)
Definition sample_ns_to_seconds (ns : Q) : Q := (ns / 1000000000)%Q.

End DriverSample.

(* ================================================================== *)
(** * Retry files of [data_handler.py] *)
(* ================================================================== *)

Module RetryFiles.

Import Resume.
Local Open Scope string_scope.
Local Open Scope Z_scope.

(** [str(x)] on a scalar, as an f-string renders it. *)
Definition py_str (s : scalar) : string :=
  match s with
  | PyNone => "None"
  | PyInt z => Decision.decimal z
  | PyStr t => t
  end.

(** [f"{entry_id}_{sub_id}_{code_id}"], the three fields read with
    [entry.get(_, default)].  [get_retry_file_path] reads them with the
    default ['unknown'], [interact_with_llm] with ['Unknown']. *)
Definition entry_identifier (default : string) (e : entry) : string :=
  py_str (get_or e "id" (PyStr default)) ++ "_"
  ++ py_str (get_or e "sub_id" (PyStr default)) ++ "_"
  ++ py_str (get_or e "code_id" (PyStr default)).

(** The name of the retry file of a record, inside the directory of the
    model. *)
Definition retry_file_name (default : string) (e : entry) : string :=
  entry_identifier default e ++ ".retry".

(** The retry file of one record: absent, present but not usable as the
    JSON object it should hold, or an object with its [retry_count] when
    it has one. *)
Inductive retry_file : Type :=
| Absent
| Unreadable
| RetryData (retry_count : option Z).

(** [retry_data.get('retry_count', 0)] *)
Definition count_or_zero (c : option Z) : Z :=
  match c with Some n => n | None => 0 end.

(** [create_retry_file(model_name, entry, log_dir, error_message)]: the
    file after the call and the pair returned. *)
Definition create_retry_file (file : retry_file) : retry_file * (bool * Z) :=
  let retry_count :=
    match file with
    | Absent => 1
    | Unreadable => 1
    | RetryData c => count_or_zero c + 1
    end in
  (RetryData (Some retry_count), (true, retry_count)).

(** [check_retry_status(model_name, entry, log_dir, max_retries)] *)
Definition check_retry_status (file : retry_file) (max_retries : Z) : bool * Z :=
  match file with
  | Absent => (true, 0)
  | Unreadable => (true, 0)
  | RetryData c =>
      let retry_count := count_or_zero c in
      if max_retries <=? retry_count then (false, retry_count)
      else (true, retry_count)
  end.

(** [delete_retry_file(model_name, entry, log_dir)] *)
Definition delete_retry_file (file : retry_file) : retry_file * bool :=
  (Absent, true).

(** What [interact_with_llm] reads in the retry file of a record: the
    [retry_count] of a file it can load. *)
Definition stored_retry_count (file : retry_file) : option Z :=
  match file with
  | RetryData c => Some (count_or_zero c)
  | _ => None
  end.

End RetryFiles.

(* ================================================================== *)
(** * Names and languages of [llm_processor.py] *)
(* ================================================================== *)

Module LlmProcessor.

Import Text.
Local Open Scope N_scope.

(** The class [[a-zA-Z0-9]]. *)
Definition is_alnum (c : char) : bool :=
  ((97 <=? c) && (c <=? 122)) || ((65 <=? c) && (c <=? 90))
  || ((48 <=? c) && (c <=? 57)).

Definition UNDERSCORE : char := 95.

(** [sanitize_model_name]: [re.sub(r'[^a-zA-Z0-9]', '_', model_name)] *)
Definition sanitize_model_name (model_name : text) : text :=
  map (fun c => if is_alnum c then c else UNDERSCORE) model_name.

(** The result file of a model, [sanitize_model_name(model_name) +
    '.json'], and its resume file,
    [f"{sanitize_model_name(model_name)}_resume.json"]. *)
Definition result_file_name (model_name : text) : text :=
  sanitize_model_name model_name ++ of_string ".json".

Definition resume_file_name (model_name : text) : text :=
  sanitize_model_name model_name ++ of_string "_resume.json".

Local Open Scope string_scope.

(** [s.split('.')[-1]]: what follows the last dot, the whole string when
    there is none.  [cur] is the part read since the last dot. *)
Fixpoint last_part (cur s : string) : string :=
  match s with
  | EmptyString => cur
  | String c r =>
      if Ascii.eqb c "." then last_part "" r
      else last_part (cur ++ String c "") r
  end.

(** The string holds no dot. *)
Fixpoint no_dot (s : string) : bool :=
  match s with
  | EmptyString => true
  | String c r => negb (Ascii.eqb c ".") && no_dot r
  end.

Definition language_map : list (string * string) :=
  [("java", "java"); ("c", "c"); ("cpp", "cpp"); ("cc", "cpp");
   ("cxx", "cpp"); ("h", "c"); ("hpp", "cpp"); ("py", "python");
   ("js", "javascript")].

(** [language_map.get(extension, 'text')] *)
Fixpoint lookup (m : list (string * string)) (k : string) : string :=
  match m with
  | [] => "text"
  | (k', v) :: rest => if String.eqb k' k then v else lookup rest k
  end.

(** [get_language_from_filename], on ASCII file names. *)
Definition get_language_from_filename (filename : string) : string :=
  match filename with
  | EmptyString => "text"
  | _ =>
      let extension := last_part "" (Decision.lower filename) in
      lookup language_map extension
  end.

End LlmProcessor.

(* ================================================================== *)
(** * The retry limit on the command line ([main.py]) *)
(* ================================================================== *)

Module Cli.

Local Open Scope Z_scope.

(** The configuration as far as the retry limit goes: the [processing]
    section when there is one, with its [max_retries] when it has
    one. *)
Definition config : Type := option (option Z).

(** [_set_max_retries(processor, args)] *)
Definition _set_max_retries (arg : Z) (c : config) : config :=
  if negb (arg =? 3) then Some (Some arg) else c.

(** [config.get('processing', {}).get('max_retries', 3)], as
    [process_model_streaming] and [interact_with_llm] read it. *)
Definition configured_max_retries (c : config) : Z :=
  match c with
  | Some (Some v) => v
  | _ => 3
  end.

End Cli.

(* ================================================================== *)
(** * Resume state of [resume_manager.py] *)
(* ================================================================== *)

Module ResumeManager.

Import Resume.
Local Open Scope string_scope.
Local Open Scope Z_scope.

(** The identity of a function entry:
    [(id, sub_id, code_id, function_id)]. *)
Definition id4 : Type := (scalar * scalar * scalar * scalar)%type.

Definition id4_eqb (a b : id4) : bool :=
  let '(a1, a2, a3, a4) := a in
  let '(b1, b2, b3, b4) := b in
  scalar_eqb a1 b1 && scalar_eqb a2 b2 && scalar_eqb a3 b3 && scalar_eqb a4 b4.

(** The four fields read with [entry.get(_)]. *)
Definition ids_of (e : entry) : id4 :=
  (get e "id", get e "sub_id", get e "code_id", get e "function_id").

(** An element of [failed_entries]: a tuple that [add_failed_entry]
    appended, or a list that [json.load] read back.  A tuple and a list
    are never equal. *)
Inductive failed_item : Type :=
| AsTuple (t : id4)
| AsList (l : list scalar).

Definition item_eqb (a b : failed_item) : bool :=
  match a, b with
  | AsTuple x, AsTuple y => id4_eqb x y
  | AsList x, AsList y =>
      (List.length x =? List.length y)%nat
      && forallb (fun p => scalar_eqb (fst p) (snd p)) (combine x y)
  | _, _ => false
  end.

(** [json.dump] writes both as an array. *)
Definition to_array (i : failed_item) : list scalar :=
  match i with
  | AsTuple (a, b, c, d) => [a; b; c; d]
  | AsList l => l
  end.

(** The resume file of one input file, as [save_state] writes it. *)
Record state_file : Type := StateFile {
  f_last_processed : id4;
  f_index : Z;
  f_total : Z;
  f_completed : bool;
  f_failed_entries : list (list scalar)
}.

(** The file on disk: absent (or not loadable) is [None]. *)
Definition resume_file : Type := option state_file.

(** The fields of a [ResumeState]. *)
Record resume_state : Type := ResumeState {
  current_file_name : option string;
  last_processed : option id4;
  index : Z;
  total : Z;
  completed : bool;
  failed_entries : list failed_item
}.

(** [ResumeState.__init__] *)
Definition new_state : resume_state :=
  {| current_file_name := None; last_processed := None; index := 0;
     total := 0; completed := false; failed_entries := [] |}.

(** [ResumeState.load_state(file_name)] *)
Definition load_state (file_name : string) (file : resume_file)
    (s : resume_state) : resume_state * bool :=
  match file with
  | None => (s, false)
  | Some f =>
      ({| current_file_name := Some file_name;
          last_processed := Some (f_last_processed f);
          index := f_index f; total := f_total f;
          completed := f_completed f;
          failed_entries := map AsList (f_failed_entries f) |}, true)
  end.

(** [ResumeState.save_state(file_name, entry, index, total,
    time_estimates, completed)]: the state and the file after the
    call. *)
Definition save_state (file_name : string) (e : entry) (idx tot : Z)
    (done : bool) (s : resume_state) : resume_state * resume_file :=
  ({| current_file_name := Some file_name;
      last_processed := Some (ids_of e);
      index := idx; total := tot; completed := done;
      failed_entries := failed_entries s |},
   Some {| f_last_processed := ids_of e; f_index := idx; f_total := tot;
           f_completed := done;
           f_failed_entries := map to_array (failed_entries s) |}).

(** [ResumeState.add_failed_entry(entry)] *)
Definition add_failed_entry (e : entry) (s : resume_state) : resume_state :=
  let entry_id := AsTuple (ids_of e) in
  if existsb (item_eqb entry_id) (failed_entries s) then s
  else {| current_file_name := current_file_name s;
          last_processed := last_processed s;
          index := index s; total := total s; completed := completed s;
          failed_entries := (failed_entries s ++ [entry_id])%list |}.

(** The search loop of [find_resume_index], from position [idx]. *)
Fixpoint find_from (last : id4) (data : list entry) (idx : Z) : Z :=
  match data with
  | [] => 0
  | e :: rest =>
      if id4_eqb (ids_of e) last then idx + 1
      else find_from last rest (idx + 1)
  end.

(** [ResumeState.find_resume_index(ground_truth_data)] *)
Definition find_resume_index (data : list entry) (s : resume_state) : Z :=
  match last_processed s with
  | None => 0
  | Some last => find_from last data 0
  end.

End ResumeManager.

(* ================================================================== *)
(** * Timing an entry and saving the resume state ([time_estimator.py]) *)
(* ================================================================== *)

Module EntryTimer.

Import Resume TimeEstimator ResumeManager.
Local Open Scope string_scope.
Local Open Scope Z_scope.

(** A [TimeEstimator] with the fields [start_entry] and [end_entry]
    use. *)
Record timer : Type := Timer {
  est : estimator;
  file_name : string;
  last_entry_start_time : option Q;
  current_entry : option entry;
  timer_failed_entries : list id4
}.

(** The tuple [end_entry] records for a failed entry, each field read
    with the default ['Unknown']. *)
Definition failed_id (e : entry) : id4 :=
  (get_or e "id" (PyStr "Unknown"), get_or e "sub_id" (PyStr "Unknown"),
   get_or e "code_id" (PyStr "Unknown"), get_or e "function_id" (PyStr "Unknown")).

(** The dictionary [end_entry] builds from a recorded tuple to hand it
    to [ResumeState.add_failed_entry]. *)
Definition failed_dict (t : id4) : entry :=
  let '(a, b, c, d) := t in
  [("id", a); ("sub_id", b); ("code_id", c); ("function_id", d)]%list.

(** The truth value of [self.current_entry]: neither [None] nor the empty
    dictionary. *)
Definition truthy (e : option entry) : option entry :=
  match e with
  | Some (p :: r) => Some (p :: r)
  | _ => None
  end.

(** [TimeEstimator.start_entry(entry)] at the clock reading [now]. *)
Definition start_entry (now : Q) (e : option entry) (t : timer) : timer :=
  {| est := est t; file_name := file_name t;
     last_entry_start_time := Some now; current_entry := e;
     timer_failed_entries := timer_failed_entries t |}.

Section EndEntry.

Variables median stdev : list Q -> Q.
Variable round2 : Q -> Q.

(** What [end_entry] returns: the empty dictionary, the estimates, or the
    exception of [get_estimates]. *)
Inductive ended : Type :=
| EmptyDict
| Estimates (e : estimates)
| Raised.

(** [TimeEstimator.end_entry(success)]: the instance and the resume file
    after the call, and what the call returns.  [now] is the clock when
    the entry ends, [later] the clock when the estimates are computed.
    The file of processing times is not kept. *)
Definition end_entry (now later : Q) (success : bool) (t : timer)
    (file : resume_file) : timer * resume_file * ended :=
  match last_entry_start_time t with
  | None => (t, file, EmptyDict)
  | Some started =>
      let processing_time := (now - started)%Q in
      let e1 :=
        {| total_entries := total_entries (est t);
           current_index := current_index (est t) + 1;
           remaining_entries := remaining_entries (est t) - 1;
           start_time := start_time (est t);
           processing_times := (processing_times (est t) ++ [processing_time])%list |} in
      let failed :=
        match success, truthy (current_entry t) with
        | false, Some e => (timer_failed_entries t ++ [failed_id e])%list
        | _, _ => timer_failed_entries t
        end in
      let t1 :=
        {| est := e1; file_name := file_name t;
           last_entry_start_time := last_entry_start_time t;
           current_entry := current_entry t;
           timer_failed_entries := failed |} in
      match get_estimates median stdev round2 e1 later with
      | ZeroDivisionError => (t1, file, Raised)
      | Returns estimates =>
          match truthy (current_entry t) with
          | Some e =>
              let done := total_entries e1 <=? current_index e1 in
              let loaded := fst (load_state (file_name t) file new_state) in
              let with_failed :=
                fold_left (fun s entry_id => add_failed_entry (failed_dict entry_id) s)
                          failed loaded in
              let saved :=
                save_state (file_name t) e (current_index e1) (total_entries e1)
                           done with_failed in
              (t1, snd saved, Estimates estimates)
          | None => (t1, file, Estimates estimates)
          end
      end
  end.

End EndEntry.

End EntryTimer.

(* ================================================================== *)
(** * History of the review ([json_processor.py]) *)
(* ================================================================== *)

Module ReviewStatus.

Import Resume.
Local Open Scope string_scope.
Local Open Scope Z_scope.

(** [l[-n:]] on a list: the last [n] elements for a positive [n], the
    whole list for [n = 0], and the list without its first [-n] elements
    for a negative [n]. *)
Definition slice_last {A : Type} (l : list A) (n : Z) : list A :=
  let len := Z.of_nat (List.length l) in
  let start := if 0 <? n then Z.max 0 (len - n) else Z.min (- n) len in
  skipn (Z.to_nat start) l.

(** The dictionary [get_processed_status] builds for one processed
    object: its three identifiers, each read with the default
    ['unknown']. *)
Definition status_of (obj : entry) : entry :=
  [("id", get_or obj "id" (PyStr "unknown"));
   ("sub_id", get_or obj "sub_id" (PyStr "unknown"));
   ("code_id", get_or obj "code_id" (PyStr "unknown"))]%list.

(** [JsonProcessor.get_processed_status], with [max_history] from the
    configuration. *)
Definition get_processed_status (processed_objects : list entry)
    (max_history : Z) : list entry :=
  let recent_objects :=
    match processed_objects with
    | [] => []
    | _ => slice_last processed_objects max_history
    end in
  map status_of recent_objects.

End ReviewStatus.

(* ================================================================== *)
(** * Properties *)
(* ================================================================== *)

(** ** Decisions *)

Section DecisionFacts.

Import Decision.
Local Open Scope Z_scope.
Local Arguments Nat.div : simpl never.
Local Arguments Nat.modulo : simpl never.

Lemma digit_char_is_digit k : (k < 10)%nat -> is_digit (digit_char k) = true.
Proof.
  intros H. do 10 (destruct k as [|k]; [reflexivity|]). lia.
Qed.

Lemma digit_char_val k : (k < 10)%nat -> digit_val (digit_char k) = Z.of_nat k.
Proof.
  intros H. do 10 (destruct k as [|k]; [reflexivity|]). lia.
Qed.

Lemma digit_char_not_space k : (k < 10)%nat -> is_space (digit_char k) = false.
Proof.
  intros H. do 10 (destruct k as [|k]; [reflexivity|]). lia.
Qed.

Lemma nat_digits_lt fuel : forall n, Forall (fun k => (k < 10)%nat) (nat_digits fuel n).
Proof.
  induction fuel as [|f IH]; intros n; simpl.
  - constructor.
  - destruct (Nat.ltb_spec n 10).
    + constructor; [assumption|constructor].
    + apply Forall_app. split; [apply IH|].
      constructor; [|constructor]. apply Nat.mod_upper_bound. lia.
Qed.

Lemma nat_digits_nonempty fuel n : nat_digits (S fuel) n <> [].
Proof.
  simpl. destruct (n <? 10)%nat; [discriminate|].
  intros H. apply app_eq_nil in H. destruct H; discriminate.
Qed.

Lemma nat_digits_value fuel : forall n, (n < fuel)%nat ->
  digits_value 0 (nat_digits fuel n) = Z.of_nat n.
Proof.
  induction fuel as [|f IH]; intros n Hn; [lia|].
  simpl. destruct (Nat.ltb_spec n 10).
  - reflexivity.
  - unfold digits_value. rewrite fold_left_app. simpl.
    fold (digits_value 0 (nat_digits f (n / 10))).
    assert (Hdiv : (n / 10 < n)%nat) by (apply Nat.div_lt; lia).
    rewrite IH by lia.
    rewrite (Nat.div_mod_eq n 10) at 3. lia.
Qed.

Lemma int_digits_digits ks : forall acc b rest,
  Forall (fun k => (k < 10)%nat) ks ->
  int_digits acc b (map digit_char ks ++ rest) =
  int_digits (digits_value acc ks)
             (match ks with [] => b | _ => true end) rest.
Proof.
  induction ks as [|k ks IH]; intros acc b rest H; [reflexivity|].
  inversion H as [|? ? Hk Hks]; subst. cbn [map app int_digits].
  rewrite (digit_char_is_digit Hk), (digit_char_val Hk), IH by assumption.
  destruct ks; reflexivity.
Qed.

Lemma lstrip_head c l : is_space c = false -> lstrip (c :: l) = c :: l.
Proof. intros H. cbn [lstrip]. now rewrite H. Qed.

Lemma strip_digits_body (sign : list ascii) ks :
  ks <> [] -> Forall (fun k => (k < 10)%nat) ks ->
  (forall c, In c sign -> is_space c = false) ->
  strip (sign ++ map digit_char ks) = sign ++ map digit_char ks.
Proof.
  intros Hne Hks Hsign. unfold strip.
  assert (H1 : lstrip (sign ++ map digit_char ks) = sign ++ map digit_char ks).
  { destruct sign as [|c s]; cbn [app].
    - destruct ks as [|k ks]; [contradiction|]. inversion Hks; subst.
      cbn [map]. apply lstrip_head. now apply digit_char_not_space.
    - apply lstrip_head. apply Hsign. left; reflexivity. }
  rewrite H1.
  destruct (exists_last Hne) as [ks' [k Hl]]. subst ks.
  apply Forall_app in Hks. destruct Hks as [_ Hk]. inversion Hk; subst.
  rewrite map_app, app_assoc, rev_app_distr. cbn [map rev app].
  rewrite lstrip_head by (now apply digit_char_not_space).
  change (digit_char k :: rev (sign ++ map digit_char ks'))
    with (rev [digit_char k] ++ rev (sign ++ map digit_char ks')).
  rewrite <- rev_app_distr, rev_involutive. reflexivity.
Qed.

Lemma py_int_of_decimal z : py_int_of_string (decimal z) = Some z.
Proof.
  unfold py_int_of_string, decimal, decimal_chars.
  rewrite list_ascii_of_string_of_list_ascii.
  set (n := Z.abs_nat z).
  pose proof (nat_digits_lt (S n) n) as Hlt.
  pose proof (@nat_digits_nonempty n n) as Hne.
  pose proof (@nat_digits_value (S n) n (Nat.lt_succ_diag_r n)) as Hval.
  destruct (Z.ltb_spec z 0) as [Hneg|Hpos].
  - rewrite strip_digits_body; try assumption.
    2:{ intros c [<-|[]]. reflexivity. }
    cbn [app]. rewrite Ascii.eqb_refl.
    rewrite <- (app_nil_r (map digit_char _)), int_digits_digits by assumption.
    destruct (nat_digits (S n) n) eqn:E; [contradiction|].
    cbn [int_digits option_map]. rewrite Hval. f_equal. subst n. lia.
  - rewrite (@strip_digits_body [] _ Hne Hlt) by (intros c []).
    cbn [app].
    destruct (nat_digits (S n) n) as [|k ks] eqn:E; [contradiction|].
    inversion Hlt as [|? ? Hk Hks]; subst.
    cbn [map].
    assert (Hd : forall m c, (m < 10)%nat -> In c ["-"; "+"]%char ->
                 Ascii.eqb (digit_char m) c = false).
    { intros m c Hm [<-|[<-|[]]];
        do 10 (destruct m as [|m]; [reflexivity|]); lia. }
    rewrite !Hd by (assumption || (cbn; auto)).
    change (digit_char k :: map digit_char ks)
      with (map digit_char (k :: ks)).
    rewrite <- (app_nil_r (map digit_char _)), int_digits_digits
      by (constructor; assumption).
    cbn [int_digits]. rewrite Hval. f_equal. subst n. lia.
Qed.

End DecisionFacts.

Section BoundaryFacts.

Import Decision.
Local Open Scope string_scope.
Local Open Scope Z_scope.

Lemma decimal_chars_head z :
  exists c r, decimal_chars z = c :: r /\
              (c = "-"%char \/ exists k, (k < 10)%nat /\ c = digit_char k).
Proof.
  unfold decimal_chars. set (n := Z.abs_nat z).
  destruct (z <? 0).
  - eexists _, _. split; [reflexivity|]. now left.
  - pose proof (nat_digits_lt (S n) n) as Hlt.
    pose proof (@nat_digits_nonempty n n) as Hne.
    destruct (nat_digits (S n) n) as [|k ks]; [contradiction|].
    inversion Hlt; subst. exists (digit_char k), (map digit_char ks).
    split; [reflexivity|]. right. now exists k.
Qed.

Lemma decimal_not_keyword z (w : string) (c0 : ascii) :
  (97 <= nat_of_ascii c0)%nat ->
  String.eqb (lower (decimal z)) (String c0 w) = false.
Proof.
  intros Hc0. unfold decimal.
  destruct (decimal_chars_head z) as (c & r & -> & Hc).
  cbn [string_of_list_ascii lower String.eqb].
  assert (Hne : Ascii.eqb (lower_ascii c) c0 = false).
  { apply Ascii.eqb_neq. intros <-.
    destruct Hc as [->|(k & Hk & ->)].
    - vm_compute in Hc0. lia.
    - do 10 (destruct k as [|k]; [vm_compute in Hc0; lia|]). lia. }
  now rewrite Hne.
Qed.

Lemma normalize_idempotent d :
  _normalize_decision (as_decision (_normalize_decision d)) = _normalize_decision d.
Proof.
  destruct d as [[|]|z|s]; try reflexivity.
  cbn [_normalize_decision].
  destruct (py_int_of_string s) eqn:E; cbn [as_decision _normalize_decision].
  - reflexivity.
  - now rewrite E.
Qed.

Lemma lower_ascii_inv (c d : ascii) :
  lower_ascii c = d ->
  c = d \/ c = ascii_of_nat (nat_of_ascii d - 32).
Proof.
  unfold lower_ascii. intros H.
  destruct ((65 <=? nat_of_ascii c) && (nat_of_ascii c <=? 90))%nat eqn:E;
    [|now left].
  right. apply andb_true_iff in E. destruct E as [E1 E2].
  apply Nat.leb_le in E1, E2.
  apply (f_equal nat_of_ascii) in H.
  rewrite nat_ascii_embedding in H by lia.
  rewrite <- H. replace (nat_of_ascii c + 32 - 32)%nat with (nat_of_ascii c) by lia.
  symmetry. apply ascii_nat_embedding.
Qed.

(** A string that reads "true" or "false" without regard to case is no
    number for [int]. *)
Lemma word_is_no_number (s : string) :
  lower s = "true" \/ lower s = "false" -> py_int_of_string s = None.
Proof.
  intros [H|H].
  - destruct s as [|c1 [|c2 [|c3 [|c4 [|c5 s]]]]]; try discriminate H.
    cbn [lower] in H. injection H as H1 H2 H3 H4.
    apply lower_ascii_inv in H1, H2, H3, H4.
    destruct H1 as [-> | ->], H2 as [-> | ->], H3 as [-> | ->], H4 as [-> | ->];
      reflexivity.
  - destruct s as [|c1 [|c2 [|c3 [|c4 [|c5 [|c6 s]]]]]]; try discriminate H.
    cbn [lower] in H. injection H as H1 H2 H3 H4 H5.
    apply lower_ascii_inv in H1, H2, H3, H4, H5.
    destruct H1 as [-> | ->], H2 as [-> | ->], H3 as [-> | ->], H4 as [-> | ->],
             H5 as [-> | ->];
      reflexivity.
Qed.

(** The route [submit_decision] of variant 100 converts the two words, in
    any case, before the processor sees them. *)
Lemma submit_true_any_case s m :
  lower s = "true" -> stored (DStr s) m = Some (NInt 1).
Proof. intros H. unfold stored, submit_decision. now rewrite H. Qed.

Lemma submit_false_any_case s m :
  lower s = "false" -> stored (DStr s) m = Some (NInt 0).
Proof. intros H. unfold stored, submit_decision. now rewrite H. Qed.

(** A string that is neither a word nor a number is refused by the route
    and the slot keeps what it held. *)
Lemma submit_rejects_garbage m :
  submit_decision (DStr "maybe") m = (m, ErrorResponse).
Proof. reflexivity. Qed.

(** Behind the route every accepted form reaches the mailbox as the
    canonical integer. *)
Lemma route_stores_canonical (m : mailbox) :
  stored (DBool true) m = Some (NInt 1) /\
  stored (DBool false) m = Some (NInt 0) /\
  (forall z, stored (DInt z) m = Some (NInt z)) /\
  stored (DStr "true") m = Some (NInt 1) /\
  stored (DStr "false") m = Some (NInt 0) /\
  (forall z, stored (DStr (decimal z)) m = Some (NInt z)).
Proof.
  repeat split; try reflexivity.
  intros z. unfold stored, submit_decision.
  rewrite !decimal_not_keyword by (vm_compute; lia).
  now rewrite py_int_of_decimal.
Qed.

(** C8.  Decision normalization, as [_normalize_decision] and
    [set_user_decision] do it: what is stored is the normalized value;
    [True] becomes 1 and [False] 0, an integer is kept, a string that
    [int] accepts (so the decimal text of an integer) becomes its integer
    value, and a string that [int] refuses is kept as the string it is.  The words "true" and "false", in any
    case, are such strings: they are stored unchanged, not as 1 and
    0. *)
Theorem decision_normalization (m : mailbox) :
  (forall d, user_decision (set_user_decision d m)
             = Some (_normalize_decision d)) /\
  _normalize_decision (DBool true) = NInt 1 /\
  _normalize_decision (DBool false) = NInt 0 /\
  (forall z, _normalize_decision (DInt z) = NInt z) /\
  (forall z, _normalize_decision (DStr (decimal z)) = NInt z) /\
  (forall s z, py_int_of_string s = Some z ->
               _normalize_decision (DStr s) = NInt z) /\
  (forall s, py_int_of_string s = None ->
             _normalize_decision (DStr s) = NStr s) /\
  (forall s, lower s = "true" \/ lower s = "false" ->
             _normalize_decision (DStr s) = NStr s).
Proof.
  split; [reflexivity|]. split; [reflexivity|]. split; [reflexivity|].
  split; [reflexivity|]. split; [|split; [|split]].
  - intros z. cbn [_normalize_decision]. now rewrite py_int_of_decimal.
  - intros s z H. cbn [_normalize_decision]. now rewrite H.
  - intros s H. cbn [_normalize_decision]. now rewrite H.
  - intros s H. cbn [_normalize_decision]. now rewrite word_is_no_number by exact H.
Qed.

(** The claim as stated fails on the word "true": it is stored as the
    string, which is not the integer 1, and it agrees with no automatic
    label. *)
Lemma decision_normalization_counterexample :
  _normalize_decision (DStr "true") = NStr "true" /\
  user_decision
    (set_user_decision (DStr "true")
       {| user_decision := None; processing_paused := false |})
  = Some (NStr "true") /\
  _normalize_decision (DStr "true") <> NInt 1 /\
  _normalize_decision (DStr "false") = NStr "false" /\
  _normalize_decision (DStr "false") <> NInt 0.
Proof. repeat split; discriminate. Qed.

End BoundaryFacts.

(** ** Consensus *)

Section ReviewFacts.

Import Decision Review.
Local Open Scope Z_scope.

Lemma fresh_object_waits a :
  relevance_label (_process_json_object a) = None /\
  review_stage (_process_json_object a) = Some 1 /\
  analysis_label (_process_json_object a) = _extract_result a.
Proof. repeat split. Qed.

Lemma review_loop_final obj n ds :
  (exists l, relevance_label obj = Some l) -> review_loop obj n ds = (obj, n).
Proof. intros [l H]. destruct ds; cbn [review_loop]; now rewrite ?H. Qed.

(** The test [decision_value == analysis_label] of
    [_apply_user_decision] holds exactly when the normalized decision is
    the integer of the automatic label. *)
Lemma equals_label_spec (n : normalized) (A : Z) :
  equals_label n A = true <-> n = NInt A.
Proof.
  destruct n as [z|s]; cbn [equals_label].
  - rewrite Z.eqb_eq. split; [now intros ->|now intros [= ->]].
  - split; discriminate.
Qed.

(** C2.  Consensus resolution: with automatic decision [A] (possibly
    null) and human decisions [d1], [d2], ..., when [A] is non-null and
    the stage-1 decision equals it, the label is final after that single
    decision and is the stage-1 decision; when [A] is null or differs
    from the stage-1 decision, the object is at stage 2 without a label
    after the first decision, and the final label is the stage-2
    decision, whatever [A] is. *)
Theorem consensus_resolution (a : analysis) (d1 d2 : decision)
    (rest : list decision) :
  (forall A,
     _extract_result a = Some A -> _normalize_decision d1 = NInt A ->
     let r := review_object a (d1 :: rest) in
     relevance_label (fst r) = Some (_normalize_decision d1) /\
     review_stage (fst r) = None /\
     user_decision_round2 (fst r) = None /\ snd r = 1%nat) /\
  ((forall A, _extract_result a = Some A -> _normalize_decision d1 <> NInt A) ->
     let r1 := review_object a [d1] in
     let r := review_object a (d1 :: d2 :: rest) in
     relevance_label (fst r1) = None /\ review_stage (fst r1) = Some 2 /\
     relevance_label (fst r) = Some (_normalize_decision d2) /\
     review_stage (fst r) = None /\
     user_decision_round1 (fst r) = Some (_normalize_decision d1) /\
     user_decision_round2 (fst r) = Some (_normalize_decision d2) /\
     snd r = 2%nat).
Proof.
  split.
  - intros A HA Heq. cbv zeta. unfold review_object, _process_json_object.
    rewrite HA.
    cbn [map review_loop relevance_label _apply_user_decision review_stage
         analysis_label].
    rewrite normalize_idempotent.
    rewrite (proj2 (equals_label_spec (_normalize_decision d1) A) Heq).
    rewrite review_loop_final by (cbn; eauto). repeat split.
  - intros Hne. cbv zeta. unfold review_object, _process_json_object.
    destruct (_extract_result a) as [A|] eqn:HA;
      cbn [map review_loop relevance_label _apply_user_decision review_stage
           analysis_label];
      rewrite ?normalize_idempotent.
    + destruct (equals_label (_normalize_decision d1) A) eqn:E.
      * apply equals_label_spec in E. now destruct (Hne A eq_refl).
      * cbn [review_loop relevance_label _apply_user_decision review_stage
             analysis_label fst snd user_decision_round1 user_decision_round2].
        rewrite ?normalize_idempotent.
        rewrite review_loop_final by (cbn; eauto). repeat split.
    + rewrite review_loop_final by (cbn; eauto). repeat split.
Qed.

(** The two branches on concrete objects: an analysis that says
    "Vulnerable" with the submitted string "1", and the same analysis with
    the submitted [False] followed by -1. *)
Lemma consensus_resolution_witness :
  (relevance_label (fst (review_object (ResultString "Vulnerable") [DStr "1"]))
   = Some (NInt 1) /\
   review_stage (fst (review_object (ResultString "Vulnerable") [DStr "1"]))
   = None /\
   user_decision_round2
     (fst (review_object (ResultString "Vulnerable") [DStr "1"])) = None /\
   snd (review_object (ResultString "Vulnerable") [DStr "1"]) = 1%nat) /\
  (relevance_label
     (fst (review_object (ResultString "Vulnerable") [DBool false])) = None /\
   review_stage
     (fst (review_object (ResultString "Vulnerable") [DBool false])) = Some 2 /\
   relevance_label
     (fst (review_object (ResultString "Vulnerable") [DBool false; DInt (-1)]))
   = Some (NInt (-1)) /\
   review_stage
     (fst (review_object (ResultString "Vulnerable") [DBool false; DInt (-1)]))
   = None /\
   user_decision_round1
     (fst (review_object (ResultString "Vulnerable") [DBool false; DInt (-1)]))
   = Some (NInt 0) /\
   user_decision_round2
     (fst (review_object (ResultString "Vulnerable") [DBool false; DInt (-1)]))
   = Some (NInt (-1)) /\
   snd (review_object (ResultString "Vulnerable") [DBool false; DInt (-1)])
   = 2%nat).
Proof.
  split.
  - apply (proj1 (@consensus_resolution (ResultString "Vulnerable") (DStr "1")
                    (DStr "1") []) 1); reflexivity.
  - apply (proj2 (@consensus_resolution (ResultString "Vulnerable") (DBool false)
                    (DInt (-1)) [])).
    intros A HA. injection HA as <-. discriminate.
Defined.

End ReviewFacts.

(** ** Time estimator *)

Section EstimatorFacts.

Import TimeEstimator.
Local Open Scope Z_scope.

Variables median stdev : list Q -> Q.
Variable round2 : Q -> Q.

(** With no history and a non-zero total the snapshot is the zero-valued
    one. *)
Lemma get_estimates_empty_nonzero (e : estimator) (now : Q) :
  processing_times e = [] -> total_entries e <> 0 ->
  exists s, get_estimates median stdev round2 e now = Returns s /\
            zero_valued s /\ estimated_completion_time s = None.
Proof.
  intros Hp Ht. unfold get_estimates, _get_empty_estimates,
    _calculate_progress_percentage. rewrite Hp.
  destruct (Z.eqb_spec (total_entries e) 0) as [E|_]; [contradiction|].
  eexists. split; [reflexivity|]. split; [|reflexivity].
  repeat split.
Qed.

(** C9.  Zero-history estimate, at the input where the code departs from
    it: an estimator built for an empty data set ([total_entries = 0])
    with no observed time does not return a snapshot, [get_estimates]
    raises [ZeroDivisionError] out of
    [_calculate_progress_percentage]. *)
Theorem get_estimates_empty_zero_total (resume_index : Z) (t0 now : Q) :
  get_estimates median stdev round2 (new_estimator 0 resume_index t0) now
  = ZeroDivisionError.
Proof. reflexivity. Qed.

(** The file-level estimator guards the same division. *)
Lemma global_empty_progress_zero_total completed_files :
  global_empty_progress completed_files 0 = 0%Q.
Proof. reflexivity. Qed.

End EstimatorFacts.

(** ** Resume store *)

Section ResumeFacts.

Import Resume.
Local Open Scope Z_scope.

Lemma filter_length_zero {A} (p : A -> bool) (l : list A) :
  List.length (filter p l) = 0%nat <-> Forall (fun x => p x = false) l.
Proof.
  induction l as [|x l IH]; cbn [filter].
  - split; [constructor|reflexivity].
  - destruct (p x) eqn:E; cbn [List.length].
    + split; [discriminate|]. intros H. inversion H; subst. congruence.
    + rewrite IH. split; intros H.
      * now constructor.
      * now inversion H.
Qed.

Lemma is_model_completed_spec (d : resume_data) :
  fst (is_model_completed true (Some d)) = true <->
  (completed d = Some true /\
   Forall (fun f => ~ retry_count_of f < default_max_retries)
          (get_failed_entries (Some d))).
Proof.
  unfold is_model_completed, get_failed_entries, get_resume_data.
  set (failed := match failed_entries d with Some l => l | None => [] end).
  set (retryable := List.length (filter _ failed)).
  assert (Hr : retryable = 0%nat <->
               Forall (fun f => ~ retry_count_of f < default_max_retries) failed).
  { unfold retryable. rewrite filter_length_zero.
    split; intros HF; (eapply Forall_impl; [|exact HF]); cbn beta; intros f Hf.
    - apply negb_false_iff, Z.leb_le in Hf. lia.
    - apply negb_false_iff, Z.leb_le. lia. }
  destruct (completed d) as [[|]|]; cbn [andb].
  - destruct (Nat.eqb_spec retryable 0) as [E|E]; cbn [fst].
    + split; [|reflexivity]. intros _. split; [reflexivity|]. now apply Hr.
    + destruct (Nat.ltb_spec 0 retryable) as [_|Hle]; [|lia]. cbn [fst].
      split; [discriminate|]. intros [_ HF]. apply Hr in HF. contradiction.
  - destruct (0 <? retryable)%nat; cbn [fst]; split;
      try discriminate; intros [HF _]; discriminate.
  - destruct (0 <? retryable)%nat; cbn [fst]; split;
      try discriminate; intros [HF _]; discriminate.
Qed.

(** C5.  Completed-flag invariant: the state that [save_resume_point]
    persists is reported completed by [is_model_completed] if and only if
    [index >= total] and no ledger entry has [retry_count < 3] (a missing
    count reading as 0). *)
Theorem completed_flag_invariant (e : entry) (idx tot : Z)
    (new_failed : list failed_entry) (file : resume_file) :
  tot <> 0 ->
  exists d,
    save_resume_point e idx tot new_failed file = Saved (Some d) /\
    index d = Some idx /\ total d = Some tot /\
    (fst (is_model_completed true (Some d)) = true <->
     (idx >= tot /\
      Forall (fun f => ~ retry_count_of f < 3) (get_failed_entries (Some d)))).
Proof.
  intros Ht. unfold save_resume_point.
  destruct (Z.eqb_spec tot 0) as [E|_]; [contradiction|].
  eexists. split; [reflexivity|]. split; [reflexivity|]. split; [reflexivity|].
  rewrite is_model_completed_spec. cbn [completed].
  split; intros [H1 H2]; (split; [|exact H2]).
  - injection H1 as H1. apply Z.leb_le in H1. lia.
  - f_equal. apply Z.leb_le. lia.
Qed.

Lemma completed_flag_invariant_witness :
  exists d,
    save_resume_point [("id", PyInt 7)]%string 3 3 [] None = Saved (Some d) /\
    index d = Some 3 /\ total d = Some 3 /\
    (fst (is_model_completed true (Some d)) = true <->
     (3 >= 3 /\
      Forall (fun f => ~ retry_count_of f < 3) (get_failed_entries (Some d)))).
Proof.
  apply (@completed_flag_invariant [("id", PyInt 7)]%string 3 3 [] None).
  lia.
Defined.

End ResumeFacts.

(** ** Text *)

Section TextFacts.

Import Text Json.
Local Open Scope N_scope.

Lemma value_start_inv c :
  value_start c = true ->
  py_space c = false /\ json_ws c = false /\
  (c =? RBRACKET) = false /\ (c =? COMMA) = false.
Proof.
  unfold value_start. intros H. apply existsb_exists in H.
  destruct H as (x & Hin & Hx). apply N.eqb_eq in Hx. subst x.
  unfold value_start_chars in Hin. cbn [In] in Hin.
  repeat (destruct Hin as [<-|Hin]; [repeat split|]). contradiction.
Qed.

Lemma json_ws_py_space c : json_ws c = true -> py_space c = true.
Proof.
  unfold json_ws. intros H.
  repeat (apply orb_prop in H; destruct H as [H|H]);
    apply N.eqb_eq in H; subst c; reflexivity.
Qed.

Lemma drop_while_head (p : char -> bool) c r :
  p c = false -> drop_while p (c :: r) = c :: r.
Proof. intros H. cbn [drop_while]. now rewrite H. Qed.

Lemma lstrip_of_skip_ws s c r :
  skip_ws s = c :: r -> py_space c = false -> lstrip s = c :: r.
Proof.
  unfold skip_ws, lstrip. induction s as [|d s IH]; cbn [drop_while]; intros H Hc.
  - discriminate.
  - destruct (json_ws d) eqn:E.
    + rewrite (json_ws_py_space _ E). auto.
    + injection H as -> ->. now rewrite Hc.
Qed.

Lemma drop_while_length (p : char -> bool) s :
  (List.length (drop_while p s) <= List.length s)%nat.
Proof.
  induction s as [|c s IH]; cbn [drop_while]; [lia|].
  destruct (p c); cbn [List.length]; lia.
Qed.

Lemma drop_while_snoc (p : char -> bool) l c :
  p c = false -> exists l', drop_while p (l ++ [c]) = l' ++ [c].
Proof.
  intros Hc. induction l as [|d l IH]; cbn [app drop_while].
  - rewrite Hc. now exists [].
  - destruct (p d); [exact IH|]. now exists (d :: l).
Qed.

Lemma strip_head c r :
  py_space c = false -> startswith (strip (c :: r)) c = true.
Proof.
  intros Hc. unfold strip, lstrip, rstrip. rewrite drop_while_head by assumption.
  cbn [rev]. destruct (drop_while_snoc py_space (rev r) c Hc) as [l' ->].
  rewrite rev_app_distr. cbn [rev app startswith]. apply N.eqb_refl.
Qed.

Lemma skipn_length_le {A} n (l : list A) :
  (List.length (skipn n l) <= List.length l)%nat.
Proof. rewrite length_skipn. lia. Qed.

End TextFacts.

(** ** Streaming reader *)

Section ReaderFacts.

Import Text Json.
Local Open Scope N_scope.

Variable value : Type.
Variable raw_decode : text -> decoded value.

Hypothesis contract : scanner_contract raw_decode.

Lemma decoded_start s obj idx :
  raw_decode s = Decoded obj idx ->
  (1 <= idx)%nat /\ exists c r, s = c :: r /\ value_start c = true.
Proof. apply contract. Qed.

(** The element loop of the full parse and the loop of the generator
    agree on every text the full parse accepts. *)
Lemma stream_loop_items fuel : forall s acc items rest fuel2,
  JSONArray_items raw_decode fuel s acc = ArrayEnd items rest ->
  (List.length s < fuel2)%nat ->
  stream_loop raw_decode fuel2 s acc = Some (Streamed items StopIteration).
Proof.
  induction fuel as [|fuel IH]; intros s acc items rest fuel2 H Hf;
    cbn [JSONArray_items] in H; [discriminate|].
  destruct (raw_decode s) as [v idx|msg] eqn:Hd; [|discriminate].
  destruct (@decoded_start _ _ _ Hd) as (Hidx & c0 & r0 & -> & Hc0).
  destruct fuel2 as [|fuel2]; [lia|]. cbn [stream_loop]. rewrite Hd.
  destruct (skip_ws (slice_from (c0 :: r0) idx)) as [|c r] eqn:Hs; [discriminate|].
  destruct (N.eqb_spec c RBRACKET) as [->|Hnb].
  - injection H as <- <-.
    rewrite (@lstrip_of_skip_ws _ _ _ Hs) by reflexivity.
    reflexivity.
  - destruct (N.eqb_spec c COMMA) as [->|Hnc]; [|discriminate].
    rewrite (@lstrip_of_skip_ws _ _ _ Hs) by reflexivity.
    cbn [startswith slice_from skipn]. change (COMMA =? COMMA) with true. cbv iota.
    (* the text after the comma *)
    assert (Hnext : exists c1 r1, skip_ws r = c1 :: r1 /\ value_start c1 = true).
    { destruct fuel as [|fuel']; [discriminate|]. cbn [JSONArray_items] in H.
      destruct (raw_decode (skip_ws r)) as [v1 i1|] eqn:Hd1; [|discriminate].
      destruct (@decoded_start _ _ _ Hd1) as (_ & c1 & r1 & E & Hc1). eauto. }
    destruct Hnext as (c1 & r1 & Hs1 & Hc1).
    destruct (@value_start_inv _ Hc1) as (Hsp & _ & Hrb & _).
    rewrite (@lstrip_of_skip_ws _ _ _ Hs1 Hsp). cbn [startswith]. rewrite Hrb.
    rewrite <- Hs1. eapply IH; [exact H|].
    pose proof (drop_while_length json_ws r) as L1.
    pose proof (drop_while_length json_ws (slice_from (c0 :: r0) idx)) as L2.
    fold (skip_ws r) in L1. fold (skip_ws (slice_from (c0 :: r0) idx)) in L2.
    rewrite Hs in L2. unfold slice_from in L2. rewrite length_skipn in L2.
    cbn [List.length] in *. lia.
Qed.

Lemma load_of_stream file r :
  stream_json_data raw_decode file = Some r ->
  ending r = StopIteration ->
  load_json_data raw_decode file = Some (Loaded (yielded r)).
Proof. intros H E. unfold load_json_data. now rewrite H, E. Qed.

(** On a file that begins with the opening bracket the generator and the
    full parse agree: when the full-file parse of the file yields an
    array, the generator yields the same values in the same order and
    ends normally, and [load_json_data] returns that list. *)
Theorem streaming_equivalence (content : text) (items : list value) :
  startswith content LBRACKET = true ->
  json_load raw_decode content = LoadedArray items ->
  stream_json_data raw_decode (Some content)
    = Some (Streamed items StopIteration) /\
  load_json_data raw_decode (Some content) = Some (Loaded items).
Proof.
  intros Hfirst Hload.
  assert (Hs : stream_json_data raw_decode (Some content)
               = Some (Streamed items StopIteration)).
  { destruct content as [|c body]; [discriminate|].
    cbn [startswith] in Hfirst. apply N.eqb_eq in Hfirst. subst c.
    unfold json_load in Hload.
    change (skip_ws (LBRACKET :: body)) with (LBRACKET :: body) in Hload.
    change (LBRACKET =? LBRACKET) with true in Hload. cbv iota in Hload.
    unfold stream_json_data, stream_json_data_fuel.
    cbn [firstn find]. change (LBRACKET =? LBRACKET) with true. cbv iota.
    change (Z.to_nat (0 + 1)) with 1%nat. cbn [slice_from skipn].
    unfold JSONArray in Hload.
    destruct (skip_ws body) as [|d rest'] eqn:Hb; [discriminate|].
    destruct (N.eqb_spec d RBRACKET) as [->|Hd].
    - destruct (skip_ws rest'); [|discriminate]. injection Hload as <-.
      rewrite (@lstrip_of_skip_ws _ _ _ Hb) by reflexivity.
      cbn [stream_loop].
      destruct (proj2 contract (RBRACKET :: rest') eq_refl) as (msg & -> & ->).
      now rewrite strip_head.
    - destruct (JSONArray_items raw_decode (S (List.length body)) (d :: rest') [])
        as [its rest|] eqn:Hit; [|discriminate].
      destruct (skip_ws rest); [|discriminate]. injection Hload as ->.
      assert (Hst : value_start d = true).
      { cbn [JSONArray_items] in Hit.
        destruct (raw_decode (d :: rest')) eqn:Hd0; [|discriminate].
        destruct (@decoded_start _ _ _ Hd0) as (_ & c1 & r1 & E & Hc1).
        now injection E as -> _. }
      destruct (@value_start_inv _ Hst) as (Hsp & _).
      rewrite (@lstrip_of_skip_ws _ _ _ Hb Hsp).
      eapply stream_loop_items; [exact Hit|].
      pose proof (drop_while_length json_ws body) as L.
      fold (skip_ws body) in L. rewrite Hb in L. cbn [List.length] in *. lia. }
  split; [exact Hs|].
  now rewrite (load_of_stream _ Hs).
Qed.

(** C4.  Streaming equivalence fails on every valid array file that
    begins with a whitespace character: the full-file parse skips the
    whitespace and gives the array, while [stream_json_data] reads the
    first character, finds it is not the opening bracket and raises
    [ValueError] before yielding anything, so [load_json_data] raises
    too instead of returning the list. *)
Theorem stream_refuses_array_after_whitespace (c : char) (content : text)
    (items : list value) :
  json_ws c = true ->
  json_load raw_decode content = LoadedArray items ->
  json_load raw_decode (c :: content) = LoadedArray items /\
  stream_json_data raw_decode (Some (c :: content))
    = Some (Streamed [] ValueError) /\
  load_json_data raw_decode (Some (c :: content))
    = Some (LoadRaised value ValueError) /\
  stream_json_data raw_decode (Some (c :: content))
    <> Some (Streamed items StopIteration).
Proof.
  intros Hc Hload.
  assert (Hnb : (c =? LBRACKET) = false).
  { unfold json_ws in Hc. apply N.eqb_neq. intros ->. discriminate Hc. }
  assert (Hs : stream_json_data raw_decode (Some (c :: content))
               = Some (Streamed [] ValueError)).
  { unfold stream_json_data, stream_json_data_fuel. cbn [firstn].
    now rewrite Hnb. }
  split; [|split; [exact Hs|split]].
  - unfold json_load in *. unfold skip_ws in *. cbn [drop_while].
    now rewrite Hc.
  - unfold load_json_data. now rewrite Hs.
  - rewrite Hs. discriminate.
Qed.

End ReaderFacts.

(** ** The small scanner keeps the contract *)

Section MiniJsonFacts.

Import Text Json MiniJson.
Local Open Scope N_scope.

Lemma skip_ws_length s : (List.length (skip_ws s) <= List.length s)%nat.
Proof. apply drop_while_length. Qed.

Lemma scan_digits_length s : forall acc,
  (List.length (snd (scan_digits acc s)) <= List.length s)%nat.
Proof.
  induction s as [|c s IH]; intros acc; cbn [scan_digits]; [cbn; lia|].
  destruct (is_digit c); cbn [snd List.length]; [|lia].
  specialize (IH (acc * 10 + (c - 48))). lia.
Qed.

Lemma scan_natural_length s n rest :
  scan_natural s = Some (n, rest) -> (List.length rest < List.length s)%nat.
Proof.
  destruct s as [|c r]; cbn [scan_natural]; [discriminate|].
  destruct (c =? 48).
  - intros [= <- <-]. cbn; lia.
  - destruct (is_digit c) eqn:E; [|discriminate].
    cbn [scan_digits]. rewrite E. intros H.
    pose proof (scan_digits_length r (0 * 10 + (c - 48))) as L.
    destruct (scan_digits (0 * 10 + (c - 48)) r) as [n' rest'].
    injection H as <- <-. cbn [snd List.length] in *. lia.
Qed.

Lemma scan_number_length s v rest :
  scan_number s = Scanned v rest -> (List.length rest < List.length s)%nat.
Proof.
  unfold scan_number. destruct s as [|c r]; [discriminate|].
  destruct (c =? 45).
  - destruct (scan_natural r) as [[n rest']|] eqn:E; [|discriminate].
    destruct (_ || _); [discriminate|]. intros [= <- <-].
    apply scan_natural_length in E. cbn [List.length]. lia.
  - destruct (scan_natural (c :: r)) as [[n rest']|] eqn:E; [|discriminate].
    destruct (_ || _); [discriminate|]. intros [= <- <-].
    now apply scan_natural_length in E.
Qed.

Lemma scan_chars_length s : forall body rest,
  scan_chars s = Some (body, rest) -> (List.length rest < List.length s)%nat.
Proof.
  induction s as [|c s IH]; intros body rest; cbn [scan_chars]; [discriminate|].
  destruct (c =? 34).
  - intros [= <- <-]. cbn; lia.
  - destruct (_ || _); [discriminate|].
    destruct (scan_chars s) as [[b r]|]; [|discriminate].
    intros [= <- <-]. specialize (IH b r eq_refl). cbn [List.length]. lia.
Qed.

Lemma strip_prefix_length p : forall s rest,
  strip_prefix p s = Some rest ->
  List.length s = (List.length p + List.length rest)%nat.
Proof.
  induction p as [|a p IH]; intros s rest; cbn [strip_prefix].
  - now intros [= ->].
  - destruct s as [|b s]; [discriminate|].
    destruct (a =? b); [|discriminate]. intros H.
    apply IH in H. cbn [List.length]. lia.
Qed.

Lemma scan_progress fuel :
  (forall s v rest, scan_once fuel s = Scanned v rest ->
     (List.length rest < List.length s)%nat) /\
  (forall s acc v rest, scan_items fuel s acc = Scanned v rest ->
     (List.length rest < List.length s)%nat) /\
  (forall s acc v rest, scan_members fuel s acc = Scanned v rest ->
     (List.length rest < List.length s)%nat).
Proof.
  induction fuel as [|fuel (IH1 & IH2 & IH3)].
  - repeat split; intros; discriminate.
  - repeat split.
    + intros s v rest. cbn [scan_once].
      destruct s as [|c r]; [discriminate|].
      destruct (c =? 34).
      { destruct (scan_chars r) as [[b r']|] eqn:E; [|discriminate].
        intros [= <- <-]. apply scan_chars_length in E. cbn [List.length]. lia. }
      destruct (c =? 123).
      { pose proof (skip_ws_length r) as L.
        destruct (skip_ws r) as [|d r1]; [discriminate|].
        destruct (d =? 125).
        - intros [= <- <-]. cbn [List.length] in *. lia.
        - intros H. apply IH3 in H. cbn [List.length] in *. lia. }
      destruct (c =? 91).
      { pose proof (skip_ws_length r) as L.
        destruct (skip_ws r) as [|d r1]; [discriminate|].
        destruct (d =? 93).
        - intros [= <- <-]. cbn [List.length] in *. lia.
        - intros H. apply IH2 in H. cbn [List.length] in *. lia. }
      destruct (_ || _).
      { apply scan_number_length. }
      destruct (strip_prefix (of_string "null") (c :: r)) as [r1|] eqn:E1.
      { intros [= <- <-]. apply strip_prefix_length in E1.
        rewrite E1. cbn. lia. }
      destruct (strip_prefix (of_string "true") (c :: r)) as [r2|] eqn:E2.
      { intros [= <- <-]. apply strip_prefix_length in E2.
        rewrite E2. cbn. lia. }
      destruct (strip_prefix (of_string "false") (c :: r)) as [r3|] eqn:E3;
        [|discriminate].
      intros [= <- <-]. apply strip_prefix_length in E3. rewrite E3. cbn. lia.
    + intros s acc v rest. cbn [scan_items].
      destruct (scan_once fuel s) as [v1 rest1|] eqn:E; [|discriminate].
      apply IH1 in E. pose proof (skip_ws_length rest1) as L.
      destruct (skip_ws rest1) as [|c r]; [discriminate|].
      destruct (c =? 93).
      * intros [= <- <-]. cbn [List.length] in *. lia.
      * destruct (c =? 44); [|discriminate]. intros H. apply IH2 in H.
        pose proof (skip_ws_length r). cbn [List.length] in *. lia.
    + intros s acc v rest. cbn [scan_members].
      destruct s as [|c r]; [discriminate|].
      destruct (c =? 34); [|discriminate].
      destruct (scan_chars r) as [[name rest0]|] eqn:E0; [|discriminate].
      apply scan_chars_length in E0. pose proof (skip_ws_length rest0) as L0.
      destruct (skip_ws rest0) as [|d r1]; [discriminate|].
      destruct (d =? 58); [|discriminate].
      destruct (scan_once fuel (skip_ws r1)) as [v1 rest1|] eqn:E1; [|discriminate].
      apply IH1 in E1. pose proof (skip_ws_length r1) as L1.
      pose proof (skip_ws_length rest1) as L2.
      destruct (skip_ws rest1) as [|e r2]; [discriminate|].
      destruct (e =? 125).
      * intros [= <- <-]. cbn [List.length] in *. lia.
      * destruct (e =? 44); [|discriminate]. intros H. apply IH3 in H.
        pose proof (skip_ws_length r2). cbn [List.length] in *. lia.
Qed.

Lemma is_digit_value_start c : is_digit c = true -> value_start c = true.
Proof.
  unfold is_digit. intros H. apply andb_prop in H. destruct H as [H1 H2].
  apply N.leb_le in H1, H2.
  assert (E : c = 48 \/ c = 49 \/ c = 50 \/ c = 51 \/ c = 52 \/ c = 53 \/
              c = 54 \/ c = 55 \/ c = 56 \/ c = 57) by lia.
  repeat (destruct E as [->|E]; [reflexivity|]). now subst.
Qed.

Lemma scan_once_start fuel c r v rest :
  scan_once fuel (c :: r) = Scanned v rest -> value_start c = true.
Proof.
  destruct fuel as [|fuel]; [discriminate|]. cbn [scan_once].
  destruct (N.eqb_spec c 34) as [->|_]; [reflexivity|].
  destruct (N.eqb_spec c 123) as [->|_]; [reflexivity|].
  destruct (N.eqb_spec c 91) as [->|_]; [reflexivity|].
  destruct (N.eqb_spec c 45) as [->|_]; [reflexivity|].
  cbn [orb]. destruct (is_digit c) eqn:Ed.
  { intros _. now apply is_digit_value_start. }
  change (of_string "null") with [110; 117; 108; 108].
  change (of_string "true") with [116; 114; 117; 101].
  change (of_string "false") with [102; 97; 108; 115; 101].
  cbn [strip_prefix].
  destruct (N.eqb_spec 110 c) as [<-|_]; [reflexivity|].
  destruct (N.eqb_spec 116 c) as [<-|_]; [reflexivity|].
  destruct (N.eqb_spec 102 c) as [<-|_]; [reflexivity|].
  discriminate.
Qed.

Lemma scan_once_refuses fuel c r :
  value_start c = false ->
  scan_once (S fuel) (c :: r) = ScanError "Expecting value".
Proof.
  intros H. cbn [scan_once].
  assert (Hx : forall x, In x value_start_chars -> (c =? x) = false).
  { intros x Hin. destruct (c =? x) eqn:E; [|reflexivity].
    assert (value_start c = true); [|congruence].
    apply existsb_exists. eauto. }
  rewrite (Hx 34), (Hx 123), (Hx 91), (Hx 45) by (cbn; tauto).
  assert (Hd : is_digit c = false).
  { destruct (is_digit c) eqn:E; [|reflexivity].
    apply is_digit_value_start in E. congruence. }
  rewrite Hd. cbn [orb].
  change (of_string "null") with [110; 117; 108; 108].
  change (of_string "true") with [116; 114; 117; 101].
  change (of_string "false") with [102; 97; 108; 115; 101].
  cbn [strip_prefix].
  rewrite (N.eqb_sym 110), (N.eqb_sym 116), (N.eqb_sym 102).
  rewrite (Hx 110), (Hx 116), (Hx 102) by (cbn; tauto).
  reflexivity.
Qed.

Lemma mini_scanner_contract : scanner_contract raw_decode.
Proof.
  split.
  - intros s obj idx. unfold raw_decode.
    destruct (scan_once (S (List.length s)) s) as [v rest|] eqn:E; [|discriminate].
    intros [= <- <-].
    pose proof (proj1 (scan_progress _) _ _ _ E) as L.
    split; [lia|].
    destruct s as [|c r]; [cbn [List.length] in L; lia|].
    exists c, r. split; [reflexivity|]. eapply scan_once_start, E.
  - intros s Hs. exists "Expecting value"%string. split; [|reflexivity].
    unfold raw_decode. destruct s as [|c r]; [reflexivity|].
    now rewrite scan_once_refuses.
Qed.

Lemma mini_dumps_contract : dumps_contract raw_decode dumps to_value.
Proof.
  intros e rest. unfold raw_decode.
  assert (E : scan_once (S (List.length (dumps e ++ rest))) (dumps e ++ rest)
              = Scanned (to_value e) rest).
  { destruct e; reflexivity. }
  rewrite E. f_equal. rewrite length_app. lia.
Qed.

End MiniJsonFacts.

(** ** Append-only writer *)

Section WriterFacts.

Import Text Json.
Local Open Scope N_scope.

Variable value : Type.
Variable raw_decode : text -> decoded value.
Variable entry : Type.
Variable dumps : entry -> text.
Variable to_value : entry -> value.

Hypothesis contract : scanner_contract raw_decode.
Hypothesis roundtrip : dumps_contract raw_decode dumps to_value.

Lemma dumps_start e :
  exists c r, dumps e = c :: r /\ value_start c = true.
Proof.
  pose proof (roundtrip e []) as H. rewrite app_nil_r in H.
  destruct (proj1 contract _ _ _ H) as (_ & c & r & E & Hc). eauto.
Qed.

(** [write_to_json] on a file with content, by what it reads there. *)
Lemma write_to_json_nonempty e content pos last first ch :
  content <> [] ->
  (List.length content - 1)%nat = pos ->
  nth_error content pos = Some last ->
  nth_error content 0 = Some first ->
  nth_error content (pos - 1) = Some ch ->
  write_to_json dumps e (Some content)
  = if negb (last =? RBRACKET) then WriteValueError
    else if negb (first =? LBRACKET) then WriteValueError
    else Written (firstn pos content
                  ++ (if negb (ch =? LBRACKET) then [COMMA; NEWLINE] else [NEWLINE])
                  ++ dumps e ++ [NEWLINE; RBRACKET]).
Proof.
  intros Hne Hpos Hlast Hfirst Hch.
  destruct content as [|c0 content0]; [contradiction|].
  unfold write_to_json. rewrite Hpos, Hlast, Hfirst, Hch. reflexivity.
Qed.

(** The byte surgery on a file that ends in a character and the closing
    bracket. *)
Lemma write_to_json_surgery e first pre ch :
  write_to_json dumps e (Some ((first :: pre) ++ [ch; RBRACKET]))
  = if first =? LBRACKET then
      Written ((first :: pre) ++ [ch]
               ++ (if negb (ch =? LBRACKET) then [COMMA; NEWLINE] else [NEWLINE])
               ++ dumps e ++ [NEWLINE; RBRACKET])
    else WriteValueError.
Proof.
  remember (first :: pre) as p eqn:Hp.
  assert (Hlen : List.length (p ++ [ch; RBRACKET]) = S (S (List.length p)))
    by (rewrite length_app; cbn [List.length]; lia).
  assert (Hrb : nth_error (p ++ [ch; RBRACKET]) (S (List.length p)) = Some RBRACKET).
  { rewrite nth_error_app2 by lia.
    replace (S (List.length p) - List.length p)%nat with 1%nat by lia.
    reflexivity. }
  assert (Hch : nth_error (p ++ [ch; RBRACKET]) (S (List.length p) - 1) = Some ch).
  { replace (S (List.length p) - 1)%nat with (List.length p) by lia.
    rewrite nth_error_app2 by lia. rewrite Nat.sub_diag. reflexivity. }
  assert (Hfirst : nth_error (p ++ [ch; RBRACKET]) 0 = Some first)
    by (subst p; reflexivity).
  assert (Hcut : firstn (S (List.length p)) (p ++ [ch; RBRACKET]) = p ++ [ch]).
  { change [ch; RBRACKET] with ([ch] ++ [RBRACKET]). rewrite app_assoc.
    replace (S (List.length p)) with (List.length (p ++ [ch]) + 0)%nat
      by (rewrite length_app; cbn [List.length]; lia).
    rewrite firstn_app_2. cbn [firstn]. now rewrite app_nil_r. }
  rewrite (@write_to_json_nonempty e _ (S (List.length p)) RBRACKET first ch);
    try assumption.
  - change (RBRACKET =? RBRACKET) with true. cbn [negb].
    destruct (first =? LBRACKET); cbn [negb]; [|reflexivity].
    rewrite Hcut. f_equal. rewrite <- !app_assoc. reflexivity.
  - intros E. rewrite E in Hlen. discriminate.
  - lia.
Qed.

Lemma write_to_json_fresh e file :
  file = None \/ file = Some [] ->
  write_to_json dumps e file = Written (array_text [dumps e]).
Proof. intros [->| ->]; reflexivity. Qed.

Lemma array_body_snoc items x :
  items <> [] ->
  array_body (items ++ [x]) = array_body items ++ [NEWLINE; COMMA; NEWLINE] ++ x.
Proof.
  induction items as [|a items IH]; [contradiction|]. intros _.
  destruct items as [|b items].
  - reflexivity.
  - change ((a :: b :: items) ++ [x]) with (a :: ((b :: items) ++ [x])).
    cbn [array_body app]. cbn [array_body app] in IH.
    rewrite IH by discriminate.
    rewrite <- !app_assoc. reflexivity.
Qed.

Lemma write_to_json_append e items :
  items <> [] ->
  write_to_json dumps e (Some (array_text items))
  = Written (array_text (items ++ [dumps e])).
Proof.
  intros Hne. unfold array_text.
  change ([LBRACKET; NEWLINE] ++ array_body items ++ [NEWLINE; RBRACKET])
    with ((LBRACKET :: (NEWLINE :: array_body items)) ++ [NEWLINE; RBRACKET]).
  replace ((LBRACKET :: (NEWLINE :: array_body items)) ++ [NEWLINE; RBRACKET])
    with ((LBRACKET :: NEWLINE :: array_body items) ++ [NEWLINE; RBRACKET])
    by reflexivity.
  rewrite write_to_json_surgery.
  change (LBRACKET =? LBRACKET) with true. change (NEWLINE =? LBRACKET) with false.
  cbn [negb]. f_equal. rewrite array_body_snoc by assumption.
  cbn [app]. rewrite <- !app_assoc. reflexivity.
Qed.

Lemma write_all_from_array entries : forall done,
  done <> [] ->
  write_all dumps entries (Some (array_text (map dumps done)))
  = Some (Some (array_text (map dumps (done ++ entries)))).
Proof.
  induction entries as [|e entries IH]; intros done Hne; cbn [write_all].
  - now rewrite app_nil_r.
  - rewrite write_to_json_append by (destruct done; [contradiction|discriminate]).
    replace (map dumps done ++ [dumps e]) with (map dumps (done ++ [e]))
      by (rewrite map_app; reflexivity).
    rewrite IH by (destruct done; discriminate).
    rewrite <- app_assoc. reflexivity.
Qed.

Lemma write_all_fresh e entries start :
  start = None \/ start = Some [] ->
  write_all dumps (e :: entries) start
  = Some (Some (array_text (map dumps (e :: entries)))).
Proof.
  intros Hs. cbn [write_all]. rewrite (write_to_json_fresh e Hs).
  change [dumps e] with (map dumps [e]).
  now rewrite write_all_from_array by discriminate.
Qed.

Lemma skip_ws_value c r : value_start c = true -> skip_ws (c :: r) = c :: r.
Proof.
  intros H. destruct (@value_start_inv _ H) as (_ & Hws & _).
  now apply drop_while_head.
Qed.

Lemma array_body_start e es rest :
  exists c r, array_body (map dumps (e :: es)) ++ rest = c :: r
              /\ value_start c = true.
Proof.
  destruct (dumps_start e) as (c & r & E & Hc).
  cbn [map array_body]. destruct (map dumps es); rewrite E; cbn [app]; eauto.
Qed.

(** The element loop of the full parse on the text the writer lays
    out. *)
Lemma JSONArray_items_array es : forall e acc fuel,
  (List.length es < fuel)%nat ->
  JSONArray_items raw_decode fuel
    (array_body (map dumps (e :: es)) ++ [NEWLINE; RBRACKET]) acc
  = ArrayEnd (acc ++ map to_value (e :: es)) [].
Proof.
  induction es as [|e2 es IH]; intros e acc fuel Hf;
    (destruct fuel as [|fuel]; [cbn [List.length] in Hf; lia|]).
  - cbn [map array_body JSONArray_items]. rewrite roundtrip.
    unfold slice_from. rewrite skipn_app, skipn_all, Nat.sub_diag.
    reflexivity.
  - change (array_body (map dumps (e :: e2 :: es)) ++ [NEWLINE; RBRACKET])
      with ((dumps e ++ [NEWLINE; COMMA; NEWLINE]
             ++ array_body (map dumps (e2 :: es))) ++ [NEWLINE; RBRACKET]).
    rewrite <- app_assoc. cbn [JSONArray_items]. rewrite roundtrip.
    unfold slice_from. rewrite skipn_app, skipn_all, Nat.sub_diag.
    cbn [skipn app].
    change (skip_ws (NEWLINE :: COMMA :: NEWLINE ::
                     array_body (map dumps (e2 :: es)) ++ [NEWLINE; RBRACKET]))
      with (COMMA :: NEWLINE ::
            array_body (map dumps (e2 :: es)) ++ [NEWLINE; RBRACKET]).
    change (COMMA =? RBRACKET) with false. change (COMMA =? COMMA) with true.
    cbv iota.
    destruct (array_body_start e2 es [NEWLINE; RBRACKET]) as (c & r & E & Hc).
    change (skip_ws (NEWLINE :: array_body (map dumps (e2 :: es))
                     ++ [NEWLINE; RBRACKET]))
      with (skip_ws (array_body (map dumps (e2 :: es)) ++ [NEWLINE; RBRACKET])).
    rewrite E, (@skip_ws_value _ _ Hc), <- E.
    rewrite IH by (cbn [List.length] in Hf; lia).
    rewrite <- app_assoc. reflexivity.
Qed.

Lemma array_body_length items :
  Forall (fun t => t <> []) items ->
  (List.length items <= List.length (array_body items))%nat.
Proof.
  induction 1 as [|t items Ht _ IH]; [cbn; lia|].
  cbn [array_body]. destruct items as [|u items].
  - destruct t; [contradiction|]. cbn; lia.
  - rewrite !length_app. cbn [List.length] in *. lia.
Qed.

Lemma json_load_array e es :
  json_load raw_decode (array_text (map dumps (e :: es)))
  = LoadedArray (map to_value (e :: es)).
Proof.
  unfold array_text, json_load. cbn [app].
  change (skip_ws (LBRACKET :: NEWLINE :: array_body (map dumps (e :: es))
                   ++ [NEWLINE; RBRACKET]))
    with (LBRACKET :: NEWLINE :: array_body (map dumps (e :: es))
          ++ [NEWLINE; RBRACKET]).
  change (LBRACKET =? LBRACKET) with true. cbv iota.
  unfold JSONArray.
  change (skip_ws (NEWLINE :: array_body (map dumps (e :: es))
                   ++ [NEWLINE; RBRACKET]))
    with (skip_ws (array_body (map dumps (e :: es)) ++ [NEWLINE; RBRACKET])).
  destruct (array_body_start e es [NEWLINE; RBRACKET]) as (c & r & E & Hc).
  rewrite E, (@skip_ws_value _ _ Hc).
  destruct (@value_start_inv _ Hc) as (_ & _ & Hrb & _). rewrite Hrb, <- E.
  rewrite JSONArray_items_array; [reflexivity|].
  cbn [List.length]. rewrite length_app.
  assert (L : (List.length (map dumps (e :: es))
               <= List.length (array_body (map dumps (e :: es))))%nat).
  { apply array_body_length. apply Forall_forall. intros t Ht.
    apply in_map_iff in Ht. destruct Ht as (x & <- & _).
    destruct (dumps_start x) as (c1 & r1 & -> & _). discriminate. }
  rewrite length_map in L. cbn [List.length] in *. lia.
Qed.

(** C3.  Writer validity: starting from a target that is absent or
    empty, after [entries] and then [e] have been appended the file is
    the array layout of the rendered records, it parses as a JSON array
    whose elements are those of the first appends in order followed by
    the new record, and the array has as many elements as there were
    appends. *)
Theorem writer_validity (entries : list entry) (e : entry)
    (start : option text) :
  start = None \/ start = Some [] ->
  exists content items,
    write_all dumps (entries ++ [e]) start = Some (Some content) /\
    content = array_text (map dumps (entries ++ [e])) /\
    json_load raw_decode content = LoadedArray items /\
    items = map to_value entries ++ [to_value e] /\
    List.length items = S (List.length entries).
Proof.
  intros Hs. exists (array_text (map dumps (entries ++ [e]))).
  exists (map to_value entries ++ [to_value e]).
  assert (Hne : exists x xs, entries ++ [e] = x :: xs).
  { destruct entries; cbn [app]; eauto. }
  destruct Hne as (x & xs & E).
  split; [|split; [reflexivity|split; [|split; [reflexivity|]]]].
  - rewrite E. now apply write_all_fresh.
  - rewrite E, json_load_array, <- E, map_app. reflexivity.
  - rewrite length_app, length_map. cbn [List.length]. lia.
Qed.

(** The state before an append is the state the earlier appends left. *)
Lemma write_all_snoc entries e start :
  write_all dumps (entries ++ [e]) start
  = match write_all dumps entries start with
    | Some file =>
        match write_to_json dumps e file with
        | Written content => Some (Some content)
        | WriteValueError => None
        end
    | None => None
    end.
Proof.
  revert start. induction entries as [|x entries IH]; intros start; cbn [app write_all].
  - destruct (write_to_json dumps e start); reflexivity.
  - destruct (write_to_json dumps x start); [apply IH|reflexivity].
Qed.

(** C10.  Append after clearing: on the cleared form that
    [find_resume_point] leaves, [write_to_json] sees a character other
    than the opening bracket before the closing one, takes the array for
    non-empty and writes a comma first; the file then does not parse. *)
Theorem append_after_clearing (e : entry) :
  (forall stale n,
     stale <> [] ->
     snd (Resume.find_resume_point true n true None (Some stale)) = Some cleared) /\
  write_to_json dumps e (Some cleared)
  = Written ([LBRACKET; NEWLINE; COMMA; NEWLINE] ++ dumps e ++ [NEWLINE; RBRACKET]) /\
  json_load raw_decode
    ([LBRACKET; NEWLINE; COMMA; NEWLINE] ++ dumps e ++ [NEWLINE; RBRACKET])
  = LoadError value.
Proof.
  split; [|split].
  - intros [|c r] n H; [contradiction|reflexivity].
  - reflexivity.
  - unfold json_load. cbn [app].
    change (skip_ws (LBRACKET :: NEWLINE :: COMMA :: NEWLINE :: dumps e
                     ++ [NEWLINE; RBRACKET]))
      with (LBRACKET :: NEWLINE :: COMMA :: NEWLINE :: dumps e
            ++ [NEWLINE; RBRACKET]).
    change (LBRACKET =? LBRACKET) with true. cbv iota. unfold JSONArray.
    change (skip_ws (NEWLINE :: COMMA :: NEWLINE :: dumps e ++ [NEWLINE; RBRACKET]))
      with (COMMA :: NEWLINE :: dumps e ++ [NEWLINE; RBRACKET]).
    change (COMMA =? RBRACKET) with false. cbv iota.
    cbn [JSONArray_items].
    destruct (raw_decode (COMMA :: NEWLINE :: dumps e ++ [NEWLINE; RBRACKET]))
      as [v idx|msg] eqn:Hd; [|reflexivity].
    destruct (proj1 contract _ _ _ Hd) as (_ & c & r & E & Hc).
    injection E as <- _. discriminate.
Qed.

End WriterFacts.

(** ** The reader and the writer on the small scanner *)

Section CodecExamples.

Import Text Json MiniJson.
Local Open Scope N_scope.

Lemma stream_refuses_array_after_whitespace_witness :
  json_load raw_decode (of_string " [1]") = LoadedArray [JNumber 1] /\
  stream_json_data raw_decode (Some (of_string " [1]"))
    = Some (Streamed [] ValueError) /\
  load_json_data raw_decode (Some (of_string " [1]"))
    = Some (LoadRaised json ValueError) /\
  stream_json_data raw_decode (Some (of_string " [1]"))
    <> Some (Streamed [JNumber 1] StopIteration).
Proof.
  apply (@stream_refuses_array_after_whitespace json raw_decode 32
           (of_string "[1]") [JNumber 1]); reflexivity.
Defined.

Lemma streaming_equivalence_witness :
  startswith sample_file LBRACKET = true /\
  json_load raw_decode sample_file
    = LoadedArray [JNumber 1; JArray [JBool true];
                   JObject [(of_string "k", JNull)]] /\
  stream_json_data raw_decode (Some sample_file)
    = Some (Streamed [JNumber 1; JArray [JBool true];
                      JObject [(of_string "k", JNull)]] StopIteration) /\
  load_json_data raw_decode (Some sample_file)
    = Some (Loaded [JNumber 1; JArray [JBool true];
                    JObject [(of_string "k", JNull)]]).
Proof.
  split; [reflexivity|]. split; [reflexivity|].
  apply (@streaming_equivalence json raw_decode mini_scanner_contract
           sample_file); reflexivity.
Defined.

Lemma writer_validity_witness :
  exists content items,
    write_all dumps ([true; false] ++ [true]) None = Some (Some content) /\
    content = array_text (map dumps ([true; false] ++ [true])) /\
    json_load raw_decode content = LoadedArray items /\
    items = map to_value [true; false] ++ [to_value true] /\
    List.length items = 3%nat.
Proof.
  apply (@writer_validity json raw_decode flag_entry dumps to_value
           mini_scanner_contract mini_dumps_contract [true; false] true None).
  left. reflexivity.
Defined.

Lemma append_after_clearing_witness :
  (forall stale n,
     stale <> [] ->
     snd (Resume.find_resume_point true n true None (Some stale)) = Some cleared) /\
  write_to_json dumps true (Some cleared)
  = Written ([LBRACKET; NEWLINE; COMMA; NEWLINE] ++ dumps true
             ++ [NEWLINE; RBRACKET]) /\
  json_load raw_decode
    ([LBRACKET; NEWLINE; COMMA; NEWLINE] ++ dumps true ++ [NEWLINE; RBRACKET])
  = LoadError json.
Proof.
  apply (@append_after_clearing json raw_decode flag_entry dumps
           mini_scanner_contract true).
Defined.

End CodecExamples.

(** ** Batch driver *)

Section DriverFacts.

Import Text Json Resume Driver.
Local Open Scope Z_scope.

Variable dumps : out_entry -> text.
Variable ns_to_seconds : Q -> Q.
Variable call_ollama_chat : nat -> entry -> llm_outcome.
Variable retry_file : key -> option Z.
Variable max_retries : Z.

Local Abbreviation attempt_of := (_process_entry_attempt dumps ns_to_seconds
                          call_ollama_chat retry_file max_retries).
Local Abbreviation handle_of := (_handle_entry_error dumps max_retries).
Local Abbreviation loop_of := (retry_loop dumps ns_to_seconds call_ollama_chat
                       retry_file max_retries).
Local Abbreviation entry_of := (_process_entry dumps ns_to_seconds call_ollama_chat
                        retry_file max_retries).
Local Abbreviation entries_of := (process_entries dumps ns_to_seconds call_ollama_chat
                          retry_file max_retries).

Lemma write_holds items o file :
  file_holds items file ->
  write_to_json dumps o file = Written (array_text (items ++ [dumps o])).
Proof.
  destruct items as [|t items]; cbn [file_holds].
  - intros H. now apply write_to_json_fresh.
  - intros ->. now apply write_to_json_append.
Qed.

Lemma file_holds_snoc items t :
  file_holds (items ++ [t]) (Some (array_text (items ++ [t]))).
Proof. destruct items; reflexivity. Qed.

Lemma sentinel_is_empty e :
  out_key (sentinel e) = entry_ids e /\
  response (sentinel e) = ""%string /\
  total_duration (sentinel e) = 0%Q /\ load_duration (sentinel e) = 0%Q /\
  prompt_eval_count (sentinel e) = 0%Q /\
  prompt_eval_duration (sentinel e) = 0%Q /\
  eval_count (sentinel e) = 0%Q /\ eval_duration (sentinel e) = 0%Q.
Proof.
  unfold sentinel, out_key. destruct (entry_ids e) as [[a b] c].
  repeat split.
Qed.

Lemma answered_key e r : out_key (answered ns_to_seconds e r) = entry_ids e.
Proof.
  unfold answered, out_key. now destruct (entry_ids e) as [[a b] c].
Qed.

(** One attempt whose chat call raises: nothing but the call history
    changes. *)
Lemma attempt_raises w e idx total msg :
  retry_file (entry_ids e) = None ->
  call_ollama_chat (List.length (llm_calls w)) e = LlmRaises msg ->
  attempt_of w e idx total = AttemptRaised (log_call w e) msg.
Proof.
  intros Hr Hc. unfold _process_entry_attempt, interact_with_llm.
  now rewrite Hr, Hc.
Qed.

Lemma save_resume_point_nonzero e i t file :
  t <> 0 ->
  save_resume_point e i t [] file
  = Saved (Some {| last_processed := Some (get e "id", get e "sub_id", get e "code_id");
                   index := Some i; total := Some t;
                   completed := Some (t <=? i);
                   failed_entries := Some (get_failed_entries file) |}).
Proof.
  intros Ht. unfold save_resume_point, get_failed_entries, get_resume_data.
  destruct (Z.eqb_spec t 0) as [E|_]; [contradiction|]. reflexivity.
Qed.

(** One attempt whose chat call answers. *)
Lemma attempt_answers w e idx total r items :
  retry_file (entry_ids e) = None ->
  call_ollama_chat (List.length (llm_calls w)) e = LlmReturns r ->
  file_holds items (result_file w) ->
  total <> 0 ->
  attempt_of w e idx total = AttemptOk (after_answer dumps ns_to_seconds w e idx total items r).
Proof.
  intros Hr Hc Hf Ht. unfold _process_entry_attempt, interact_with_llm.
  rewrite Hr, Hc. cbn [log_call result_file].
  rewrite (@write_holds items _ _ Hf). cbn [set_result resume result_file llm_calls].
  rewrite save_resume_point_nonzero by assumption. reflexivity.
Qed.

Lemma process_entry_answers w e idx total r items :
  0 <= max_retries ->
  retry_file (entry_ids e) = None ->
  call_ollama_chat (List.length (llm_calls w)) e = LlmReturns r ->
  file_holds items (result_file w) ->
  total <> 0 ->
  entry_of w e idx total
  = Some (EntryDone (after_answer dumps ns_to_seconds w e idx total items r) true 1).
Proof.
  intros Hm Hr Hc Hf Ht. unfold _process_entry. cbn [retry_loop].
  destruct (Z.leb_spec 0 max_retries); [|lia].
  now rewrite (@attempt_answers w e idx total r items).
Qed.

(** The handler below the limit only touches the ledger; at the limit it
    also appends the sentinel record. *)
Lemma handle_below w e msg rc :
  rc < max_retries ->
  handle_of w e msg rc
  = Handled (set_resume w (add_failed_entry e (Some msg) (resume w))).
Proof.
  intros H. unfold _handle_entry_error.
  destruct (Z.leb_spec max_retries rc); [lia|reflexivity].
Qed.

Lemma handle_at_limit w e msg rc items :
  max_retries <= rc ->
  file_holds items (result_file w) ->
  handle_of w e msg rc
  = Handled {| result_file := Some (array_text (items ++ [dumps (sentinel e)]));
               resume := add_failed_entry e (Some msg) (resume w);
               llm_calls := llm_calls w |}.
Proof.
  intros H Hf. unfold _handle_entry_error.
  destruct (Z.leb_spec max_retries rc); [|lia].
  cbn [set_resume result_file]. now rewrite (@write_holds items _ _ Hf).
Qed.

(** A record whose chat call always raises: the loop makes one attempt
    per permitted failure, then the sentinel is appended once. *)
Lemma retry_loop_always_fails e idx total items :
  retry_file (entry_ids e) = None ->
  (forall n, exists msg, call_ollama_chat n e = LlmRaises msg) ->
  forall k fuel w rc attempts,
    Z.to_nat (max_retries - rc - 1) = k ->
    rc <= max_retries ->
    (k < fuel)%nat ->
    file_holds items (result_file w) ->
    exists w',
      loop_of fuel w e idx total rc attempts
        = Some (EntryDone w' true (attempts + S k)) /\
      result_file w' = Some (array_text (items ++ [dumps (sentinel e)])) /\
      llm_calls w' = llm_calls w ++ repeat (entry_ids e) (S k).
Proof.
  intros Hr Hc. induction k as [|k IH]; intros fuel w rc attempts Hk Hrc Hfuel Hf;
    (destruct fuel as [|fuel]; [lia|]); cbn [retry_loop];
    (destruct (Z.leb_spec rc max_retries); [|lia]);
    destruct (Hc (List.length (llm_calls w))) as [msg Hmsg];
    rewrite (@attempt_raises w e idx total msg Hr Hmsg).
  - rewrite (@handle_at_limit (log_call w e) e msg (rc + 1) items) by (cbn [log_call result_file]; (lia || assumption)).
    destruct (Z.leb_spec max_retries (rc + 1)); [|lia].
    replace (attempts + 1)%nat with (S attempts) by lia.
    eexists. split; [reflexivity|]. split; reflexivity.
  - rewrite handle_below by lia.
    destruct (Z.leb_spec max_retries (rc + 1)); [lia|].
    destruct (IH fuel (set_resume (log_call w e)
                         (add_failed_entry e (Some msg) (resume (log_call w e))))
                 (rc + 1) (S attempts)) as (w' & Hl & Hres & Hcalls);
      try (lia || assumption).
    exists w'. split; [|split].
    + rewrite Hl. do 2 f_equal. lia.
    + exact Hres.
    + rewrite Hcalls. cbn [set_resume log_call llm_calls repeat].
      rewrite <- app_assoc. reflexivity.
Qed.

(** The retry bound on a result file that is absent, empty or in the
    writer's layout: a record whose chat call always raises is attempted
    at most [max_retries + 1] times (three times for [max_retries = 3]),
    each attempt being one chat call; then exactly one record is appended
    to the output for it, the sentinel with an empty response and every
    number at 0, and the loop over the records goes on with the next
    one. *)
Theorem retry_bound (w : world) (e : entry) (idx total start : Z)
    (items : list text) (rest : list entry) :
  0 <= max_retries ->
  retry_file (entry_ids e) = None ->
  (forall n, exists msg, call_ollama_chat n e = LlmRaises msg) ->
  file_holds items (result_file w) ->
  start <= idx ->
  exists w' attempts,
    entry_of w e idx total = Some (EntryDone w' true attempts) /\
    (1 <= attempts)%nat /\ Z.of_nat attempts <= max_retries + 1 /\
    (max_retries = 3 -> attempts = 3%nat) /\
    llm_calls w' = llm_calls w ++ repeat (entry_ids e) attempts /\
    result_file w' = Some (array_text (items ++ [dumps (sentinel e)])) /\
    response (sentinel e) = ""%string /\
    total_duration (sentinel e) = 0%Q /\ load_duration (sentinel e) = 0%Q /\
    prompt_eval_count (sentinel e) = 0%Q /\
    prompt_eval_duration (sentinel e) = 0%Q /\
    eval_count (sentinel e) = 0%Q /\ eval_duration (sentinel e) = 0%Q /\
    entries_of w (e :: rest) idx start total
    = entries_of w' rest (idx + 1) start total.
Proof.
  intros Hm Hr Hc Hf Hs.
  destruct (@retry_loop_always_fails e idx total items Hr Hc
              (Z.to_nat (max_retries - 0 - 1)) (S (Z.to_nat (max_retries + 1)))
              w 0 0%nat eq_refl Hm) as (w' & Hl & Hres & Hcalls);
    [lia|exact Hf|].
  exists w', (S (Z.to_nat (max_retries - 0 - 1))).
  destruct (sentinel_is_empty e) as (_ & S1 & S2 & S3 & S4 & S5 & S6 & S7).
  split; [exact Hl|]. split; [lia|]. split; [lia|].
  split; [intros ->; reflexivity|].
  split; [exact Hcalls|]. split; [exact Hres|].
  do 7 (split; [assumption|]).
  cbn [process_entries]. destruct (Z.ltb_spec idx start); [lia|].
  unfold _process_entry. rewrite Hl. reflexivity.
Qed.

Lemma step_skip w e rest idx start total :
  idx < start ->
  entries_of w (e :: rest) idx start total
  = entries_of w rest (idx + 1) start total.
Proof.
  intros H. cbn [process_entries]. destruct (Z.ltb_spec idx start); [reflexivity|lia].
Qed.

Lemma step_answers w e rest idx start total r items :
  start <= idx ->
  0 <= max_retries ->
  retry_file (entry_ids e) = None ->
  call_ollama_chat (List.length (llm_calls w)) e = LlmReturns r ->
  file_holds items (result_file w) ->
  total <> 0 ->
  entries_of w (e :: rest) idx start total
  = entries_of (after_answer dumps ns_to_seconds w e idx total items r) rest (idx + 1) start total.
Proof.
  intros Hs Hm Hr Hc Hf Ht. cbn [process_entries].
  destruct (Z.ltb_spec idx start); [lia|].
  now rewrite (@process_entry_answers w e idx total r items).
Qed.

End DriverFacts.

(** ** The driver on a record that always fails *)

Section DriverScenario.

Import Text Json Resume Driver.
Local Open Scope Z_scope.

Variable dumps : out_entry -> text.
Variable ns_to_seconds : Q -> Q.

Local Abbreviation entries3 :=
  (process_entries dumps ns_to_seconds fails_on_2 no_retry_file 3).
Local Abbreviation run3 :=
  (process_model_streaming dumps ns_to_seconds fails_on_2 no_retry_file 3).
Local Abbreviation killed3 :=
  (killed_after dumps ns_to_seconds fails_on_2 no_retry_file 3).

Lemma step_gives_up w rest idx start total items :
  start <= idx ->
  file_holds items (result_file w) ->
  entries3 w (record 2 :: rest) idx start total
  = entries3 (after_giving_up dumps w items) rest (idx + 1) start total.
Proof.
  intros Hs Hf. cbn [process_entries].
  destruct (Z.ltb_spec idx start); [lia|].
  unfold _process_entry. change (Z.to_nat (3 + 1)) with 4%nat.
  cbn [retry_loop]. change (0 <=? 3) with true. cbv iota.
  rewrite (@attempt_raises dumps ns_to_seconds fails_on_2 no_retry_file 3
             w (record 2) idx total "connection refused" eq_refl eq_refl).
  rewrite handle_below by lia. change (3 <=? 0 + 1) with false. cbv iota.
  change (0 + 1 <=? 3) with true. cbv iota.
  rewrite (@attempt_raises dumps ns_to_seconds fails_on_2 no_retry_file 3
             _ (record 2) idx total "connection refused" eq_refl eq_refl).
  rewrite handle_below by lia. change (3 <=? 0 + 1 + 1) with false. cbv iota.
  change (0 + 1 + 1 <=? 3) with true. cbv iota.
  rewrite (@attempt_raises dumps ns_to_seconds fails_on_2 no_retry_file 3
             _ (record 2) idx total "connection refused" eq_refl eq_refl).
  rewrite (@handle_at_limit dumps 3 _ (record 2) "connection refused" _ items)
    by (lia || exact Hf).
  change (3 <=? 0 + 1 + 1 + 1) with true. cbv iota.
  f_equal. unfold after_giving_up, refused.
  cbn [log_call set_resume resume llm_calls result_file repeat].
  rewrite <- !app_assoc. reflexivity.
Qed.

Local Abbreviation d1 := (dumps (answered ns_to_seconds (record 1) answer)).
Local Abbreviation d3 := (dumps (answered ns_to_seconds (record 3) answer)).
Local Abbreviation s2 := (dumps (sentinel (record 2))).
Local Abbreviation k2 := (entry_ids (record 2)).

Ltac step_answer its :=
  rewrite (@step_answers dumps ns_to_seconds fails_on_2 no_retry_file 3
             _ _ _ _ _ _ answer its);
  [ | lia | lia | reflexivity | reflexivity
    | first [ left; reflexivity | reflexivity ] | lia ].

Ltac step_give_up its :=
  rewrite (@step_gives_up _ _ _ _ _ its);
  [ | lia | first [ left; reflexivity | reflexivity ] ].

(** C7, on a job of two records whose second one always fails.  The
    first run writes the sentinel once and leaves the ledger at
    [retry_count = 3], but the resume index stays at 1: the second run
    calls the chat for that record three more times and appends a second
    sentinel with the same identity key. *)
Theorem exhausted_record_retried_on_rerun :
  exists w1 w2,
    run3 fresh [record 1; record 2] = Some (JobReturned w1 false) /\
    result_file w1 = Some (array_text [d1; s2]) /\
    map retry_count_of (get_failed_entries (resume w1)) = [3] /\
    option_map index (resume w1) = Some (Some 1) /\
    run3 w1 [record 1; record 2] = Some (JobReturned w2 false) /\
    llm_calls w2 = llm_calls w1 ++ [k2; k2; k2] /\
    result_file w2 = Some (array_text [d1; s2; s2]).
Proof.
  exists (after_giving_up dumps
            (after_answer dumps ns_to_seconds fresh (record 1) 0 2 [] answer) [d1]).
  exists (after_giving_up dumps
            (after_giving_up dumps
               (after_answer dumps ns_to_seconds fresh (record 1) 0 2 [] answer) [d1])
            [d1; s2]).
  split; [|split; [reflexivity|split; [reflexivity|split; [reflexivity|
           split; [|split; reflexivity]]]]].
  - unfold process_model_streaming.
    change (start_job fresh [record 1; record 2]) with (@inr world _ (fresh, 0)).
    cbv iota beta. change (Z.of_nat (List.length [record 1; record 2])) with 2.
    step_answer (@nil text). step_give_up [d1].
    reflexivity.
  - unfold process_model_streaming.
    set (w1 := after_giving_up dumps _ [d1]).
    change (start_job w1 [record 1; record 2]) with (@inr world _ (w1, 1)).
    cbv iota beta. change (Z.of_nat (List.length [record 1; record 2])) with 2.
    rewrite step_skip by lia. step_give_up [d1; s2].
    reflexivity.
Qed.

Local Abbreviation data3 := [record 1; record 2; record 3].

(** The same defect across a kill, on a job of three records whose
    second one always fails.  The uninterrupted run writes one record per
    input record.  Killed after record 2 has used up its attempts
    (sentinel appended, ledger saved), the resume index is still 1: no
    resume state was saved for record 2, so the restarted run processes it
    again and the output holds its identity key twice. *)
Theorem resume_duplicates_exhausted_record :
  exists wu wk wr,
    run3 fresh data3 = Some (JobReturned wu true) /\
    result_file wu = Some (array_text [d1; s2; d3]) /\
    killed3 2 fresh data3 = Some wk /\
    result_file wk = Some (array_text [d1; s2]) /\
    map retry_count_of (get_failed_entries (resume wk)) = [3] /\
    option_map index (resume wk) = Some (Some 1) /\
    run3 wk data3 = Some (JobReturned wr true) /\
    result_file wr = Some (array_text [d1; s2; s2; d3]) /\
    map out_key [answered ns_to_seconds (record 1) answer; sentinel (record 2);
                 sentinel (record 2); answered ns_to_seconds (record 3) answer]
    = [entry_ids (record 1); k2; k2; entry_ids (record 3)].
Proof.
  set (w1 := after_answer dumps ns_to_seconds fresh (record 1) 0 3 [] answer).
  set (wk := after_giving_up dumps w1 [d1]).
  exists (after_answer dumps ns_to_seconds wk (record 3) 2 3 [d1; s2] answer), wk.
  exists (after_answer dumps ns_to_seconds (after_giving_up dumps wk [d1; s2])
            (record 3) 2 3 [d1; s2; s2] answer).
  split; [|split; [reflexivity|split; [|split; [reflexivity|split; [reflexivity|
           split; [reflexivity|split; [|split; reflexivity]]]]]]].
  - unfold process_model_streaming.
    change (start_job fresh data3) with (@inr world _ (fresh, 0)).
    cbv iota beta. change (Z.of_nat (List.length data3)) with 3.
    step_answer (@nil text). step_give_up [d1]. step_answer [d1; s2].
    reflexivity.
  - unfold killed_after.
    change (start_job fresh data3) with (@inr world _ (fresh, 0)).
    cbv iota beta. change (Z.of_nat (List.length data3)) with 3.
    cbn [firstn].
    step_answer (@nil text). step_give_up [d1].
    reflexivity.
  - unfold process_model_streaming.
    change (start_job wk data3) with (@inr world _ (wk, 1)).
    cbv iota beta. change (Z.of_nat (List.length data3)) with 3.
    rewrite step_skip by lia. step_give_up [d1; s2]. step_answer [d1; s2; s2].
    reflexivity.
Qed.

End DriverScenario.

Section DriverExamples.

Import Text Json Resume Driver DriverSample.
Local Open Scope Z_scope.

Lemma retry_bound_witness :
  exists w' attempts,
    _process_entry sample_dumps sample_ns_to_seconds fails_on_2 no_retry_file 3
      fresh (record 2) 0 1 = Some (EntryDone w' true attempts) /\
    (1 <= attempts)%nat /\ Z.of_nat attempts <= 3 + 1 /\
    (3 = 3 -> attempts = 3%nat) /\
    llm_calls w' = llm_calls fresh ++ repeat (entry_ids (record 2)) attempts /\
    result_file w' = Some (array_text ([] ++ [sample_dumps (sentinel (record 2))])) /\
    response (sentinel (record 2)) = ""%string /\
    total_duration (sentinel (record 2)) = 0%Q /\
    load_duration (sentinel (record 2)) = 0%Q /\
    prompt_eval_count (sentinel (record 2)) = 0%Q /\
    prompt_eval_duration (sentinel (record 2)) = 0%Q /\
    eval_count (sentinel (record 2)) = 0%Q /\
    eval_duration (sentinel (record 2)) = 0%Q /\
    process_entries sample_dumps sample_ns_to_seconds fails_on_2 no_retry_file 3
      fresh (record 2 :: []) 0 0 1
    = process_entries sample_dumps sample_ns_to_seconds fails_on_2 no_retry_file 3
        w' [] (0 + 1) 0 1.
Proof.
  apply (@retry_bound sample_dumps sample_ns_to_seconds fails_on_2 no_retry_file 3
           fresh (record 2) 0 1 0 [] []).
  - lia.
  - reflexivity.
  - intros n. eexists. reflexivity.
  - left. reflexivity.
  - lia.
Defined.

End DriverExamples.

(** ** The failure ledger and the resume point *)

Section LedgerFacts.

Import Text Resume.
Local Open Scope Z_scope.

Lemma scalar_eqb_eq a b : scalar_eqb a b = true <-> a = b.
Proof.
  destruct a as [|x|x], b as [|y|y]; cbn [scalar_eqb];
    try (split; [discriminate|intros H; discriminate H]).
  - split; reflexivity.
  - rewrite Z.eqb_eq. split; [now intros ->|now intros [= ->]].
  - rewrite String.eqb_eq. split; [now intros ->|now intros [= ->]].
Qed.

Lemma key_eqb_eq a b : key_eqb a b = true <-> a = b.
Proof.
  destruct a as [[a1 a2] a3], b as [[b1 b2] b3]. cbn [key_eqb].
  rewrite !andb_true_iff, !scalar_eqb_eq.
  split; [intros [[-> ->] ->]; reflexivity|intros [= -> -> ->]; auto].
Qed.

Lemma key_eqb_refl a : key_eqb a a = true.
Proof. now apply key_eqb_eq. Qed.

Lemma key_eqb_sym a b : key_eqb a b = key_eqb b a.
Proof.
  destruct (key_eqb a b) eqn:E1, (key_eqb b a) eqn:E2; try reflexivity.
  - apply key_eqb_eq in E1. subst. now rewrite key_eqb_refl in E2.
  - apply key_eqb_eq in E2. subst. now rewrite key_eqb_refl in E1.
Qed.

Lemma add_failed_entry_some e msg d :
  add_failed_entry e msg (Some d)
  = Some {| last_processed := last_processed d; index := index d;
            total := total d; completed := completed d;
            failed_entries :=
              Some match bump_existing (ledger_key e) msg
                           (get_failed_entries (Some d)) with
                   | Some l => l
                   | None => get_failed_entries (Some d) ++ [counted e msg 1]
                   end |}.
Proof. reflexivity. Qed.

Lemma bump_existing_absent k msg l :
  List.find (fun f => key_eqb (fe_key f) k) l = None ->
  bump_existing k msg l = None.
Proof.
  induction l as [|x l IH]; cbn [List.find bump_existing]; [reflexivity|].
  destruct (key_eqb (fe_key x) k); [discriminate|].
  intros H. now rewrite IH.
Qed.

Lemma bump_existing_counted e msg l n :
  List.find (fun f => key_eqb (fe_key f) (ledger_key e)) l = None ->
  bump_existing (ledger_key e) msg (l ++ [counted e msg n])
  = Some (l ++ [counted e msg (n + 1)]).
Proof.
  induction l as [|x l IH]; cbn [List.find bump_existing app].
  - change (fe_key (counted e msg n)) with (ledger_key e).
    now rewrite key_eqb_refl.
  - destruct (key_eqb (fe_key x) (ledger_key e)); [discriminate|].
    intros H. now rewrite IH.
Qed.

Lemma find_counted e msg l n :
  List.find (fun f => key_eqb (fe_key f) (ledger_key e)) l = None ->
  List.find (fun f => key_eqb (fe_key f) (ledger_key e)) (l ++ [counted e msg n])
  = Some (counted e msg n).
Proof.
  induction l as [|x l IH]; cbn [List.find app].
  - change (fe_key (counted e msg n)) with (ledger_key e).
    now rewrite key_eqb_refl.
  - destruct (key_eqb (fe_key x) (ledger_key e)); [discriminate|]. exact IH.
Qed.

(** The resume file after [S n] failures of a record that an existing
    ledger did not hold. *)
Lemma failures_on_existing_file e msg d n :
  ledger_entry e (Some d) = None ->
  Nat.iter (S n) (add_failed_entry e msg) (Some d)
  = Some {| last_processed := last_processed d; index := index d;
            total := total d; completed := completed d;
            failed_entries :=
              Some (get_failed_entries (Some d)
                    ++ [counted e msg (Z.of_nat (S n))]) |}.
Proof.
  unfold ledger_entry, get_failed_entries, get_resume_data. intros H.
  induction n as [|n IH].
  - change (Nat.iter 1 (add_failed_entry e msg) (Some d))
      with (add_failed_entry e msg (Some d)).
    rewrite add_failed_entry_some.
    unfold get_failed_entries, get_resume_data.
    now rewrite bump_existing_absent.
  - change (Nat.iter (S (S n)) (add_failed_entry e msg) (Some d))
      with (add_failed_entry e msg (Nat.iter (S n) (add_failed_entry e msg) (Some d))).
    rewrite IH, add_failed_entry_some.
    unfold get_failed_entries, get_resume_data.
    cbn [failed_entries last_processed index total completed].
    rewrite bump_existing_counted by assumption.
    do 4 f_equal. rewrite (Nat2Z.inj_succ (S n)). reflexivity.
Qed.

(** X1.  Counting failures on an existing resume file: when the ledger
    does not hold a record yet, [n] calls of [add_failed_entry] for it
    ([n >= 1]) add exactly one ledger entry, whose [retry_count] is [n];
    [should_retry_entry] then answers [n < max_retries]. *)
Theorem ledger_counts_failures (e : entry) (msg : option string)
    (d : resume_data) (n : nat) (max_retries : Z) :
  ledger_entry e (Some d) = None ->
  (1 <= n)%nat ->
  let file := Nat.iter n (add_failed_entry e msg) (Some d) in
  (exists f, ledger_entry e file = Some f /\
             fe_retry_count f = Some (Z.of_nat n) /\ fe_error f = msg) /\
  List.length (get_failed_entries file)
    = S (List.length (get_failed_entries (Some d))) /\
  should_retry_entry e max_retries file = (Z.of_nat n <? max_retries).
Proof.
  intros H Hn. destruct n as [|n]; [lia|]. cbv zeta.
  rewrite failures_on_existing_file by assumption.
  unfold ledger_entry in *. unfold should_retry_entry.
  change (get_failed_entries (Some {| last_processed := last_processed d;
            index := index d; total := total d; completed := completed d;
            failed_entries := Some (get_failed_entries (Some d)
                    ++ [counted e msg (Z.of_nat (S n))]) |}))
    with (get_failed_entries (Some d) ++ [counted e msg (Z.of_nat (S n))]).
  fold (ledger_key e). rewrite find_counted by assumption.
  split; [|split].
  - eexists. split; [reflexivity|]. split; reflexivity.
  - rewrite length_app. cbn [List.length]. lia.
  - reflexivity.
Qed.

(** The resume file after [S n] failures of a record when there was no
    resume file. *)
Lemma failures_without_file e msg n :
  Nat.iter (S n) (add_failed_entry e msg) None
  = Some {| last_processed := None; index := None; total := None;
            completed := None;
            failed_entries :=
              Some [{| fe_id := get e "id"; fe_sub_id := get e "sub_id";
                       fe_code_id := get e "code_id"; fe_error := msg;
                       fe_retry_count :=
                         match n with O => None | S _ => Some (Z.of_nat n) end |}] |}.
Proof.
  induction n as [|n IH]; [reflexivity|].
  change (Nat.iter (S (S n)) (add_failed_entry e msg) None)
    with (add_failed_entry e msg (Nat.iter (S n) (add_failed_entry e msg) None)).
  rewrite IH.
  cbn [add_failed_entry failed_entries last_processed index total completed
       bump_existing fe_key fe_id fe_sub_id fe_code_id].
  rewrite key_eqb_refl. do 4 f_equal.
  unfold retry_count_of. cbn [fe_retry_count]. f_equal.
  destruct n; [reflexivity|]. rewrite (Nat2Z.inj_succ (S n)). reflexivity.
Qed.

(** X2.  The first failure is not counted when there is no resume file:
    after [n + 1] calls of [add_failed_entry] for a record, starting
    without a resume file, the ledger is one entry whose [retry_count]
    reads [n] (missing after the first call), and [should_retry_entry]
    answers [n < max_retries]. *)
Theorem first_failure_not_counted (e : entry) (msg : option string) (n : nat)
    (max_retries : Z) :
  let file := Nat.iter (S n) (add_failed_entry e msg) None in
  exists f,
    get_failed_entries file = [f] /\ fe_key f = ledger_key e /\
    retry_count_of f = Z.of_nat n /\
    (fe_retry_count f = None <-> n = O) /\
    should_retry_entry e max_retries file = (Z.of_nat n <? max_retries).
Proof.
  cbv zeta. rewrite failures_without_file. eexists.
  split; [reflexivity|]. split; [reflexivity|].
  assert (Hc : retry_count_of
                 {| fe_id := get e "id"; fe_sub_id := get e "sub_id";
                    fe_code_id := get e "code_id"; fe_error := msg;
                    fe_retry_count :=
                      match n with O => None | S _ => Some (Z.of_nat n) end |}
               = Z.of_nat n).
  { unfold retry_count_of. cbn [fe_retry_count]. now destruct n. }
  split; [exact Hc|]. split.
  - cbn [fe_retry_count]. destruct n; split; try reflexivity; discriminate.
  - unfold should_retry_entry, get_failed_entries, get_resume_data.
    cbn [failed_entries List.find fe_key fe_id fe_sub_id fe_code_id].
    rewrite key_eqb_refl. now rewrite Hc.
Qed.

Lemma find_bump_other k k' msg l l' :
  key_eqb k' k = false ->
  bump_existing k msg l = Some l' ->
  option_map retry_count_of (List.find (fun f => key_eqb (fe_key f) k') l')
  = option_map retry_count_of (List.find (fun f => key_eqb (fe_key f) k') l).
Proof.
  intros Hk. revert l'. induction l as [|x l IH]; intros l';
    cbn [bump_existing]; [discriminate|].
  destruct (key_eqb (fe_key x) k) eqn:E.
  - intros [= <-]. cbn [List.find fe_key fe_id fe_sub_id fe_code_id].
    apply key_eqb_eq in E. fold (fe_key x).
    assert (Hx : key_eqb (fe_key x) k' = false).
    { rewrite E, key_eqb_sym. exact Hk. }
    change (fe_key {| fe_id := fe_id x; fe_sub_id := fe_sub_id x;
                      fe_code_id := fe_code_id x; fe_error := msg;
                      fe_retry_count := Some (retry_count_of x + 1) |})
      with (fe_key x).
    now rewrite Hx.
  - destruct (bump_existing k msg l) as [l0|]; [|discriminate].
    cbn [option_map]. intros [= <-]. cbn [List.find].
    destruct (key_eqb (fe_key x) k'); [reflexivity|]. now apply IH.
Qed.

Lemma find_app_other k' (x : failed_entry) l :
  key_eqb (fe_key x) k' = false ->
  List.find (fun f => key_eqb (fe_key f) k') (l ++ [x])
  = List.find (fun f => key_eqb (fe_key f) k') l.
Proof.
  intros Hx. induction l as [|y l IH]; cbn [List.find app].
  - now rewrite Hx.
  - destruct (key_eqb (fe_key y) k'); [reflexivity|exact IH].
Qed.

(** X3.  [add_failed_entry] never moves the resume point: on an
    existing resume file the stored index, total, flag and last processed
    identity stay as they are, [find_resume_point] answers as before, and
    the retry decision for a record of another identity does not
    change. *)
Theorem add_failed_entry_keeps_resume_point (e other : entry)
    (msg : option string) (d : resume_data) (n : nat) (result : option text)
    (max_retries : Z) :
  ledger_key other <> ledger_key e ->
  let file := add_failed_entry e msg (Some d) in
  (exists d', file = Some d' /\ index d' = index d /\ total d' = total d /\
              completed d' = completed d /\
              last_processed d' = last_processed d) /\
  find_resume_point true n true file result
    = find_resume_point true n true (Some d) result /\
  should_retry_entry other max_retries file
  = should_retry_entry other max_retries (Some d).
Proof.
  intros Hne. cbv zeta. split; [|split].
  - cbn [add_failed_entry]. eexists. split; [reflexivity|]. repeat split.
  - reflexivity.
  - assert (Hk : key_eqb (ledger_key other) (ledger_key e) = false).
    { destruct (key_eqb (ledger_key other) (ledger_key e)) eqn:E; [|reflexivity].
      apply key_eqb_eq in E. contradiction. }
    unfold should_retry_entry. fold (ledger_key other).
    set (look := fun l => List.find (fun f => key_eqb (fe_key f) (ledger_key other)) l).
    assert (H : option_map retry_count_of
                  (look (get_failed_entries (add_failed_entry e msg (Some d))))
                = option_map retry_count_of (look (get_failed_entries (Some d)))).
    { rewrite add_failed_entry_some.
      unfold get_failed_entries at 1. unfold get_resume_data at 1.
      cbn [failed_entries].
      set (failed := get_failed_entries (Some d)).
      destruct (bump_existing (ledger_key e) msg failed) as [l'|] eqn:Hb.
      - unfold look. eapply find_bump_other; eassumption.
      - unfold look. rewrite find_app_other; [reflexivity|].
        change (fe_key (counted e msg 1)) with (ledger_key e).
        rewrite key_eqb_sym. exact Hk. }
    fold (look (get_failed_entries (add_failed_entry e msg (Some d)))).
    fold (look (get_failed_entries (Some d))).
    destruct (look (get_failed_entries (add_failed_entry e msg (Some d)))) as [f1|],
             (look (get_failed_entries (Some d))) as [f2|];
      cbn [option_map] in H; try discriminate; [|reflexivity].
    injection H as ->. reflexivity.
Qed.

(** X4.  Saving and finding the resume point: after
    [save_resume_point] has stored an index within the data file,
    [find_resume_point] returns that index and leaves the result file
    alone, [get_last_processed_entry] returns the identity of the saved
    record, and the ledger is the one that was there. *)
Theorem save_then_find_resume_point (e : entry) (idx tot : Z)
    (file : resume_file) (n : nat) (result : option text) :
  tot <> 0 ->
  0 <= idx <= Z.of_nat n ->
  exists file',
    save_resume_point e idx tot [] file = Saved file' /\
    find_resume_point true n true file' result = (idx, result) /\
    get_last_processed_entry true file' = Some (ledger_key e) /\
    get_failed_entries file' = get_failed_entries file.
Proof.
  intros Ht Hi. unfold save_resume_point.
  destruct (Z.eqb_spec tot 0) as [E|_]; [contradiction|].
  eexists. split; [reflexivity|]. split; [|split; reflexivity].
  unfold find_resume_point, get_resume_data. cbn [index].
  destruct (Z.leb_spec 0 idx); [|lia].
  destruct (Z.leb_spec idx (Z.of_nat n)); [|lia]. reflexivity.
Qed.

(** X5.  The resume index is always usable: whatever the resume file
    holds, [find_resume_point] returns an index between 0 and the number
    of records, and it touches the result file only when it starts from
    0, by overwriting an existing non-empty file with the empty array. *)
Theorem find_resume_point_bounds (log_dir result_dir : bool) (n : nat)
    (file : resume_file) (result : option text) :
  let '(i, result') := find_resume_point log_dir n result_dir file result in
  0 <= i <= Z.of_nat n /\
  (result' = result \/
   i = 0 /\ result' = Some [LBRACKET; NEWLINE; RBRACKET] /\
   exists c r, result = Some (c :: r)).
Proof.
  unfold find_resume_point.
  set (from_file := if log_dir then _ else None).
  assert (Hf : match from_file with
               | Some i => 0 <= i <= Z.of_nat n
               | None => True
               end).
  { unfold from_file. destruct log_dir; [|exact I].
    destruct (get_resume_data file) as [d|]; [|exact I].
    destruct (index d) as [i|]; [|exact I].
    destruct (Z.leb_spec 0 i); cbn [andb]; [|exact I].
    destruct (Z.leb_spec i (Z.of_nat n)); [lia|exact I]. }
  destruct from_file as [i|].
  - split; [exact Hf|]. now left.
  - destruct result_dir.
    + destruct result as [[|c r]|].
      * split; [lia|]. now left.
      * split; [lia|]. right. split; [reflexivity|]. split; [reflexivity|]. eauto.
      * split; [lia|]. now left.
    + split; [lia|]. now left.
Qed.

Lemma filter_partition_length {A} (p : A -> bool) (l : list A) :
  List.length l
  = (List.length (filter p l) + List.length (filter (fun x => negb (p x)) l))%nat.
Proof.
  induction l as [|x l IH]; [reflexivity|]. cbn [filter].
  destruct (p x); cbn [negb List.length]; lia.
Qed.

(** X6.  The counts of [is_model_completed]: every ledger entry is counted
    either as exhausted or as retryable, and the model is reported
    completed exactly when the stored flag is set and no entry is
    retryable. *)
Theorem is_model_completed_counts (log_dir : bool) (file : resume_file) :
  let '(done, status) := is_model_completed log_dir file in
  failed_entries_count status
    = (max_retries_reached status + retryable_entries status)%nat /\
  done = (st_completed status && (retryable_entries status =? 0)%nat)%bool /\
  failed_entries_count status
    = (if log_dir then List.length (get_failed_entries file) else 0)%nat.
Proof.
  unfold is_model_completed, get_failed_entries.
  destruct log_dir; [|repeat split].
  destruct (get_resume_data file) as [d|]; [|repeat split].
  set (failed := match failed_entries d with Some l => l | None => [] end).
  set (flag := match completed d with Some b => b | None => false end).
  set (retryable := List.length (filter (fun f => negb (default_max_retries <=? retry_count_of f)) failed)).
  assert (Hp := filter_partition_length
                  (fun f => default_max_retries <=? retry_count_of f) failed).
  fold retryable in Hp.
  destruct flag; cbn [andb].
  - destruct (Nat.eqb_spec retryable 0) as [E|E].
    + cbn [failed_entries_count max_retries_reached retryable_entries st_completed andb].
      rewrite E at 2. cbn [Nat.eqb]. repeat split. exact Hp.
    + destruct (Nat.ltb_spec 0 retryable) as [_|Hle]; [|lia].
      cbn [failed_entries_count max_retries_reached retryable_entries st_completed andb].
      destruct (Nat.eqb_spec retryable 0); [contradiction|]. repeat split. exact Hp.
  - destruct (0 <? retryable)%nat;
      cbn [failed_entries_count max_retries_reached retryable_entries st_completed andb];
      repeat split; exact Hp.
Qed.

End LedgerFacts.

Section LedgerExamples.

Import Text Resume.
Local Open Scope Z_scope.
Local Open Scope string_scope.

Lemma ledger_counts_failures_witness :
  let d := {| last_processed := None; index := Some 4; total := Some 9;
              completed := Some false; failed_entries := Some [] |} in
  let e := [("id", PyInt 7)]%list in
  let file := Nat.iter 3 (add_failed_entry e (Some "timeout")) (Some d) in
  (exists f, ledger_entry e file = Some f /\
             fe_retry_count f = Some 3 /\ fe_error f = Some "timeout") /\
  List.length (get_failed_entries file) = 1%nat /\
  should_retry_entry e 3 file = false.
Proof.
  cbv zeta.
  apply (@ledger_counts_failures [("id", PyInt 7)]%list (Some "timeout")
           {| last_processed := None; index := Some 4; total := Some 9;
              completed := Some false; failed_entries := Some [] |} 3 3).
  - reflexivity.
  - lia.
Defined.

Lemma add_failed_entry_keeps_resume_point_witness :
  let d := {| last_processed := None; index := Some 4; total := Some 9;
              completed := Some false; failed_entries := Some [] |} in
  let file := add_failed_entry [("id", PyInt 7)]%list None (Some d) in
  (exists d', file = Some d' /\ index d' = index d /\ total d' = total d /\
              completed d' = completed d /\
              last_processed d' = last_processed d) /\
  find_resume_point true 9 true file None
    = find_resume_point true 9 true (Some d) None /\
  should_retry_entry [("id", PyInt 8)]%list 3 file
  = should_retry_entry [("id", PyInt 8)]%list 3 (Some d).
Proof.
  cbv zeta.
  apply (@add_failed_entry_keeps_resume_point [("id", PyInt 7)]%list
           [("id", PyInt 8)]%list None
           {| last_processed := None; index := Some 4; total := Some 9;
              completed := Some false; failed_entries := Some [] |} 9 None 3).
  discriminate.
Defined.

Lemma save_then_find_resume_point_witness :
  exists file',
    save_resume_point [("id", PyInt 7)]%list 2 5 [] None = Saved file' /\
    find_resume_point true 5 true file' (Some [LBRACKET]) = (2, Some [LBRACKET]) /\
    get_last_processed_entry true file' = Some (ledger_key [("id", PyInt 7)]%list) /\
    get_failed_entries file' = get_failed_entries None.
Proof.
  apply (@save_then_find_resume_point [("id", PyInt 7)]%list 2 5 None 5
           (Some [LBRACKET])); lia.
Defined.

End LedgerExamples.

(** ** Merging failed entries by identity *)

Section MergeFacts.

Import Text Resume.
Local Open Scope Z_scope.

Local Abbreviation keys_of d := (map (@fst key failed_entry) d).

(** A dictionary keyed by identity: no key twice, and every value filed
    under its own identity. *)
Local Abbreviation filed d :=
  (Forall (fun kv : key * failed_entry => fe_key (snd kv) = fst kv) d).

Lemma NoDup_snoc {A} (l : list A) (x : A) :
  NoDup l -> ~ In x l -> NoDup (l ++ [x]).
Proof.
  induction 1 as [|y l Hy Hl IH]; cbn [app]; intros Hx.
  - constructor; [intros []|constructor].
  - constructor.
    + rewrite in_app_iff. intros [H|[H|[]]]; [contradiction|].
      subst. apply Hx. now left.
    + apply IH. intros H. apply Hx. now right.
Qed.

Lemma key_in_dec (k : key) (l : list key) : In k l \/ ~ In k l.
Proof.
  induction l as [|a l IH]; [now right|].
  destruct (key_eqb a k) eqn:E.
  - apply key_eqb_eq in E. left. now left.
  - destruct IH as [H|H]; [left; now right|].
    right. intros [H1|H1]; [|contradiction].
    subst. now rewrite key_eqb_refl in E.
Qed.

Lemma dict_set_keys_in k v d :
  In k (keys_of d) -> keys_of (dict_set k v d) = keys_of d.
Proof.
  induction d as [|[k' v'] d IH]; cbn [map fst dict_set In]; [intros []|].
  destruct (key_eqb k' k) eqn:E.
  - reflexivity.
  - intros [H|H].
    + subst. now rewrite key_eqb_refl in E.
    + cbn [map fst]. now rewrite IH.
Qed.

Lemma dict_set_keys_new k v d :
  ~ In k (keys_of d) -> keys_of (dict_set k v d) = keys_of d ++ [k].
Proof.
  induction d as [|[k' v'] d IH]; cbn [map fst dict_set In app]; [reflexivity|].
  intros H. destruct (key_eqb k' k) eqn:E.
  - apply key_eqb_eq in E. subst. exfalso. apply H. now left.
  - cbn [map fst]. rewrite IH; [reflexivity|]. intros Hin. apply H. now right.
Qed.

Lemma dict_set_keys_iff k v d x :
  In x (keys_of (dict_set k v d)) <-> In x (keys_of d) \/ x = k.
Proof.
  destruct (key_in_dec k (keys_of d)) as [Hin|Hout].
  - rewrite dict_set_keys_in by assumption. split; [now left|].
    intros [H|H]; [exact H|now subst].
  - rewrite dict_set_keys_new by assumption. rewrite in_app_iff. cbn [In].
    split; [intros [H|[H|[]]]; auto|intros [H|H]; auto].
Qed.

Lemma dict_set_nodup k v d :
  NoDup (keys_of d) -> NoDup (keys_of (dict_set k v d)).
Proof.
  intros Hd.
  destruct (key_in_dec k (keys_of d)) as [Hin|Hout].
  - now rewrite dict_set_keys_in.
  - rewrite dict_set_keys_new by assumption. now apply NoDup_snoc.
Qed.

Lemma dict_set_filed k v d :
  fe_key v = k -> filed d -> filed (dict_set k v d).
Proof.
  intros Hv. induction 1 as [|[k' v'] d Hkv Hd IH]; cbn [dict_set].
  - constructor; [exact Hv|constructor].
  - destruct (key_eqb k' k) eqn:E.
    + apply key_eqb_eq in E. subst k'. constructor; [exact Hv|exact Hd].
    + constructor; [exact Hkv|exact IH].
Qed.

Lemma dict_find_filed k d v :
  filed d -> dict_find k d = Some v -> fe_key v = k.
Proof.
  induction 1 as [|[k' v'] d Hkv Hd IH]; cbn [dict_find]; [discriminate|].
  destruct (key_eqb k' k) eqn:E.
  - intros [= <-]. apply key_eqb_eq in E. cbn [fst snd] in Hkv. congruence.
  - exact IH.
Qed.

Lemma unique_of_spec existing : forall d,
  NoDup (keys_of d) -> filed d ->
  let d' := fold_left (fun d e => dict_set (fe_key e) e d) existing d in
  NoDup (keys_of d') /\ filed d' /\
  forall x, In x (keys_of d') <-> In x (keys_of d) \/ In x (map fe_key existing).
Proof.
  induction existing as [|e existing IH]; intros d Hn Hf; cbn [fold_left map In].
  - repeat split; try assumption; [now left|now intros [H|[]]].
  - destruct (IH (dict_set (fe_key e) e d)) as (H1 & H2 & H3).
    + now apply dict_set_nodup.
    + now apply dict_set_filed.
    + split; [exact H1|]. split; [exact H2|]. intros x. rewrite H3.
      rewrite dict_set_keys_iff. intuition auto.
Qed.

Lemma merge_failed_spec new_failed : forall d,
  NoDup (keys_of d) -> filed d ->
  let d' := merge_failed d new_failed in
  NoDup (keys_of d') /\ filed d' /\
  forall x, In x (keys_of d') <-> In x (keys_of d) \/ In x (map fe_key new_failed).
Proof.
  unfold merge_failed.
  induction new_failed as [|f new_failed IH]; intros d Hn Hf; cbn [fold_left map In].
  - repeat split; try assumption; [now left|now intros [H|[]]].
  - set (step := match dict_find (fe_key f) d with
                 | Some existing_entry =>
                     dict_set (fe_key f)
                       (set_retry_count existing_entry
                          (retry_count_of existing_entry + 1)) d
                 | None => dict_set (fe_key f) (set_retry_count f 1) d
                 end).
    assert (Hs : NoDup (keys_of step) /\ filed step /\
                 forall x, In x (keys_of step) <-> In x (keys_of d) \/ x = fe_key f).
    { unfold step. destruct (dict_find (fe_key f) d) as [ex|] eqn:Hfind.
      - split; [now apply dict_set_nodup|]. split.
        + apply dict_set_filed; [|assumption].
          change (fe_key (set_retry_count ex (retry_count_of ex + 1)))
            with (fe_key ex).
          eapply dict_find_filed; eassumption.
        + intros x. apply dict_set_keys_iff.
      - split; [now apply dict_set_nodup|]. split.
        + apply dict_set_filed; [reflexivity|assumption].
        + intros x. apply dict_set_keys_iff. }
    destruct Hs as (S1 & S2 & S3).
    destruct (IH step S1 S2) as (H1 & H2 & H3).
    split; [exact H1|]. split; [exact H2|]. intros x. rewrite H3, S3.
    intuition auto.
Qed.

Lemma filed_values d :
  filed d -> map fe_key (map snd d) = keys_of d.
Proof.
  induction 1 as [|[k v] d Hkv Hd IH]; [reflexivity|].
  cbn [map fst snd] in *. now rewrite Hkv, IH.
Qed.

(** X7.  Merging by identity: when [save_resume_point] is given new
    failed entries, the ledger it writes holds each identity once, and
    its identities are those of the ledger that was stored together with
    those of the new entries. *)
Theorem save_resume_point_merges_by_identity (e : entry) (idx tot : Z)
    (new_failed : list failed_entry) (file : resume_file) :
  tot <> 0 ->
  new_failed <> [] ->
  exists d,
    save_resume_point e idx tot new_failed file = Saved (Some d) /\
    NoDup (map fe_key (get_failed_entries (Some d))) /\
    forall k, In k (map fe_key (get_failed_entries (Some d))) <->
              In k (map fe_key (get_failed_entries file)) \/
              In k (map fe_key new_failed).
Proof.
  intros Ht Hne. unfold save_resume_point.
  destruct (Z.eqb_spec tot 0) as [E|_]; [contradiction|].
  destruct new_failed as [|f0 rest]; [contradiction|].
  eexists. split; [reflexivity|].
  unfold get_failed_entries at 1 2. unfold get_resume_data. cbn [failed_entries].
  fold (get_failed_entries file).
  set (existing := match file with
                   | Some d => match failed_entries d with Some l => l | None => [] end
                   | None => []
                   end).
  change (get_failed_entries file) with existing.
  destruct (@unique_of_spec existing [] (NoDup_nil _) (Forall_nil _))
    as (U1 & U2 & U3).
  fold (unique_of existing) in U1, U2, U3.
  destruct (@merge_failed_spec (f0 :: rest) (unique_of existing) U1 U2)
    as (M1 & M2 & M3).
  rewrite (filed_values M2). split; [exact M1|].
  intros k. rewrite M3, U3. cbn [map In]. intuition auto.
Qed.

Lemma failed_entries_count_ledger (file : Resume.resume_file) :
  Resume.failed_entries_count (snd (Resume.is_model_completed true file))
  = List.length (Resume.get_failed_entries file).
Proof.
  unfold Resume.is_model_completed, Resume.get_failed_entries.
  destruct (Resume.get_resume_data file) as [d|]; [|reflexivity].
  cbv zeta.
  repeat match goal with
         | |- context [if ?b then _ else _] => destruct b
         end; reflexivity.
Qed.

(** The fold of [update_incomplete_models_summary], from any summary. *)
Local Abbreviation incomplete m :=
  (negb (fst (is_model_completed true (@snd string resume_file m)))).

Lemma summary_fold models : forall s,
  let s' :=
    fold_left
      (fun s m =>
         let '(model_name, file) := m in
         let '(done, status) := is_model_completed true file in
         if done then s
         else {| incomplete_models :=
                   (incomplete_models s
                    ++ [(model_name, (status, get_failed_entries file))])%list;
                 total_models := total_models s;
                 incomplete_count := S (incomplete_count s);
                 failed_entries_total :=
                   (failed_entries_total s + failed_entries_count status)%nat |})
      models s in
  total_models s' = total_models s /\
  map fst (incomplete_models s')
  = map fst (incomplete_models s) ++ map fst (filter (fun m => incomplete m) models) /\
  incomplete_count s'
  = (incomplete_count s + List.length (filter (fun m => incomplete m) models))%nat /\
  failed_entries_total s'
  = (failed_entries_total s
     + list_sum (map (fun m => List.length (get_failed_entries (snd m)))
                     (filter (fun m => incomplete m) models)))%nat.
Proof.
  induction models as [|[name file] models IH]; intros s; cbn [fold_left filter].
  - cbn [map list_sum fold_right List.length]. rewrite app_nil_r. repeat split; lia.
  - cbn [snd].
    pose proof (failed_entries_count_ledger file) as Hc.
    destruct (is_model_completed true file) as [done status]. cbn [fst].
    cbn [snd] in Hc.
    destruct done; cbn [negb].
    + apply IH.
    + cbv zeta in IH.
      destruct (IH {| incomplete_models :=
                        (incomplete_models s
                         ++ [(name, (status, get_failed_entries file))])%list;
                      total_models := total_models s;
                      incomplete_count := S (incomplete_count s);
                      failed_entries_total :=
                        (failed_entries_total s + failed_entries_count status)%nat |})
        as (H1 & H2 & H3 & H4).
      cbv zeta. rewrite H1, H2, H3, H4.
      cbn [total_models incomplete_models incomplete_count failed_entries_total
           map list_sum fold_right List.length fst snd].
      rewrite map_app, <- app_assoc. cbn [map fst app].
      unfold list_sum. repeat split; lia.
Qed.

(** X8.  The summary of incomplete models lists exactly the models
    that [is_model_completed] does not report completed, in the order of
    the configuration; its count is their number and never exceeds the
    number of models, and its total of failed entries is the sum of the
    sizes of their ledgers. *)
Theorem incomplete_models_summary_counts
    (models : list (string * resume_file)) :
  let s := update_incomplete_models_summary models in
  let open := filter (fun m => negb (fst (is_model_completed true (snd m)))) models in
  total_models s = List.length models /\
  map fst (incomplete_models s) = map fst open /\
  incomplete_count s = List.length open /\
  (incomplete_count s <= total_models s)%nat /\
  failed_entries_total s
  = list_sum (map (fun m => List.length (get_failed_entries (snd m))) open).
Proof.
  cbv zeta. unfold update_incomplete_models_summary.
  destruct (@summary_fold models
              {| incomplete_models := []; total_models := List.length models;
                 incomplete_count := 0; failed_entries_total := 0 |})
    as (H1 & H2 & H3 & H4).
  rewrite H1, H2, H3, H4.
  cbn [total_models incomplete_models incomplete_count failed_entries_total map app].
  repeat split; try lia.
  apply filter_length_le.
Qed.

End MergeFacts.

Section MergeExamples.

Import Text Resume.
Local Open Scope Z_scope.
Local Open Scope string_scope.

Lemma save_resume_point_merges_by_identity_witness :
  let f := {| fe_id := PyInt 7; fe_sub_id := PyNone; fe_code_id := PyNone;
              fe_error := None; fe_retry_count := None |} in
  exists d,
    save_resume_point [("id", PyInt 1)]%list 1 5 [f; f] None = Saved (Some d) /\
    NoDup (map fe_key (get_failed_entries (Some d))) /\
    forall k, In k (map fe_key (get_failed_entries (Some d))) <->
              In k (map fe_key (get_failed_entries None)) \/
              In k (map fe_key [f; f]).
Proof.
  cbv zeta.
  apply (@save_resume_point_merges_by_identity [("id", PyInt 1)]%list 1 5
           [{| fe_id := PyInt 7; fe_sub_id := PyNone; fe_code_id := PyNone;
               fe_error := None; fe_retry_count := None |};
            {| fe_id := PyInt 7; fe_sub_id := PyNone; fe_code_id := PyNone;
               fe_error := None; fe_retry_count := None |}] None).
  - lia.
  - discriminate.
Defined.

End MergeExamples.

(** ** The driver on any chat outcome *)

Section DriverRuns.

Import Text Json Resume Driver.
Local Open Scope Z_scope.

Variable dumps : out_entry -> text.
Variable ns_to_seconds : Q -> Q.
Variable call_ollama_chat : nat -> entry -> llm_outcome.
Variable retry_file : key -> option Z.
Variable max_retries : Z.

Local Abbreviation interact_of :=
  (interact_with_llm ns_to_seconds call_ollama_chat retry_file max_retries).
Local Abbreviation attempt_of :=
  (_process_entry_attempt dumps ns_to_seconds call_ollama_chat retry_file max_retries).
Local Abbreviation handle_of := (_handle_entry_error dumps max_retries).
Local Abbreviation loop_of :=
  (retry_loop dumps ns_to_seconds call_ollama_chat retry_file max_retries).
Local Abbreviation entry_of :=
  (_process_entry dumps ns_to_seconds call_ollama_chat retry_file max_retries).
Local Abbreviation entries_of :=
  (process_entries dumps ns_to_seconds call_ollama_chat retry_file max_retries).
Local Abbreviation run_of :=
  (process_model_streaming dumps ns_to_seconds call_ollama_chat retry_file max_retries).
Local Abbreviation killed_of :=
  (killed_after dumps ns_to_seconds call_ollama_chat retry_file max_retries).

(** [interact_with_llm] makes at most one chat call, touches no file, and
    what it returns carries the identity of the record. *)
Lemma interact_cases w e :
  exists w1 c,
    (c <= 1)%nat /\
    llm_calls w1 = llm_calls w ++ repeat (entry_ids e) c /\
    result_file w1 = result_file w /\ resume w1 = resume w /\
    ((exists o, interact_of w e = NewEntry w1 o /\ out_key o = entry_ids e) \/
     (exists msg, interact_of w e = InteractionRaised w1 msg)).
Proof.
  unfold interact_with_llm.
  destruct (match retry_file (entry_ids e) with
            | Some retry_count => max_retries <=? retry_count
            | None => false
            end).
  - exists w, 0%nat. cbn [repeat]. rewrite app_nil_r.
    repeat split; [lia|]. left. exists (sentinel e). split; [reflexivity|].
    apply sentinel_is_empty.
  - destruct (call_ollama_chat (List.length (llm_calls w)) e) as [r|msg].
    + exists (log_call w e), 1%nat. repeat split; [lia|]. left.
      exists (answered ns_to_seconds e r). split; [reflexivity|].
      apply answered_key.
    + exists (log_call w e), 1%nat. repeat split; [lia|]. right. eauto.
Qed.

(** One attempt on a result file in the writer's layout. *)
Lemma attempt_cases w e idx total outs :
  total <> 0 ->
  file_holds (map dumps outs) (result_file w) ->
  exists w1 c,
    (c <= 1)%nat /\
    llm_calls w1 = llm_calls w ++ repeat (entry_ids e) c /\
    ((exists o,
        attempt_of w e idx total = AttemptOk w1 /\
        out_key o = entry_ids e /\
        result_file w1 = Some (array_text (map dumps (outs ++ [o]))) /\
        resume w1
        = Some {| last_processed := Some (ledger_key e);
                  index := Some (idx + 1); total := Some total;
                  completed := Some (total <=? idx + 1);
                  failed_entries := Some (get_failed_entries (resume w)) |}) \/
     (exists msg,
        attempt_of w e idx total = AttemptRaised w1 msg /\
        result_file w1 = result_file w /\ resume w1 = resume w)).
Proof.
  intros Ht Hf. unfold _process_entry_attempt.
  destruct (interact_cases w e)
    as (w1 & c & Hc & Hcalls & Hres & Hrsm & [(o & -> & Hk)|(msg & ->)]).
  - rewrite (@write_holds dumps (map dumps outs) o (result_file w1))
      by (rewrite Hres; exact Hf).
    cbn [set_result resume].
    rewrite save_resume_point_nonzero by assumption.
    eexists. exists c. split; [exact Hc|].
    split;
      [|left; exists o; split; [reflexivity|]; split; [exact Hk|];
        cbn [set_resume set_result result_file resume]; split;
        [now rewrite map_app|now rewrite Hrsm]].
    exact Hcalls.
  - exists w1, c. split; [exact Hc|]. split; [exact Hcalls|]. right.
    exists msg. auto.
Qed.

Lemma flag_sound_add_failed_entry n e msg file :
  flag_sound n file -> flag_sound n (add_failed_entry e msg file).
Proof.
  destruct file as [d|]; cbn [flag_sound add_failed_entry completed index].
  - auto.
  - intros _. discriminate.
Qed.

Lemma flag_sound_saved n e idx ledger :
  flag_sound n (Some {| last_processed := Some (ledger_key e);
                        index := Some (idx + 1); total := Some n;
                        completed := Some (n <=? idx + 1);
                        failed_entries := Some ledger |}).
Proof.
  cbn [flag_sound completed index]. intros [= H]. apply Z.leb_le in H. eauto.
Qed.

(** The retry loop on a result file in the writer's layout: whatever
    the chat call does, the loop ends with one more record in the result
    file. *)
Lemma retry_loop_general e idx total outs :
  total <> 0 ->
  forall fuel w rc attempts,
    rc <= max_retries ->
    (Z.to_nat (max_retries - rc) < fuel)%nat ->
    file_holds (map dumps outs) (result_file w) ->
    exists w' o attempts' calls,
      loop_of fuel w e idx total rc attempts
        = Some (EntryDone w' true attempts') /\
      result_file w' = Some (array_text (map dumps (outs ++ [o]))) /\
      out_key o = entry_ids e /\
      (flag_sound total (resume w) -> flag_sound total (resume w')) /\
      (attempts < attempts')%nat /\
      Z.of_nat attempts' <= Z.of_nat attempts + Z.max 1 (max_retries - rc) /\
      llm_calls w' = llm_calls w ++ repeat (entry_ids e) calls /\
      (calls <= attempts' - attempts)%nat.
Proof.
  intros Ht. induction fuel as [|fuel IH]; intros w rc attempts Hrc Hfuel Hf;
    [lia|].
  cbn [retry_loop]. destruct (Z.leb_spec rc max_retries); [|lia].
  destruct (@attempt_cases w e idx total outs Ht Hf)
    as (w1 & c & Hc & Hcalls &
        [(o & -> & Hk & Hres & Hrsm)|(msg & -> & Hres & Hrsm)]).
  - exists w1, o, (S attempts), c.
    split; [reflexivity|]. split; [exact Hres|]. split; [exact Hk|].
    split; [intros _; rewrite Hrsm; apply flag_sound_saved|].
    split; [lia|]. split; [lia|]. split; [exact Hcalls|lia].
  - destruct (Z.leb_spec max_retries (rc + 1)) as [Hlim|Hlim].
    + rewrite (@handle_at_limit dumps max_retries w1 e msg (rc + 1) (map dumps outs))
        by (try lia; rewrite Hres; exact Hf).
      eexists. exists (sentinel e), (S attempts), c.
      split; [reflexivity|]. cbn [result_file resume llm_calls].
      split; [now rewrite map_app|].
      split; [apply sentinel_is_empty|].
      split; [intros Hs; apply flag_sound_add_failed_entry; now rewrite Hrsm|].
      split; [lia|]. split; [lia|]. split; [exact Hcalls|lia].
    + rewrite handle_below by lia.
      destruct (IH (set_resume w1 (add_failed_entry e (Some msg) (resume w1)))
                   (rc + 1) (S attempts))
        as (w' & o & a' & c' & Hl & R1 & R2 & R3 & R4 & R5 & R6 & R7).
      * lia.
      * lia.
      * cbn [set_resume result_file]. rewrite Hres. exact Hf.
      * exists w', o, a', (c + c')%nat.
        split; [exact Hl|]. split; [exact R1|]. split; [exact R2|].
        split.
        { intros Hs. apply R3. cbn [set_resume resume].
          apply flag_sound_add_failed_entry. now rewrite Hrsm. }
        split; [lia|]. split; [lia|]. split; [|lia].
        rewrite R6. cbn [set_resume llm_calls]. rewrite Hcalls.
        rewrite <- app_assoc, repeat_app. reflexivity.
Qed.

Lemma process_entry_general w e idx total outs :
  0 <= max_retries ->
  total <> 0 ->
  file_holds (map dumps outs) (result_file w) ->
  exists w' o attempts calls,
    entry_of w e idx total = Some (EntryDone w' true attempts) /\
    result_file w' = Some (array_text (map dumps (outs ++ [o]))) /\
    out_key o = entry_ids e /\
    (flag_sound total (resume w) -> flag_sound total (resume w')) /\
    (1 <= attempts)%nat /\ Z.of_nat attempts <= Z.max 1 max_retries /\
    llm_calls w' = llm_calls w ++ repeat (entry_ids e) calls /\
    (calls <= attempts)%nat.
Proof.
  intros Hm Ht Hf. unfold _process_entry.
  destruct (@retry_loop_general e idx total outs Ht
              (S (Z.to_nat (max_retries + 1))) w 0 0%nat)
    as (w' & o & a' & c' & Hl & R1 & R2 & R3 & R4 & R5 & R6 & R7);
    [lia|lia|exact Hf|].
  exists w', o, a', c'. split; [exact Hl|]. split; [exact R1|].
  split; [exact R2|]. split; [exact R3|]. split; [lia|].
  split; [lia|]. split; [exact R6|lia].
Qed.

(** X9.  One output per record, whatever the chat call does: on a
    result file in the writer's layout, [_process_entry] ends with
    success, having appended exactly one record with the identity of the
    input record, after at least one and at most [max(1, max_retries)]
    attempts and no more chat calls than attempts. *)
Theorem process_entry_one_output (w : world) (e : entry) (idx total : Z)
    (outs : list out_entry) :
  0 <= max_retries ->
  total <> 0 ->
  file_holds (map dumps outs) (result_file w) ->
  exists w' o attempts calls,
    entry_of w e idx total = Some (EntryDone w' true attempts) /\
    result_file w' = Some (array_text (map dumps (outs ++ [o]))) /\
    out_key o = entry_ids e /\
    (1 <= attempts)%nat /\ Z.of_nat attempts <= Z.max 1 max_retries /\
    llm_calls w' = llm_calls w ++ repeat (entry_ids e) calls /\
    (calls <= attempts)%nat.
Proof.
  intros Hm Ht Hf.
  destruct (@process_entry_general w e idx total outs Hm Ht Hf)
    as (w' & o & a & c & H1 & H2 & H3 & _ & H5 & H6 & H7 & H8).
  exists w', o, a, c. auto 10.
Qed.

Lemma file_holds_map_snoc outs o :
  file_holds (map dumps (outs ++ [o]))
             (Some (array_text (map dumps (outs ++ [o])))).
Proof. rewrite map_app. apply file_holds_snoc. Qed.

(** The loop over the records, from any world whose result file is in
    the writer's layout. *)
Lemma process_entries_general start total :
  0 <= max_retries ->
  total <> 0 ->
  forall es w idx outs,
    start <= idx ->
    file_holds (map dumps outs) (result_file w) ->
    exists w' outs',
      entries_of w es idx start total = Some (w', true) /\
      file_holds (map dumps (outs ++ outs')) (result_file w') /\
      map out_key outs' = map entry_ids es /\
      (flag_sound total (resume w) -> flag_sound total (resume w')) /\
      Z.of_nat (List.length (llm_calls w'))
      <= Z.of_nat (List.length (llm_calls w))
         + Z.of_nat (List.length es) * Z.max 1 max_retries.
Proof.
  intros Hm Ht. induction es as [|e es IH]; intros w idx outs Hi Hf.
  - exists w, []. cbn [process_entries map List.length]. rewrite app_nil_r.
    split; [reflexivity|]. split; [exact Hf|]. split; [reflexivity|].
    split; [auto|lia].
  - cbn [process_entries]. destruct (Z.ltb_spec idx start); [lia|].
    destruct (@process_entry_general w e idx total outs Hm Ht Hf)
      as (w1 & o & a & c & -> & H2 & H3 & H4 & H5 & H6 & H7 & H8).
    destruct (IH w1 (idx + 1) (outs ++ [o])) as (w' & outs' & E & F1 & F2 & F3 & F4).
    + lia.
    + rewrite H2. apply file_holds_map_snoc.
    + exists w', (o :: outs'). split; [exact E|].
      split; [now rewrite <- app_assoc in F1|].
      split; [cbn [map]; now rewrite H3, F2|].
      split; [auto|].
      rewrite H7, length_app, repeat_length in F4.
      cbn [List.length]. nia.
Qed.

Lemma process_entries_skip start total pre : forall rest w idx,
  idx + Z.of_nat (List.length pre) <= start ->
  entries_of w (pre ++ rest) idx start total
  = entries_of w rest (idx + Z.of_nat (List.length pre)) start total.
Proof.
  induction pre as [|e pre IH]; intros rest w idx H;
    cbn [app List.length] in H |- *.
  - now rewrite Z.add_0_r.
  - rewrite Nat2Z.inj_succ in H |- *. rewrite step_skip by lia.
    rewrite IH by lia. f_equal. lia.
Qed.

Lemma start_job_fresh data :
  start_job fresh data = inr (fresh, 0).
Proof. reflexivity. Qed.

(** X10.  A run from scratch covers the data file: started with no
    file, [process_model_streaming] returns, and the result file then
    holds exactly one record per input record, in input order and with
    the identity of that input record; no more than
    [max(1, max_retries)] chat calls were made per record. *)
Theorem fresh_run_one_output_per_record (data : list entry) :
  0 <= max_retries ->
  data <> [] ->
  exists w outs done,
    run_of fresh data = Some (JobReturned w done) /\
    result_file w = Some (array_text (map dumps outs)) /\
    map out_key outs = map entry_ids data /\
    Z.of_nat (List.length (llm_calls w))
    <= Z.of_nat (List.length data) * Z.max 1 max_retries.
Proof.
  intros Hm Hne. unfold process_model_streaming. rewrite start_job_fresh.
  assert (Ht : Z.of_nat (List.length data) <> 0)
    by (destruct data; [contradiction|cbn [List.length]; lia]).
  destruct (@process_entries_general 0 (Z.of_nat (List.length data)) Hm Ht
              data fresh 0 []) as (w & outs & -> & F1 & F2 & _ & F4);
    [lia|now left|].
  exists w, outs. eexists. split; [reflexivity|].
  cbn [app] in F1. split; [|split; [exact F2|exact F4]].
  destruct outs as [|o outs]; [|exact F1].
  destruct data; [contradiction|discriminate].
Qed.

(** The restarted run after a kill with the index of the last record done
    saved. *)
Lemma rerun_after_saved_index (data : list entry) (k : nat) (wk : world) :
  0 <= max_retries ->
  (1 <= k <= List.length data)%nat ->
  killed_of k fresh data = Some wk ->
  resume_index (resume wk) = Some (Z.of_nat k) ->
  exists w outs done,
    run_of wk data = Some (JobReturned w done) /\
    result_file w = Some (array_text (map dumps outs)) /\
    map out_key outs = map entry_ids data.
Proof.
  intros Hm Hk Hkill Hidx.
  assert (Ht : Z.of_nat (List.length data) <> 0) by lia.
  unfold killed_after in Hkill. rewrite start_job_fresh in Hkill.
  destruct (@process_entries_general 0 (Z.of_nat (List.length data)) Hm Ht
              (firstn k data) fresh 0 [])
    as (w1 & outs1 & E1 & F1 & F2 & F3 & _); [lia|now left|].
  rewrite E1 in Hkill. injection Hkill as ->. cbn [app] in F1.
  assert (Hs : flag_sound (Z.of_nat (List.length data)) (resume wk))
    by (apply F3; exact I).
  assert (Hlen : List.length outs1 = k).
  { apply (f_equal (@List.length key)) in F2.
    rewrite !length_map, length_firstn in F2. lia. }
  assert (Hfile : result_file wk = Some (array_text (map dumps outs1))).
  { destruct outs1 as [|o outs1]; [cbn [List.length] in Hlen; lia|exact F1]. }
  destruct (resume wk) as [d|] eqn:Hr; [|discriminate].
  cbn [resume_index] in Hidx.
  unfold process_model_streaming, start_job. rewrite Hr.
  destruct (fst (is_model_completed true (Some d))) eqn:Hdone.
  - (* reported completed: every record was done before the kill *)
    apply is_model_completed_spec in Hdone. destruct Hdone as [Hc _].
    cbn [flag_sound] in Hs. destruct (Hs Hc) as (i & Hi & Hle).
    rewrite Hidx in Hi. injection Hi as <-.
    assert (Hall : k = List.length data) by lia.
    rewrite Hall, firstn_all in F2.
    exists wk, outs1, true. auto.
  - assert (Hfind : find_resume_point true (List.length data) true (Some d)
                      (result_file wk) = (Z.of_nat k, result_file wk)).
    { unfold find_resume_point, get_resume_data. rewrite Hidx.
      destruct (Z.leb_spec 0 (Z.of_nat k)); [|lia].
      destruct (Z.leb_spec (Z.of_nat k) (Z.of_nat (List.length data))); [|lia].
      reflexivity. }
    rewrite Hfind.
    assert (Hw : set_result wk (result_file wk) = wk) by (now destruct wk).
    rewrite Hw.
    replace (entries_of wk data 0 (Z.of_nat k) (Z.of_nat (List.length data)))
      with (entries_of wk (firstn k data ++ skipn k data) 0 (Z.of_nat k)
              (Z.of_nat (List.length data)))
      by (now rewrite firstn_skipn).
    rewrite process_entries_skip
      by (rewrite length_firstn; lia).
    rewrite length_firstn.
    replace (0 + Z.of_nat (Nat.min k (List.length data))) with (Z.of_nat k) by lia.
    destruct (@process_entries_general (Z.of_nat k) (Z.of_nat (List.length data))
                Hm Ht (skipn k data) wk (Z.of_nat k) outs1)
      as (w2 & outs2 & -> & G1 & G2 & _ & _); [lia|exact F1|].
    exists w2, (outs1 ++ outs2). eexists. split; [reflexivity|]. split.
    + destruct (outs1 ++ outs2) as [|o os] eqn:E; [|exact G1].
      apply app_eq_nil in E. destruct E as [-> _]. cbn [List.length] in Hlen. lia.
    + rewrite map_app, F2, G2, <- map_app, firstn_skipn. reflexivity.
Qed.

(** X11.  Resuming after a saved index: when the run is killed once
    [k] records are done and the resume file holds the index [k] (the
    last record done ended with a successful attempt), the restarted run
    returns and the result file holds exactly one record per input
    record, in input order, with the identities of the input records:
    nothing is lost and nothing is written twice. *)
Theorem resume_after_saved_index (data : list entry) (k : nat) (wk : world) :
  0 <= max_retries ->
  (1 <= k <= List.length data)%nat ->
  killed_of k fresh data = Some wk ->
  resume_index (resume wk) = Some (Z.of_nat k) ->
  exists w outs done,
    run_of wk data = Some (JobReturned w done) /\
    result_file w = Some (array_text (map dumps outs)) /\
    map out_key outs = map entry_ids data.
Proof.
  intros Hm Hk Hkill Hidx.
  destruct (@rerun_after_saved_index data k wk Hm Hk Hkill Hidx)
    as (w & outs & done & H1 & H2 & H3).
  exists w, outs, done. auto.
Qed.

(** The loop over the records when every chat call returns: each record
    is stored at its first attempt and the resume point follows. *)
Lemma process_entries_all_answered start total :
  0 <= max_retries ->
  total <> 0 ->
  (forall n e, exists r, call_ollama_chat n e = LlmReturns r) ->
  forall es w idx outs,
    start <= idx ->
    file_holds (map dumps outs) (result_file w) ->
    get_failed_entries (resume w) = [] ->
    exists w' outs',
      entries_of w es idx start total = Some (w', true) /\
      file_holds (map dumps (outs ++ outs')) (result_file w') /\
      map out_key outs' = map entry_ids es /\
      get_failed_entries (resume w') = [] /\
      (es <> [] ->
       exists d, resume w' = Some d /\
                 index d = Some (idx + Z.of_nat (List.length es)) /\
                 completed d = Some (total <=? idx + Z.of_nat (List.length es))).
Proof.
  intros Hm Ht Hall. induction es as [|e es IH]; intros w idx outs Hi Hf Hl.
  - exists w, []. cbn [process_entries map]. rewrite app_nil_r.
    split; [reflexivity|]. split; [exact Hf|]. split; [reflexivity|].
    split; [exact Hl|]. intros H. contradiction.
  - cbn [process_entries]. destruct (Z.ltb_spec idx start); [lia|].
    unfold _process_entry. cbn [retry_loop].
    destruct (Z.leb_spec 0 max_retries); [|lia].
    destruct (@attempt_cases w e idx total outs Ht Hf)
      as (w1 & c & Hc & Hcalls &
          [(o & -> & Hk & Hres & Hrsm)|(msg & Hraised & _ & _)]).
    + destruct (IH w1 (idx + 1) (outs ++ [o]))
        as (w' & outs' & E & F1 & F2 & F3 & F4).
      * lia.
      * rewrite Hres. apply file_holds_map_snoc.
      * rewrite Hrsm, Hl. reflexivity.
      * exists w', (o :: outs'). split; [exact E|].
        split; [now rewrite <- app_assoc in F1|].
        split; [cbn [map]; now rewrite Hk, F2|].
        split; [exact F3|]. intros _.
        destruct es as [|e2 es].
        { cbn [process_entries] in E. injection E as <-.
          eexists. split; [exact Hrsm|]. cbn [index completed List.length].
          split; reflexivity. }
        { destruct F4 as (d & D1 & D2 & D3); [discriminate|].
          exists d. split; [exact D1|].
          rewrite D2, D3. cbn [List.length]. rewrite !Nat2Z.inj_succ.
          split; [f_equal; lia|]. f_equal. f_equal. lia. }
    + (* the attempt cannot raise when the chat call returns *)
      exfalso. unfold _process_entry_attempt, interact_with_llm in Hraised.
      destruct (match retry_file (entry_ids e) with
                | Some retry_count => max_retries <=? retry_count
                | None => false
                end).
      * rewrite (@write_holds dumps (map dumps outs) (sentinel e) (result_file w) Hf)
          in Hraised.
        cbn [set_result resume] in Hraised.
        rewrite save_resume_point_nonzero in Hraised by assumption.
        discriminate.
      * destruct (Hall (List.length (llm_calls w)) e) as [r Hr].
        rewrite Hr in Hraised. cbn [log_call result_file] in Hraised.
        rewrite (@write_holds dumps (map dumps outs) _ (result_file w) Hf)
          in Hraised.
        cbn [set_result resume] in Hraised.
        rewrite save_resume_point_nonzero in Hraised by assumption.
        discriminate.
Qed.

(** X12.  A job whose chat calls all return is completed at the end of
    its first run, and a second run is skipped: it returns at once,
    makes no chat call and leaves the files as they are. *)
Theorem completed_job_is_skipped (data : list entry) :
  0 <= max_retries ->
  data <> [] ->
  (forall n e, exists r, call_ollama_chat n e = LlmReturns r) ->
  exists w outs,
    run_of fresh data = Some (JobReturned w true) /\
    result_file w = Some (array_text (map dumps outs)) /\
    map out_key outs = map entry_ids data /\
    resume_index (resume w) = Some (Z.of_nat (List.length data)) /\
    run_of w data = Some (JobReturned w true).
Proof.
  intros Hm Hne Hall.
  assert (Ht : Z.of_nat (List.length data) <> 0)
    by (destruct data; [contradiction|cbn [List.length]; lia]).
  destruct (@process_entries_all_answered 0 (Z.of_nat (List.length data)) Hm Ht
              Hall data fresh 0 [])
    as (w & outs & E & F1 & F2 & F3 & F4); [lia|now left|reflexivity|].
  destruct (F4 Hne) as (d & D1 & D2 & D3).
  rewrite Z.add_0_l in D2, D3. rewrite Z.leb_refl in D3.
  assert (Hdone : fst (is_model_completed true (resume w)) = true).
  { rewrite D1. apply is_model_completed_spec. split; [exact D3|].
    rewrite <- D1, F3. constructor. }
  exists w, outs.
  split; [unfold process_model_streaming; rewrite start_job_fresh, E, Hdone;
          reflexivity|].
  split.
  { cbn [app] in F1. destruct outs as [|o outs]; [|exact F1].
    destruct data; [contradiction|discriminate]. }
  split; [exact F2|]. split; [rewrite D1; exact D2|].
  unfold process_model_streaming, start_job. now rewrite Hdone.
Qed.

(** X13.  A negative [max_retries] processes nothing: the retry loop
    is not entered for any record, so the run makes no chat call, writes
    no file and reports the job as not completed. *)
Theorem negative_max_retries_processes_nothing (data : list entry) :
  max_retries < 0 ->
  run_of fresh data = Some (JobReturned fresh false).
Proof.
  intros Hm. unfold process_model_streaming. rewrite start_job_fresh.
  assert (H : forall es idx,
            entries_of fresh es idx 0 (Z.of_nat (List.length data))
            = Some (fresh, true)).
  { induction es as [|e es IH]; intros idx; cbn [process_entries]; [reflexivity|].
    destruct (Z.ltb_spec idx 0); [apply IH|].
    unfold _process_entry. cbn [retry_loop].
    destruct (Z.leb_spec 0 max_retries); [lia|]. apply IH. }
  rewrite H. reflexivity.
Qed.

(** With a negative [max_retries] the loop over the records changes
    nothing. *)
Lemma process_entries_negative total :
  max_retries < 0 ->
  forall es w idx start,
    entries_of w es idx start total = Some (w, true).
Proof.
  intros Hm. induction es as [|e es IH]; intros w idx start;
    cbn [process_entries]; [reflexivity|].
  destruct (Z.ltb_spec idx start); [apply IH|].
  unfold _process_entry. cbn [retry_loop].
  destruct (Z.leb_spec 0 max_retries); [lia|]. apply IH.
Qed.

(** C1.  Resume idempotence: when the run from scratch is killed after
    record [k] ([0 < k < N]) has been fully processed, its output
    appended and its resume state saved (the resume file holds the index
    [k]), the restarted run returns, and so does the uninterrupted run;
    both result files hold exactly one record per input record, with the
    identity keys of the input records in input order: the same [N]
    records by identity key, no duplicate and no missing record. *)
Theorem resume_idempotence (data : list entry) (k : nat) (wk : world) :
  (0 < k < List.length data)%nat ->
  killed_of k fresh data = Some wk ->
  resume_index (resume wk) = Some (Z.of_nat k) ->
  exists wu outs_u done_u wr outs_r done_r,
    run_of fresh data = Some (JobReturned wu done_u) /\
    result_file wu = Some (array_text (map dumps outs_u)) /\
    run_of wk data = Some (JobReturned wr done_r) /\
    result_file wr = Some (array_text (map dumps outs_r)) /\
    map out_key outs_r = map out_key outs_u /\
    map out_key outs_r = map entry_ids data /\
    List.length outs_r = List.length data.
Proof.
  intros Hk Hkill Hidx.
  assert (Ht : Z.of_nat (List.length data) <> 0) by lia.
  assert (Hm : 0 <= max_retries).
  { destruct (Z.le_gt_cases 0 max_retries) as [H|H]; [exact H|].
    exfalso. unfold killed_after in Hkill. rewrite start_job_fresh in Hkill.
    rewrite (@process_entries_negative (Z.of_nat (List.length data))) in Hkill
      by lia.
    injection Hkill as <-. discriminate Hidx. }
  destruct (@process_entries_general 0 (Z.of_nat (List.length data)) Hm Ht
              data fresh 0 []) as (wu & outs_u & Eu & F1 & F2 & _ & _);
    [lia|now left|].
  destruct (@rerun_after_saved_index data k wk Hm) as (wr & outs_r & done_r & R1 & R2 & R3);
    [lia|exact Hkill|exact Hidx|].
  exists wu, outs_u. eexists. exists wr, outs_r, done_r.
  split; [unfold process_model_streaming; rewrite start_job_fresh, Eu; reflexivity|].
  split.
  { cbn [app] in F1. destruct outs_u as [|o outs_u]; [|exact F1].
    destruct data; [cbn [List.length] in Ht; lia|discriminate]. }
  split; [exact R1|]. split; [exact R2|].
  split; [now rewrite R3, F2|]. split; [exact R3|].
  apply (f_equal (@List.length key)) in R3. now rewrite !length_map in R3.
Qed.

(** ** A result file the writer refuses *)

Lemma handle_refused w e msg rc :
  max_retries <= rc ->
  write_to_json dumps (sentinel e) (result_file w) = WriteValueError ->
  handle_of w e msg rc
  = HandlerRaised (set_resume w (add_failed_entry e (Some msg) (resume w))).
Proof.
  intros H Hw. unfold _handle_entry_error.
  destruct (Z.leb_spec max_retries rc); [|lia].
  cbn [set_resume result_file]. now rewrite Hw.
Qed.

(** A record whose chat call always raises, on a result file that
    refuses the sentinel: the loop makes one attempt per permitted
    failure, then the append of the sentinel raises out of the
    handler. *)
Lemma retry_loop_refused e idx total :
  retry_file (entry_ids e) = None ->
  (forall n, exists msg, call_ollama_chat n e = LlmRaises msg) ->
  forall k fuel w rc attempts,
    Z.to_nat (max_retries - rc - 1) = k ->
    rc <= max_retries ->
    (k < fuel)%nat ->
    write_to_json dumps (sentinel e) (result_file w) = WriteValueError ->
    exists w',
      loop_of fuel w e idx total rc attempts
        = Some (EntryAborted w' (attempts + S k)) /\
      result_file w' = result_file w /\
      llm_calls w' = llm_calls w ++ repeat (entry_ids e) (S k).
Proof.
  intros Hr Hc. induction k as [|k IH]; intros fuel w rc attempts Hk Hrc Hfuel Hw;
    (destruct fuel as [|fuel]; [lia|]); cbn [retry_loop];
    (destruct (Z.leb_spec rc max_retries); [|lia]);
    destruct (Hc (List.length (llm_calls w))) as [msg Hmsg];
    rewrite (@attempt_raises dumps ns_to_seconds call_ollama_chat retry_file
               max_retries w e idx total msg Hr Hmsg).
  - rewrite handle_refused by (cbn [log_call result_file]; (lia || assumption)).
    replace (attempts + 1)%nat with (S attempts) by lia.
    eexists. split; [reflexivity|]. split; reflexivity.
  - rewrite (@handle_below dumps max_retries) by lia.
    destruct (Z.leb_spec max_retries (rc + 1)); [lia|].
    destruct (IH fuel (set_resume (log_call w e)
                         (add_failed_entry e (Some msg) (resume (log_call w e))))
                 (rc + 1) (S attempts)) as (w' & Hl & Hres & Hcalls);
      try (lia || assumption).
    exists w'. split; [|split].
    + rewrite Hl. do 2 f_equal. lia.
    + exact Hres.
    + rewrite Hcalls. cbn [set_resume log_call llm_calls repeat].
      rewrite <- app_assoc. reflexivity.
Qed.

(** C6.  Retry bound within one run, on a result file that
    [write_to_json] refuses (one that does not end with the closing
    bracket or does not begin with the opening one): a record whose chat
    call always raises is attempted [max(1, max_retries)] times, within
    the bound, but then the append of the sentinel raises [ValueError]
    out of [_handle_entry_error]; no record is written for it,
    [_process_entry] is left by the exception, and so is
    [process_model_streaming]: the records after it are not processed
    in this run. *)
Theorem permanent_failure_aborts_batch (w : world) (e : entry)
    (pre rest : list entry) :
  0 <= max_retries ->
  retry_file (entry_ids e) = None ->
  (forall n, exists msg, call_ollama_chat n e = LlmRaises msg) ->
  write_to_json dumps (sentinel e) (result_file w) = WriteValueError ->
  start_job w (pre ++ e :: rest) = inr (w, Z.of_nat (List.length pre)) ->
  exists w' attempts,
    entry_of w e (Z.of_nat (List.length pre))
      (Z.of_nat (List.length (pre ++ e :: rest)))
    = Some (EntryAborted w' attempts) /\
    (1 <= attempts)%nat /\ Z.of_nat attempts <= max_retries + 1 /\
    (max_retries = 3 -> attempts = 3%nat) /\
    result_file w' = result_file w /\
    llm_calls w' = llm_calls w ++ repeat (entry_ids e) attempts /\
    run_of w (pre ++ e :: rest) = Some (JobRaised w').
Proof.
  intros Hm Hr Hc Hw Hstart.
  destruct (@retry_loop_refused e (Z.of_nat (List.length pre))
              (Z.of_nat (List.length (pre ++ e :: rest))) Hr Hc
              (Z.to_nat (max_retries - 0 - 1)) (S (Z.to_nat (max_retries + 1)))
              w 0 0%nat eq_refl Hm) as (w' & Hl & Hres & Hcalls);
    [lia|exact Hw|].
  exists w', (S (Z.to_nat (max_retries - 0 - 1))).
  assert (He : entry_of w e (Z.of_nat (List.length pre))
                 (Z.of_nat (List.length (pre ++ e :: rest)))
               = Some (EntryAborted w' (S (Z.to_nat (max_retries - 0 - 1)))))
    by exact Hl.
  split; [exact He|]. split; [lia|]. split; [lia|].
  split; [intros ->; reflexivity|].
  split; [exact Hres|]. split; [exact Hcalls|].
  unfold process_model_streaming. rewrite Hstart.
  rewrite process_entries_skip by lia.
  cbn [process_entries]. rewrite Z.add_0_l.
  destruct (Z.ltb_spec (Z.of_nat (List.length pre)) (Z.of_nat (List.length pre)));
    [lia|].
  now rewrite He.
Qed.


End DriverRuns.

Section DriverRunsExamples.

Import Text Json Resume Driver DriverSample.
Local Open Scope Z_scope.

Lemma process_entry_one_output_witness :
  exists w' o attempts calls,
    _process_entry sample_dumps sample_ns_to_seconds fails_on_2 no_retry_file 3
      fresh (record 2) 0 1 = Some (EntryDone w' true attempts) /\
    result_file w' = Some (array_text (map sample_dumps ([] ++ [o]))) /\
    out_key o = entry_ids (record 2) /\
    (1 <= attempts)%nat /\ Z.of_nat attempts <= Z.max 1 3 /\
    llm_calls w' = llm_calls fresh ++ repeat (entry_ids (record 2)) calls /\
    (calls <= attempts)%nat.
Proof.
  apply (@process_entry_one_output sample_dumps sample_ns_to_seconds fails_on_2
           no_retry_file 3 fresh (record 2) 0 1 []).
  - lia.
  - lia.
  - left. reflexivity.
Defined.

Lemma fresh_run_one_output_per_record_witness :
  exists w outs done,
    process_model_streaming sample_dumps sample_ns_to_seconds fails_on_2
      no_retry_file 3 fresh [record 1; record 2] = Some (JobReturned w done) /\
    result_file w = Some (array_text (map sample_dumps outs)) /\
    map out_key outs = map entry_ids [record 1; record 2] /\
    Z.of_nat (List.length (llm_calls w))
    <= Z.of_nat (List.length [record 1; record 2]) * Z.max 1 3.
Proof.
  apply (@fresh_run_one_output_per_record sample_dumps sample_ns_to_seconds
           fails_on_2 no_retry_file 3 [record 1; record 2]).
  - lia.
  - discriminate.
Defined.

Lemma resume_after_saved_index_witness :
  exists w outs done,
    process_model_streaming sample_dumps sample_ns_to_seconds fails_on_2
      no_retry_file 3
      (after_answer sample_dumps sample_ns_to_seconds fresh (record 1) 0 2 [] answer)
      [record 1; record 2] = Some (JobReturned w done) /\
    result_file w = Some (array_text (map sample_dumps outs)) /\
    map out_key outs = map entry_ids [record 1; record 2].
Proof.
  apply (@resume_after_saved_index sample_dumps sample_ns_to_seconds fails_on_2
           no_retry_file 3 [record 1; record 2] 1
           (after_answer sample_dumps sample_ns_to_seconds fresh (record 1) 0 2 []
              answer)).
  - lia.
  - cbn [List.length]. lia.
  - vm_compute. reflexivity.
  - reflexivity.
Defined.

Lemma completed_job_is_skipped_witness :
  exists w outs,
    process_model_streaming sample_dumps sample_ns_to_seconds always_answers
      no_retry_file 3 fresh [record 1; record 2] = Some (JobReturned w true) /\
    result_file w = Some (array_text (map sample_dumps outs)) /\
    map out_key outs = map entry_ids [record 1; record 2] /\
    resume_index (resume w) = Some (Z.of_nat (List.length [record 1; record 2])) /\
    process_model_streaming sample_dumps sample_ns_to_seconds always_answers
      no_retry_file 3 w [record 1; record 2] = Some (JobReturned w true).
Proof.
  apply (@completed_job_is_skipped sample_dumps sample_ns_to_seconds
           always_answers no_retry_file 3 [record 1; record 2]).
  - lia.
  - discriminate.
  - intros n e. exists answer. reflexivity.
Defined.

Lemma negative_max_retries_processes_nothing_witness :
  process_model_streaming sample_dumps sample_ns_to_seconds always_answers
    no_retry_file (-1) fresh [record 1; record 2]
  = Some (JobReturned fresh false).
Proof.
  apply (@negative_max_retries_processes_nothing sample_dumps
           sample_ns_to_seconds always_answers no_retry_file (-1)
           [record 1; record 2]).
  lia.
Defined.

Lemma resume_idempotence_witness :
  exists wu outs_u done_u wr outs_r done_r,
    process_model_streaming sample_dumps sample_ns_to_seconds fails_on_2
      no_retry_file 3 fresh [record 1; record 2; record 3]
    = Some (JobReturned wu done_u) /\
    result_file wu = Some (array_text (map sample_dumps outs_u)) /\
    process_model_streaming sample_dumps sample_ns_to_seconds fails_on_2
      no_retry_file 3
      (after_answer sample_dumps sample_ns_to_seconds fresh (record 1) 0 3 [] answer)
      [record 1; record 2; record 3]
    = Some (JobReturned wr done_r) /\
    result_file wr = Some (array_text (map sample_dumps outs_r)) /\
    map out_key outs_r = map out_key outs_u /\
    map out_key outs_r = map entry_ids [record 1; record 2; record 3] /\
    List.length outs_r = List.length [record 1; record 2; record 3].
Proof.
  apply (@resume_idempotence sample_dumps sample_ns_to_seconds fails_on_2
           no_retry_file 3 [record 1; record 2; record 3] 1
           (after_answer sample_dumps sample_ns_to_seconds fresh (record 1) 0 3 []
              answer)).
  - cbn [List.length]. lia.
  - vm_compute. reflexivity.
  - reflexivity.
Defined.

(** The result file of record 1 with a line feed after the closing
    bracket, the resume file at index 1 of 3, and record 2 always
    failing. *)
Lemma permanent_failure_aborts_batch_witness :
  exists w' attempts,
    _process_entry sample_dumps sample_ns_to_seconds fails_on_2 no_retry_file 3
      (set_result
         (after_answer sample_dumps sample_ns_to_seconds fresh (record 1) 0 3 []
            answer)
         (Some (array_text
                  [sample_dumps (answered sample_ns_to_seconds (record 1) answer)]
                ++ [NEWLINE])))
      (record 2) (Z.of_nat (List.length [record 1]))
      (Z.of_nat (List.length ([record 1] ++ record 2 :: [record 3])))
    = Some (EntryAborted w' attempts) /\
    (1 <= attempts)%nat /\ Z.of_nat attempts <= 3 + 1 /\
    (3 = 3 -> attempts = 3%nat) /\
    result_file w'
    = result_file
        (set_result
           (after_answer sample_dumps sample_ns_to_seconds fresh (record 1) 0 3 []
              answer)
           (Some (array_text
                    [sample_dumps (answered sample_ns_to_seconds (record 1) answer)]
                  ++ [NEWLINE]))) /\
    llm_calls w'
    = llm_calls
        (set_result
           (after_answer sample_dumps sample_ns_to_seconds fresh (record 1) 0 3 []
              answer)
           (Some (array_text
                    [sample_dumps (answered sample_ns_to_seconds (record 1) answer)]
                  ++ [NEWLINE])))
      ++ repeat (entry_ids (record 2)) attempts /\
    process_model_streaming sample_dumps sample_ns_to_seconds fails_on_2
      no_retry_file 3
      (set_result
         (after_answer sample_dumps sample_ns_to_seconds fresh (record 1) 0 3 []
            answer)
         (Some (array_text
                  [sample_dumps (answered sample_ns_to_seconds (record 1) answer)]
                ++ [NEWLINE])))
      ([record 1] ++ record 2 :: [record 3])
    = Some (JobRaised w').
Proof.
  apply (@permanent_failure_aborts_batch sample_dumps sample_ns_to_seconds
           fails_on_2 no_retry_file 3
           (set_result
              (after_answer sample_dumps sample_ns_to_seconds fresh (record 1) 0 3
                 [] answer)
              (Some (array_text
                       [sample_dumps
                          (answered sample_ns_to_seconds (record 1) answer)]
                     ++ [NEWLINE])))
           (record 2) [record 1] [record 3]).
  - lia.
  - reflexivity.
  - intros n. eexists. reflexivity.
  - vm_compute. reflexivity.
  - vm_compute. reflexivity.
Defined.


End DriverRunsExamples.

(** ** Reading back what the writer wrote *)

Section RoundTripFacts.

Import Text Json.
Local Open Scope N_scope.

Variable value : Type.
Variable raw_decode : text -> decoded value.
Variable entry : Type.
Variable dumps : entry -> text.
Variable to_value : entry -> value.

Hypothesis contract : scanner_contract raw_decode.
Hypothesis roundtrip : dumps_contract raw_decode dumps to_value.

Lemma lstrip_value c r : value_start c = true -> lstrip (c :: r) = c :: r.
Proof.
  intros H. destruct (@value_start_inv _ H) as (Hsp & _).
  now apply drop_while_head.
Qed.

Lemma stream_loop_nonempty fuel content objs :
  content <> [] ->
  stream_loop raw_decode (S fuel) content objs
  = match raw_decode content with
    | Decoded obj idx =>
        let content1 := lstrip (slice_from content idx) in
        let content2 :=
          if startswith content1 COMMA
          then lstrip (slice_from content1 1) else content1 in
        if startswith content2 RBRACKET
        then Some (Streamed (objs ++ [obj]) StopIteration)
        else stream_loop raw_decode fuel content2 (objs ++ [obj])
    | JSONDecodeError _ msg =>
        if (contains "Expecting value" msg
            && startswith (strip content) RBRACKET)%bool
        then Some (Streamed objs StopIteration)
        else Some (Streamed objs (DecodeError msg))
    end.
Proof. destruct content; [contradiction|reflexivity]. Qed.

Lemma dumps_app_nonempty e rest : dumps e ++ rest <> [].
Proof.
  destruct (@dumps_start _ _ _ _ _ contract roundtrip e) as (c & r & -> & _).
  discriminate.
Qed.

(** The loop of the generator on the records the writer laid out,
    followed by a text that is blank or begins, after blanks, with the
    closing bracket. *)
Lemma stream_loop_array_body es : forall e acc fuel tail,
  lstrip tail = [] \/ startswith (lstrip tail) RBRACKET = true ->
  (S (List.length es) < fuel)%nat ->
  stream_loop raw_decode fuel (array_body (map dumps (e :: es)) ++ tail) acc
  = Some (Streamed (acc ++ map to_value (e :: es)) StopIteration).
Proof.
  induction es as [|e2 es IH]; intros e acc fuel tail Ht Hf;
    (destruct fuel as [|fuel]; [lia|]).
  - cbn [map array_body].
    rewrite stream_loop_nonempty by apply dumps_app_nonempty.
    rewrite roundtrip. unfold slice_from.
    rewrite skipn_app, skipn_all, Nat.sub_diag. cbn [skipn app]. cbv zeta.
    destruct Ht as [Ht|Ht].
    + rewrite Ht. cbn [startswith].
      destruct fuel as [|fuel]; [cbn [List.length] in Hf; lia|].
      reflexivity.
    + destruct (lstrip tail) as [|d t] eqn:El; [discriminate|].
      cbn [startswith] in Ht |- *. apply N.eqb_eq in Ht. subst d.
      change (RBRACKET =? COMMA) with false. cbv iota. cbn [startswith].
      change (RBRACKET =? RBRACKET) with true. reflexivity.
  - change (array_body (map dumps (e :: e2 :: es)) ++ tail)
      with ((dumps e ++ [NEWLINE; COMMA; NEWLINE]
             ++ array_body (map dumps (e2 :: es))) ++ tail).
    rewrite <- app_assoc.
    rewrite stream_loop_nonempty by apply dumps_app_nonempty.
    rewrite roundtrip. unfold slice_from.
    rewrite skipn_app, skipn_all, Nat.sub_diag. cbn [skipn app]. cbv zeta.
    change (lstrip (NEWLINE :: COMMA :: NEWLINE ::
                    array_body (map dumps (e2 :: es)) ++ tail))
      with (COMMA :: NEWLINE :: array_body (map dumps (e2 :: es)) ++ tail).
    cbn [startswith]. change (COMMA =? COMMA) with true. cbv iota.
    cbn [skipn].
    change (lstrip (NEWLINE :: array_body (map dumps (e2 :: es)) ++ tail))
      with (lstrip (array_body (map dumps (e2 :: es)) ++ tail)).
    destruct (@array_body_start _ _ _ _ _ contract roundtrip e2 es tail)
      as (c2 & r2 & E2 & Hc2).
    rewrite E2, (@lstrip_value c2 r2 Hc2). cbn [startswith].
    destruct (@value_start_inv _ Hc2) as (_ & _ & Hrb & _). rewrite Hrb.
    rewrite <- E2. rewrite IH; [|exact Ht|cbn [List.length] in Hf; lia].
    rewrite <- app_assoc. reflexivity.
Qed.

(** The generator on a file that begins with the bracket and a line
    feed, then holds the laid-out records and a tail. *)
Lemma stream_array_with_tail e es tail :
  lstrip tail = [] \/ startswith (lstrip tail) RBRACKET = true ->
  stream_json_data raw_decode
    (Some ([LBRACKET; NEWLINE] ++ array_body (map dumps (e :: es)) ++ tail))
  = Some (Streamed (map to_value (e :: es)) StopIteration).
Proof.
  intros Ht. unfold stream_json_data, stream_json_data_fuel.
  cbn [app firstn find]. change (LBRACKET =? LBRACKET) with true. cbv iota.
  change (Z.to_nat (0 + 1)) with 1%nat. cbn [slice_from skipn].
  change (lstrip (NEWLINE :: array_body (map dumps (e :: es)) ++ tail))
    with (lstrip (array_body (map dumps (e :: es)) ++ tail)).
  destruct (@array_body_start _ _ _ _ _ contract roundtrip e es tail)
    as (c & r & E & Hc).
  rewrite E, (@lstrip_value c r Hc), <- E.
  rewrite stream_loop_array_body; [reflexivity|exact Ht|].
  cbn [List.length]. rewrite length_app.
  assert (L : (List.length (map dumps (e :: es))
               <= List.length (array_body (map dumps (e :: es))))%nat).
  { apply array_body_length. apply Forall_forall. intros t Hin.
    apply in_map_iff in Hin. destruct Hin as (x & <- & _).
    destruct (@dumps_start _ _ _ _ _ contract roundtrip x) as (c1 & r1 & -> & _).
    discriminate. }
  rewrite length_map in L. cbn [List.length] in L. lia.
Qed.

(** X14.  Round trip through the project's reader: after a non-empty
    sequence of [write_to_json] calls on an absent or empty target,
    [load_json_data] on the file returns the records that were written,
    in the order of the calls. *)
Theorem written_file_loads_back (e : entry) (entries : list entry)
    (start : option text) :
  start = None \/ start = Some [] ->
  exists content,
    write_all dumps (e :: entries) start = Some (Some content) /\
    stream_json_data raw_decode (Some content)
      = Some (Streamed (map to_value (e :: entries)) StopIteration) /\
    load_json_data raw_decode (Some content)
      = Some (Loaded (map to_value (e :: entries))).
Proof.
  intros Hs. exists (array_text (map dumps (e :: entries))).
  split; [now apply write_all_fresh|].
  assert (H : stream_json_data raw_decode
                (Some (array_text (map dumps (e :: entries))))
              = Some (Streamed (map to_value (e :: entries)) StopIteration)).
  { unfold array_text. apply stream_array_with_tail. right. reflexivity. }
  split; [exact H|]. now rewrite (load_of_stream _ _ H).
Qed.

Lemma JSONArray_items_truncated es : forall e acc fuel,
  JSONArray_items raw_decode fuel (array_body (map dumps (e :: es))) acc
  = ArrayError value.
Proof.
  induction es as [|e2 es IH]; intros e acc fuel;
    (destruct fuel as [|fuel]; [reflexivity|]).
  - cbn [map array_body JSONArray_items].
    rewrite <- (app_nil_r (dumps e)). rewrite roundtrip. unfold slice_from.
    rewrite skipn_app, skipn_all, Nat.sub_diag. reflexivity.
  - change (array_body (map dumps (e :: e2 :: es)))
      with (dumps e ++ [NEWLINE; COMMA; NEWLINE]
            ++ array_body (map dumps (e2 :: es))).
    cbn [JSONArray_items]. rewrite roundtrip. unfold slice_from.
    rewrite skipn_app, skipn_all, Nat.sub_diag. cbn [skipn app].
    change (skip_ws (NEWLINE :: COMMA :: NEWLINE ::
                     array_body (map dumps (e2 :: es))))
      with (COMMA :: NEWLINE :: array_body (map dumps (e2 :: es))).
    change (COMMA =? RBRACKET) with false. change (COMMA =? COMMA) with true.
    cbv iota.
    change (skip_ws (NEWLINE :: array_body (map dumps (e2 :: es))))
      with (skip_ws (array_body (map dumps (e2 :: es)))).
    destruct (@array_body_start _ _ _ _ _ contract roundtrip e2 es [])
      as (c & r & E & Hc).
    rewrite app_nil_r in E. rewrite E, (@skip_ws_value _ _ Hc), <- E.
    apply IH.
Qed.

(** X15.  The generator accepts a truncated file: when the result
    file has lost its closing bracket (the records are all there, the
    array is not closed), the full JSON parse refuses the file, while
    [stream_json_data] yields every record and ends normally, so
    [load_json_data] returns the list without any error. *)
Theorem stream_accepts_truncated_array (e : entry) (entries : list entry) :
  let content := [LBRACKET; NEWLINE] ++ array_body (map dumps (e :: entries)) in
  json_load raw_decode content = LoadError value /\
  stream_json_data raw_decode (Some content)
    = Some (Streamed (map to_value (e :: entries)) StopIteration) /\
  load_json_data raw_decode (Some content)
    = Some (Loaded (map to_value (e :: entries))).
Proof.
  cbv zeta.
  assert (H : stream_json_data raw_decode
                (Some ([LBRACKET; NEWLINE] ++ array_body (map dumps (e :: entries))))
              = Some (Streamed (map to_value (e :: entries)) StopIteration)).
  { rewrite <- (app_nil_r (array_body (map dumps (e :: entries)))).
    apply stream_array_with_tail. now left. }
  split; [|split; [exact H|now rewrite (load_of_stream _ _ H)]].
  unfold json_load. cbn [app].
  change (skip_ws (LBRACKET :: NEWLINE :: array_body (map dumps (e :: entries))))
    with (LBRACKET :: NEWLINE :: array_body (map dumps (e :: entries))).
  change (LBRACKET =? LBRACKET) with true. cbv iota. unfold JSONArray.
  change (skip_ws (NEWLINE :: array_body (map dumps (e :: entries))))
    with (skip_ws (array_body (map dumps (e :: entries)))).
  destruct (@array_body_start _ _ _ _ _ contract roundtrip e entries [])
    as (c & r & E & Hc).
  rewrite app_nil_r in E. rewrite E, (@skip_ws_value _ _ Hc).
  destruct (@value_start_inv _ Hc) as (_ & _ & Hrb & _). rewrite Hrb, <- E.
  now rewrite JSONArray_items_truncated.
Qed.

Lemma lstrip_blank ws rest :
  forallb py_space ws = true -> lstrip (ws ++ rest) = lstrip rest.
Proof.
  unfold lstrip. induction ws as [|c ws IH]; cbn [forallb app drop_while];
    [reflexivity|].
  intros H. apply andb_true_iff in H. destruct H as [-> H]. now apply IH.
Qed.

(** X16.  An empty array file gives the empty list: for a file made
    of the opening bracket, blanks and the closing bracket (so for [[]]
    and for the form [find_resume_point] leaves when it clears a result
    file), the generator yields nothing and ends normally. *)
Theorem stream_empty_array (ws : text) :
  forallb py_space ws = true ->
  stream_json_data raw_decode (Some ([LBRACKET] ++ ws ++ [RBRACKET]))
    = Some (Streamed [] StopIteration) /\
  load_json_data raw_decode (Some ([LBRACKET] ++ ws ++ [RBRACKET]))
    = Some (Loaded []).
Proof.
  intros Hws.
  assert (H : stream_json_data raw_decode (Some ([LBRACKET] ++ ws ++ [RBRACKET]))
              = Some (Streamed [] StopIteration)).
  { unfold stream_json_data, stream_json_data_fuel.
    cbn [app firstn find]. change (LBRACKET =? LBRACKET) with true. cbv iota.
    change (Z.to_nat (0 + 1)) with 1%nat. cbn [slice_from skipn].
    rewrite lstrip_blank by assumption.
    change (lstrip [RBRACKET]) with [RBRACKET]. cbn [stream_loop].
    destruct (proj2 contract [RBRACKET] eq_refl) as (msg & -> & ->).
    now rewrite strip_head. }
  split; [exact H|]. now rewrite (load_of_stream _ _ H).
Qed.

(** X17.  After clearing, the reader fails too: the file that
    [write_to_json] produces on the cleared form of a result file makes
    [stream_json_data] raise the decode error before it yields any
    record, so [load_json_data] raises as well. *)
Theorem stream_rejects_append_after_clearing (e : entry) :
  exists content msg,
    write_to_json dumps e (Some cleared) = Written content /\
    stream_json_data raw_decode (Some content)
      = Some (Streamed [] (DecodeError msg)) /\
    load_json_data raw_decode (Some content)
      = Some (LoadRaised value (DecodeError msg)).
Proof.
  pose (content := ([LBRACKET; NEWLINE; COMMA; NEWLINE] ++ dumps e
                    ++ [NEWLINE; RBRACKET]) : text).
  destruct (proj2 contract (COMMA :: NEWLINE :: dumps e ++ [NEWLINE; RBRACKET])
              eq_refl) as (msg & Hd & Hm).
  exists content, msg. split; [reflexivity|].
  assert (H : stream_json_data raw_decode (Some content)
              = Some (Streamed [] (DecodeError msg))).
  { unfold stream_json_data, stream_json_data_fuel, content.
    cbn [app firstn find]. change (LBRACKET =? LBRACKET) with true. cbv iota.
    change (Z.to_nat (0 + 1)) with 1%nat. cbn [slice_from skipn].
    change (lstrip (NEWLINE :: COMMA :: NEWLINE :: dumps e ++ [NEWLINE; RBRACKET]))
      with (COMMA :: NEWLINE :: dumps e ++ [NEWLINE; RBRACKET]).
    cbn [stream_loop]. rewrite Hd, Hm.
    assert (Hs : startswith (strip (COMMA :: NEWLINE :: dumps e ++ [NEWLINE; RBRACKET]))
                   COMMA = true) by (now apply strip_head).
    destruct (strip (COMMA :: NEWLINE :: dumps e ++ [NEWLINE; RBRACKET]))
      as [|c r]; [discriminate|].
    cbn [startswith] in Hs |- *. apply N.eqb_eq in Hs. subst c. reflexivity. }
  split; [exact H|]. unfold load_json_data. now rewrite H.
Qed.

Lemma nth_error_snoc {A} (pre : list A) (x : A) :
  nth_error (pre ++ [x]) (List.length (pre ++ [x]) - 1) = Some x.
Proof.
  rewrite length_app. cbn [List.length].
  replace (List.length pre + 1 - 1)%nat with (List.length pre) by lia.
  rewrite nth_error_app2 by lia. now rewrite Nat.sub_diag.
Qed.

(** X18.  When [write_to_json] raises: on a file with content the
    call raises [ValueError] exactly when the last character is not the
    closing bracket or the first one is not the opening bracket; in every
    other case it keeps all of the file but the closing bracket and
    writes the separator, the record and a new closing bracket after
    it. *)
Theorem write_to_json_raises_iff (e : entry) (content : text) :
  content <> [] ->
  (write_to_json dumps e (Some content) = WriteValueError <->
   last content 0 <> RBRACKET \/ hd 0 content <> LBRACKET) /\
  (forall new, write_to_json dumps e (Some content) = Written new ->
     exists sep, (sep = [NEWLINE] \/ sep = [COMMA; NEWLINE]) /\
       new = removelast content ++ sep ++ dumps e ++ [NEWLINE; RBRACKET]).
Proof.
  intros Hne.
  destruct (exists_last Hne) as (pre & x & ->).
  assert (Hlast : nth_error (pre ++ [x]) (List.length (pre ++ [x]) - 1) = Some x)
    by apply nth_error_snoc.
  assert (Hfirst : nth_error (pre ++ [x]) 0 = Some (hd 0 (pre ++ [x])))
    by (destruct pre; reflexivity).
  assert (Hch : exists ch, nth_error (pre ++ [x])
                             (List.length (pre ++ [x]) - 1 - 1) = Some ch).
  { destruct (nth_error (pre ++ [x]) (List.length (pre ++ [x]) - 1 - 1)) eqn:E;
      [eauto|].
    apply nth_error_None in E. rewrite length_app in E.
    cbn [List.length] in E. lia. }
  destruct Hch as [ch Hch]. unfold text.
  rewrite (@write_to_json_nonempty _ dumps e (pre ++ [x])
             (List.length (pre ++ [x]) - 1) x (hd 0 (pre ++ [x])) ch
             Hne eq_refl Hlast Hfirst Hch).
  rewrite last_last, removelast_last.
  assert (Hcut : firstn (List.length (pre ++ [x]) - 1) (pre ++ [x]) = pre).
  { rewrite length_app. cbn [List.length].
    replace (List.length pre + 1 - 1)%nat with (List.length pre + 0)%nat by lia.
    rewrite firstn_app_2. cbn [firstn]. apply app_nil_r. }
  rewrite Hcut.
  destruct (N.eqb_spec x RBRACKET) as [Hx|Hx]; cbn [negb].
  - destruct (N.eqb_spec (hd 0 (pre ++ [x])) LBRACKET) as [Hh|Hh]; cbn [negb].
    + split.
      * split; [discriminate|]. intros [H|H]; contradiction.
      * intros new [= <-].
        destruct (ch =? LBRACKET); cbn [negb]; eauto.
    + split; [|discriminate]. split; [now right|reflexivity].
  - split; [|discriminate]. split; [now left|reflexivity].
Qed.

End RoundTripFacts.

Section RoundTripExamples.

Import Text Json MiniJson.
Local Open Scope N_scope.

Lemma written_file_loads_back_witness :
  exists content,
    write_all dumps [true; false] None = Some (Some content) /\
    stream_json_data raw_decode (Some content)
      = Some (Streamed (map to_value [true; false]) StopIteration) /\
    load_json_data raw_decode (Some content)
      = Some (Loaded (map to_value [true; false])).
Proof.
  apply (@written_file_loads_back json raw_decode flag_entry dumps to_value
           mini_scanner_contract mini_dumps_contract true [false] None).
  now left.
Defined.

Lemma stream_accepts_truncated_array_witness :
  let content := [LBRACKET; NEWLINE] ++ array_body (map dumps [true; false]) in
  json_load raw_decode content = LoadError json /\
  stream_json_data raw_decode (Some content)
    = Some (Streamed (map to_value [true; false]) StopIteration) /\
  load_json_data raw_decode (Some content)
    = Some (Loaded (map to_value [true; false])).
Proof.
  apply (@stream_accepts_truncated_array json raw_decode flag_entry dumps to_value
           mini_scanner_contract mini_dumps_contract true [false]).
Defined.

Lemma stream_empty_array_witness :
  stream_json_data raw_decode (Some ([LBRACKET] ++ [NEWLINE] ++ [RBRACKET]))
    = Some (Streamed [] StopIteration) /\
  load_json_data raw_decode (Some ([LBRACKET] ++ [NEWLINE] ++ [RBRACKET]))
    = Some (Loaded []).
Proof.
  apply (@stream_empty_array json raw_decode mini_scanner_contract [NEWLINE]).
  reflexivity.
Defined.

Lemma stream_rejects_append_after_clearing_witness :
  exists content msg,
    write_to_json dumps true (Some cleared) = Written content /\
    stream_json_data raw_decode (Some content)
      = Some (Streamed [] (DecodeError msg)) /\
    load_json_data raw_decode (Some content)
      = Some (LoadRaised json (DecodeError msg)).
Proof.
  apply (@stream_rejects_append_after_clearing json raw_decode flag_entry dumps
           mini_scanner_contract true).
Defined.

Lemma write_to_json_raises_iff_witness :
  (write_to_json dumps true (Some (of_string "[] ")) = WriteValueError <->
   last (of_string "[] ") 0 <> RBRACKET \/ hd 0 (of_string "[] ") <> LBRACKET) /\
  (forall new, write_to_json dumps true (Some (of_string "[] ")) = Written new ->
     exists sep, (sep = [NEWLINE] \/ sep = [COMMA; NEWLINE]) /\
       new = removelast (of_string "[] ") ++ sep ++ dumps true
             ++ [NEWLINE; RBRACKET]).
Proof.
  apply (@write_to_json_raises_iff flag_entry dumps true (of_string "[] ")).
  discriminate.
Defined.

End RoundTripExamples.

(** ** Retry files *)

Section RetryFileFacts.

Import Text Resume Driver RetryFiles.
Local Open Scope Z_scope.

Lemma creates_count file n :
  file = Absent \/ file = Unreadable ->
  Nat.iter (S n) (fun f => fst (create_retry_file f)) file
  = RetryData (Some (Z.of_nat (S n))).
Proof.
  intros Hf. induction n as [|n IH].
  - destruct Hf as [-> | ->]; reflexivity.
  - change (Nat.iter (S (S n)) (fun f => fst (create_retry_file f)) file)
      with (fst (create_retry_file
                   (Nat.iter (S n) (fun f => fst (create_retry_file f)) file))).
    rewrite IH. cbn [create_retry_file fst count_or_zero].
    do 2 f_equal. rewrite (Nat2Z.inj_succ (S n)). reflexivity.
Qed.

(** X19.  The retry file counts the failures recorded in it: starting
    from no file (or from one that cannot be read), after [n] calls of
    [create_retry_file] ([n >= 1]) the stored count is [n], the last call
    returned [n], and [check_retry_status] answers that the record may be
    retried exactly when [n < max_retries]; once [delete_retry_file] has
    run the count starts again from 0. *)
Theorem retry_file_counts_creates (file : retry_file) (n : nat)
    (max_retries : Z) :
  file = Absent \/ file = Unreadable ->
  (1 <= n)%nat ->
  let file_n := Nat.iter n (fun f => fst (create_retry_file f)) file in
  stored_retry_count file_n = Some (Z.of_nat n) /\
  snd (create_retry_file
         (Nat.iter (n - 1) (fun f => fst (create_retry_file f)) file))
  = (true, Z.of_nat n) /\
  check_retry_status file_n max_retries = (Z.of_nat n <? max_retries, Z.of_nat n) /\
  check_retry_status (fst (delete_retry_file file_n)) max_retries = (true, 0) /\
  snd (create_retry_file (fst (delete_retry_file file_n))) = (true, 1).
Proof.
  intros Hf Hn. destruct n as [|n]; [lia|]. cbv zeta.
  rewrite creates_count by assumption.
  split; [reflexivity|]. split.
  - replace (S n - 1)%nat with n by lia. destruct n as [|n].
    + destruct Hf as [-> | ->]; reflexivity.
    + rewrite creates_count by assumption.
      cbn [create_retry_file snd count_or_zero]. f_equal.
      rewrite (Nat2Z.inj_succ (S n)). reflexivity.
  - split; [|split; reflexivity].
    cbn [check_retry_status count_or_zero].
    destruct (Z.leb_spec max_retries (Z.of_nat (S n)));
      destruct (Z.ltb_spec (Z.of_nat (S n)) max_retries); try lia; reflexivity.
Qed.

(** X20.  A retry file that has reached the limit replaces the chat
    call: when the retry file of the record has been written
    [max_retries] times or more, [interact_with_llm] returns the record
    with the empty response without calling the chat and without touching
    the world; below the limit it makes the call. *)
Theorem exhausted_retry_file_short_circuits_chat
    (ns_to_seconds : Q -> Q) (call_ollama_chat : nat -> entry -> llm_outcome)
    (file : retry_file) (n : nat) (max_retries : Z) (w : world) (e : entry) :
  file = Absent \/ file = Unreadable ->
  (1 <= n)%nat ->
  let file_n := Nat.iter n (fun f => fst (create_retry_file f)) file in
  let answer :=
    interact_with_llm ns_to_seconds call_ollama_chat
      (fun _ => stored_retry_count file_n) max_retries w e in
  fst (check_retry_status file_n max_retries) = (Z.of_nat n <? max_retries) /\
  answer = if Z.of_nat n <? max_retries
           then match call_ollama_chat (List.length (llm_calls w)) e with
                | LlmRaises msg => InteractionRaised (log_call w e) msg
                | LlmReturns r => NewEntry (log_call w e) (answered ns_to_seconds e r)
                end
           else NewEntry w (sentinel e).
Proof.
  intros Hf Hn. destruct n as [|n]; [lia|]. cbv zeta.
  rewrite creates_count by assumption.
  unfold interact_with_llm. cbn [stored_retry_count count_or_zero check_retry_status].
  destruct (Z.leb_spec max_retries (Z.of_nat (S n)));
    destruct (Z.ltb_spec (Z.of_nat (S n)) max_retries); try lia; split; reflexivity.
Qed.

Local Open Scope string_scope.

Lemma string_app_assoc (a b c : string) : (a ++ b) ++ c = a ++ (b ++ c).
Proof. induction a as [|x a IH]; [reflexivity|]. cbn [append]. now rewrite IH. Qed.

Lemma append_cancel_l (p a b : string) : p ++ a = p ++ b -> a = b.
Proof.
  induction p as [|c p IH]; cbn [append]; [auto|].
  intros [= H]. auto.
Qed.

Lemma get_or_present (e : entry) k d1 d2 :
  dict_get e k <> None -> get_or e k d1 = get_or e k d2.
Proof. unfold get_or. destruct (dict_get e k); [reflexivity|contradiction]. Qed.

Lemma get_or_missing (e : entry) k d :
  dict_get e k = None -> get_or e k d = d.
Proof. unfold get_or. now intros ->. Qed.

(** X21.  The two sides do not agree on the name of a retry file:
    [get_retry_file_path] names it with the default ['unknown'] for a
    missing identity field, [interact_with_llm] looks for it with the
    default ['Unknown'], so the names are the same exactly when the
    record has all three of [id], [sub_id] and [code_id]. *)
Theorem retry_file_names_agree_iff (e : entry) :
  retry_file_name "unknown" e = retry_file_name "Unknown" e <->
  (dict_get e "id" <> None /\ dict_get e "sub_id" <> None /\
   dict_get e "code_id" <> None).
Proof.
  unfold retry_file_name, entry_identifier. split.
  - intros H.
    destruct (dict_get e "id") as [a|] eqn:Ea.
    + rewrite (@get_or_present e "id" (PyStr "unknown") (PyStr "Unknown")) in H
        by (rewrite Ea; discriminate).
      rewrite !string_app_assoc in H. apply append_cancel_l in H.
      destruct (dict_get e "sub_id") as [b|] eqn:Eb.
      * rewrite (@get_or_present e "sub_id" (PyStr "unknown") (PyStr "Unknown")) in H
          by (rewrite Eb; discriminate).
        apply (@append_cancel_l "_") in H. apply append_cancel_l in H.
        destruct (dict_get e "code_id") as [c|] eqn:Ec.
        { repeat split; discriminate. }
        { rewrite !get_or_missing in H by assumption. discriminate H. }
      * rewrite !(@get_or_missing e "sub_id") in H by assumption.
        discriminate H.
    + rewrite !(@get_or_missing e "id") in H by assumption. discriminate H.
  - intros (Ha & Hb & Hc).
    rewrite (@get_or_present e "id" (PyStr "unknown") (PyStr "Unknown") Ha).
    rewrite (@get_or_present e "sub_id" (PyStr "unknown") (PyStr "Unknown") Hb).
    rewrite (@get_or_present e "code_id" (PyStr "unknown") (PyStr "Unknown") Hc).
    reflexivity.
Qed.

End RetryFileFacts.

(** ** File names and languages *)

Section NameFacts.

Import Text LlmProcessor.
Local Open Scope N_scope.

Lemma underscore_not_alnum : is_alnum UNDERSCORE = false.
Proof. reflexivity. Qed.

(** X22.  [sanitize_model_name] gives a name that is safe in a path:
    it has the length of the model name, is made of ASCII letters, digits
    and underscores only (so it holds no slash and no dot), sanitizing it
    again changes nothing, and a name already made of such characters is
    left as it is. *)
Theorem sanitize_model_name_safe (model_name : text) :
  List.length (sanitize_model_name model_name) = List.length model_name /\
  Forall (fun c => is_alnum c = true \/ c = UNDERSCORE)
         (sanitize_model_name model_name) /\
  ~ In 47 (sanitize_model_name model_name) /\
  ~ In 46 (sanitize_model_name model_name) /\
  sanitize_model_name (sanitize_model_name model_name)
  = sanitize_model_name model_name /\
  (Forall (fun c => is_alnum c = true \/ c = UNDERSCORE) model_name <->
   sanitize_model_name model_name = model_name).
Proof.
  unfold sanitize_model_name.
  assert (HF : Forall (fun c => is_alnum c = true \/ c = UNDERSCORE)
                 (map (fun c => if is_alnum c then c else UNDERSCORE) model_name)).
  { apply Forall_forall. intros c Hc. apply in_map_iff in Hc.
    destruct Hc as (x & <- & _). destruct (is_alnum x) eqn:E; auto. }
  split; [apply length_map|]. split; [exact HF|].
  split; [|split; [|split]].
  - intros H. rewrite Forall_forall in HF. destruct (HF _ H) as [E|E]; discriminate.
  - intros H. rewrite Forall_forall in HF. destruct (HF _ H) as [E|E]; discriminate.
  - rewrite map_map. apply map_ext. intros c.
    destruct (is_alnum c) eqn:E; [now rewrite E|reflexivity].
  - split.
    + clear HF. intros H. induction H as [|c l Hc Hl IH]; [reflexivity|].
      cbn [map]. rewrite IH. destruct Hc as [Hc| ->]; [now rewrite Hc|reflexivity].
    + intros H. rewrite <- H. exact HF.
Qed.

Lemma sanitize_eq_iff (a : text) : forall b,
  sanitize_model_name a = sanitize_model_name b <->
  Forall2 (fun x y => is_alnum x = true \/ is_alnum y = true -> x = y) a b.
Proof.
  unfold sanitize_model_name.
  induction a as [|x a IH]; intros [|y b]; cbn [map].
  - split; [constructor|reflexivity].
  - split; [discriminate|intros H; inversion H].
  - split; [discriminate|intros H; inversion H].
  - split.
    + intros [= Hxy Hab]. constructor; [|now apply IH].
      intros Hor. destruct (is_alnum x) eqn:Ex, (is_alnum y) eqn:Ey.
      * exact Hxy.
      * subst x. discriminate Ex.
      * subst y. discriminate Ey.
      * destruct Hor; discriminate.
    + intros H. inversion H as [|? ? ? ? Hxy Hab]; subst. f_equal.
      * destruct (is_alnum x) eqn:Ex, (is_alnum y) eqn:Ey.
        { apply Hxy. now left. }
        { rewrite (Hxy (or_introl eq_refl)) in Ex. congruence. }
        { rewrite <- (Hxy (or_intror eq_refl)) in Ey. congruence. }
        { reflexivity. }
      * now apply IH.
Qed.

(** X23.  When two models share their files: the result file and the
    resume file of two models have the same name exactly when the model
    names have the same length and differ only where both have a
    character other than an ASCII letter or digit. *)
Theorem models_share_files_iff (a b : text) :
  (result_file_name a = result_file_name b <->
   Forall2 (fun x y => is_alnum x = true \/ is_alnum y = true -> x = y) a b) /\
  (resume_file_name a = resume_file_name b <->
   result_file_name a = result_file_name b).
Proof.
  unfold result_file_name, resume_file_name.
  assert (H1 : sanitize_model_name a ++ of_string ".json"
               = sanitize_model_name b ++ of_string ".json" <->
               sanitize_model_name a = sanitize_model_name b).
  { split; [apply app_inv_tail|now intros ->]. }
  assert (H2 : sanitize_model_name a ++ of_string "_resume.json"
               = sanitize_model_name b ++ of_string "_resume.json" <->
               sanitize_model_name a = sanitize_model_name b).
  { split; [apply app_inv_tail|now intros ->]. }
  split.
  - rewrite H1. apply sanitize_eq_iff.
  - rewrite H1, H2. reflexivity.
Qed.

Local Open Scope string_scope.

Lemma last_part_no_dot s : forall cur,
  no_dot s = true -> last_part cur s = cur ++ s.
Proof.
  induction s as [|c r IH]; intros cur; cbn [no_dot last_part].
  - intros _. revert cur. induction cur as [|d cur IHc]; [reflexivity|].
    cbn [append]. now rewrite <- IHc.
  - intros H. apply andb_true_iff in H. destruct H as [Hc Hr].
    apply negb_true_iff in Hc. rewrite Hc. rewrite IH by assumption.
    clear. induction cur as [|d cur IHc]; [reflexivity|].
    cbn [append]. now rewrite IHc.
Qed.

Lemma last_part_after_dot stem ext : forall cur,
  no_dot ext = true ->
  last_part cur (stem ++ String "." ext) = ext.
Proof.
  induction stem as [|c r IH]; intros cur H; cbn [append last_part].
  - rewrite Ascii.eqb_refl. now rewrite last_part_no_dot.
  - destruct (Ascii.eqb c "."); now apply IH.
Qed.

Lemma lower_append a b :
  Decision.lower (a ++ b) = Decision.lower a ++ Decision.lower b.
Proof.
  induction a as [|c a IH]; [reflexivity|].
  cbn [append Decision.lower]. now rewrite IH.
Qed.

Lemma no_dot_lower s : no_dot (Decision.lower s) = no_dot s.
Proof.
  induction s as [|c s IH]; [reflexivity|].
  cbn [Decision.lower no_dot]. rewrite IH. f_equal. f_equal.
  unfold Decision.lower_ascii.
  destruct ((65 <=? nat_of_ascii c) && (nat_of_ascii c <=? 90))%nat eqn:E;
    [|reflexivity].
  apply andb_true_iff in E. destruct E as [E1 E2].
  apply Nat.leb_le in E1, E2.
  destruct (Ascii.eqb_spec c ".") as [->|Hc]; [cbn in E1; lia|].
  destruct (Ascii.eqb_spec (ascii_of_nat (nat_of_ascii c + 32)) ".") as [E|_];
    [|reflexivity].
  apply (f_equal nat_of_ascii) in E.
  rewrite nat_ascii_embedding in E by lia. cbn in E. lia.
Qed.

Lemma lookup_range k :
  In (lookup language_map k)
     ["java"; "c"; "cpp"; "python"; "javascript"; "text"].
Proof.
  unfold language_map. cbn [lookup].
  repeat match goal with
         | |- context [String.eqb ?a k] => destruct (String.eqb a k)
         end; cbn [In]; auto 10.
Qed.

(** X24.  The language of a file is decided by what follows its last
    dot, read without regard to case: for a name [stem.ext] where [ext]
    holds no dot, [get_language_from_filename] answers as it does for
    [ext] in lower case alone, whatever [stem] is; and it only ever
    answers one of six languages. *)
Theorem language_of_last_extension (stem ext : string) :
  no_dot ext = true ->
  get_language_from_filename (stem ++ String "." ext)
  = lookup language_map (Decision.lower ext) /\
  get_language_from_filename (Decision.lower (stem ++ String "." ext))
  = get_language_from_filename (stem ++ String "." ext) /\
  In (get_language_from_filename (stem ++ String "." ext))
     ["java"; "c"; "cpp"; "python"; "javascript"; "text"].
Proof.
  intros H.
  assert (E : forall s, get_language_from_filename (s ++ String "." ext)
                        = lookup language_map (Decision.lower ext)).
  { intros s. unfold get_language_from_filename.
    destruct (s ++ String "." ext) eqn:Es.
    - destruct s; discriminate.
    - rewrite <- Es. cbv zeta. rewrite lower_append.
      change (Decision.lower (String "." ext))
        with (String "." (Decision.lower ext)).
      rewrite last_part_after_dot by (now rewrite no_dot_lower).
      reflexivity. }
  split; [apply E|]. split.
  - rewrite E. rewrite lower_append.
    change (Decision.lower (String "." ext))
      with (String "." (Decision.lower ext)).
    unfold get_language_from_filename.
    destruct (Decision.lower stem ++ String "." (Decision.lower ext)) eqn:Es.
    + destruct (Decision.lower stem); discriminate.
    + rewrite <- Es. cbv zeta. rewrite lower_append.
      change (Decision.lower (String "." (Decision.lower ext)))
        with (String "." (Decision.lower (Decision.lower ext))).
      rewrite last_part_after_dot by (now rewrite !no_dot_lower).
      f_equal. clear. induction ext as [|c ext IH]; [reflexivity|].
      cbn [Decision.lower]. rewrite IH. f_equal.
      unfold Decision.lower_ascii.
      destruct ((65 <=? nat_of_ascii c) && (nat_of_ascii c <=? 90))%nat eqn:E;
        [|now rewrite E].
      apply andb_true_iff in E. destruct E as [E1 E2].
      apply Nat.leb_le in E1, E2.
      rewrite nat_ascii_embedding by lia.
      destruct (Nat.leb_spec (nat_of_ascii c + 32) 90); [lia|].
      now rewrite andb_false_r.
  - rewrite E. apply lookup_range.
Qed.

End NameFacts.

Section RetryFileExamples.

Import Text Resume Driver RetryFiles LlmProcessor.
Local Open Scope Z_scope.

Lemma retry_file_counts_creates_witness :
  let file_n := Nat.iter 3 (fun f => fst (create_retry_file f)) Absent in
  stored_retry_count file_n = Some (Z.of_nat 3) /\
  snd (create_retry_file
         (Nat.iter (3 - 1) (fun f => fst (create_retry_file f)) Absent))
  = (true, Z.of_nat 3) /\
  check_retry_status file_n 3 = (Z.of_nat 3 <? 3, Z.of_nat 3) /\
  check_retry_status (fst (delete_retry_file file_n)) 3 = (true, 0) /\
  snd (create_retry_file (fst (delete_retry_file file_n))) = (true, 1).
Proof.
  apply (@retry_file_counts_creates Absent 3 3).
  - left. reflexivity.
  - lia.
Defined.

Lemma exhausted_retry_file_short_circuits_chat_witness :
  let file_n := Nat.iter 3 (fun f => fst (create_retry_file f)) Absent in
  let answer :=
    interact_with_llm DriverSample.sample_ns_to_seconds always_answers
      (fun _ => stored_retry_count file_n) 3 fresh (record 1) in
  fst (check_retry_status file_n 3) = (Z.of_nat 3 <? 3) /\
  answer = if Z.of_nat 3 <? 3
           then match always_answers (List.length (llm_calls fresh)) (record 1) with
                | LlmRaises msg => InteractionRaised (log_call fresh (record 1)) msg
                | LlmReturns r =>
                    NewEntry (log_call fresh (record 1))
                             (answered DriverSample.sample_ns_to_seconds (record 1) r)
                end
           else NewEntry fresh (sentinel (record 1)).
Proof.
  apply (@exhausted_retry_file_short_circuits_chat
           DriverSample.sample_ns_to_seconds always_answers Absent 3 3 fresh
           (record 1)).
  - left. reflexivity.
  - lia.
Defined.

Local Open Scope string_scope.

Lemma language_of_last_extension_witness :
  get_language_from_filename ("src/Main.test" ++ String "." "JAVA")
  = lookup language_map (Decision.lower "JAVA") /\
  get_language_from_filename (Decision.lower ("src/Main.test" ++ String "." "JAVA"))
  = get_language_from_filename ("src/Main.test" ++ String "." "JAVA") /\
  In (get_language_from_filename ("src/Main.test" ++ String "." "JAVA"))
     ["java"; "c"; "cpp"; "python"; "javascript"; "text"].
Proof.
  apply (@language_of_last_extension "src/Main.test" "JAVA").
  reflexivity.
Defined.

End RetryFileExamples.

(** ** Durations *)

Section DurationFacts.

Import Decision TimeEstimator.
Local Open Scope string_scope.
Local Open Scope Z_scope.

Lemma py_int_inject_Z z : py_int (inject_Z z) = z.
Proof. unfold py_int. cbn [inject_Z Qnum Qden]. apply Z.quot_1_r. Qed.

(** X25.  A duration is shown as hours, minutes and seconds that add
    up to it: for a non-negative number of seconds, the three numbers of
    [_format_time_duration] recompose the whole seconds, minutes and
    seconds are below 60, and the text names the hours only when there
    are some and the minutes only when there are hours or minutes. *)
Theorem format_time_duration_recomposes (seconds : Q) :
  0 <= py_int seconds ->
  exists hours minutes secs,
    duration_parts seconds = (hours, minutes, secs) /\
    hours * 3600 + minutes * 60 + secs = py_int seconds /\
    0 <= hours /\ 0 <= minutes < 60 /\ 0 <= secs < 60 /\
    _format_time_duration seconds
    = if 0 <? hours then
        decimal hours ++ "h " ++ decimal minutes ++ "m " ++ decimal secs ++ "s"
      else if 0 <? minutes then decimal minutes ++ "m " ++ decimal secs ++ "s"
      else decimal secs ++ "s".
Proof.
  intros Hn. unfold _format_time_duration, duration_parts.
  set (n := py_int seconds) in *.
  exists (n / 3600), (n mod 3600 / 60), ((n mod 3600) mod 60).
  split; [reflexivity|].
  pose proof (Z.div_mod n 3600 ltac:(lia)) as H1.
  pose proof (Z.mod_pos_bound n 3600 ltac:(lia)) as H2.
  pose proof (Z.div_mod (n mod 3600) 60 ltac:(lia)) as H3.
  pose proof (Z.mod_pos_bound (n mod 3600) 60 ltac:(lia)) as H4.
  assert (H5 : 0 <= n / 3600) by (apply Z.div_pos; lia).
  assert (H6 : 0 <= n mod 3600 / 60 < 60).
  { split; [apply Z.div_pos; lia|]. apply Z.div_lt_upper_bound; lia. }
  repeat split; try lia.
Qed.

(** X26.  A negative duration is shown as a positive one below an
    hour: for a negative number of seconds the hours of [divmod] are
    negative and are left out, so the text only holds the minutes and
    seconds of the duration modulo 3600, and it is the text of that
    non-negative duration. *)
Theorem format_time_duration_negative (seconds : Q) :
  py_int seconds < 0 ->
  exists minutes secs,
    0 <= minutes < 60 /\ 0 <= secs < 60 /\
    minutes * 60 + secs = py_int seconds mod 3600 /\
    _format_time_duration seconds
    = (if 0 <? minutes then decimal minutes ++ "m " ++ decimal secs ++ "s"
       else decimal secs ++ "s") /\
    _format_time_duration seconds
    = _format_time_duration (inject_Z (py_int seconds mod 3600)).
Proof.
  intros Hn. unfold _format_time_duration, duration_parts.
  rewrite py_int_inject_Z.
  set (n := py_int seconds) in *.
  exists (n mod 3600 / 60), ((n mod 3600) mod 60).
  pose proof (Z.mod_pos_bound n 3600 ltac:(lia)) as H2.
  pose proof (Z.div_mod (n mod 3600) 60 ltac:(lia)) as H3.
  pose proof (Z.mod_pos_bound (n mod 3600) 60 ltac:(lia)) as H4.
  assert (H5 : n / 3600 < 0) by (apply Z.div_lt_upper_bound; lia).
  assert (H6 : 0 <= n mod 3600 / 60 < 60).
  { split; [apply Z.div_pos; lia|]. apply Z.div_lt_upper_bound; lia. }
  assert (H7 : n mod 3600 / 3600 = 0) by (apply Z.div_small; lia).
  assert (H8 : (n mod 3600) mod 3600 = n mod 3600) by (apply Z.mod_small; lia).
  split; [exact H6|]. split; [exact H4|]. split; [lia|].
  destruct (Z.ltb_spec 0 (n / 3600)); [lia|].
  split; [reflexivity|].
  rewrite H7, H8. reflexivity.
Qed.

End DurationFacts.

(** ** Resume state of a file *)

Section ResumeStateFacts.

Import Resume ResumeManager.
Local Open Scope Z_scope.

Lemma id4_eqb_eq a b : id4_eqb a b = true <-> a = b.
Proof.
  destruct a as [[[a1 a2] a3] a4], b as [[[b1 b2] b3] b4]. cbn [id4_eqb].
  rewrite !andb_true_iff, !scalar_eqb_eq.
  split; [intros [[[-> ->] ->] ->]; reflexivity|intros [= -> -> -> ->]; auto].
Qed.

Lemma find_from_spec last pre : forall rest idx,
  Forall (fun x => ids_of x <> last) pre ->
  (forall e post, rest = e :: post -> ids_of e = last) ->
  find_from last (pre ++ rest) idx
  = match rest with
    | [] => 0
    | _ :: _ => idx + Z.of_nat (List.length pre) + 1
    end.
Proof.
  induction pre as [|x pre IH]; intros rest idx Hpre Hrest; cbn [app List.length].
  - destruct rest as [|e post]; [reflexivity|]. cbn [find_from].
    rewrite (proj2 (id4_eqb_eq _ _) (Hrest e post eq_refl)). lia.
  - inversion Hpre as [|? ? Hx Hp]; subst. cbn [find_from].
    destruct (id4_eqb (ids_of x) last) eqn:E.
    + apply id4_eqb_eq in E. contradiction.
    + rewrite IH by assumption. destruct rest; [reflexivity|].
      rewrite Nat2Z.inj_succ. lia.
Qed.

(** X27.  Saving and reloading the resume state of a file: what
    [save_state] writes, [load_state] reads back into a new
    [ResumeState] (index, total, flag and last processed identity), and
    [find_resume_index] then answers the position after the first entry
    of the data that has the identity of the saved entry, whatever index
    was saved, or 0 when the data holds no such entry. *)
Theorem resume_state_round_trip (name : string) (e : entry) (idx tot : Z)
    (done : bool) (s : resume_state) (pre rest : list entry) :
  Forall (fun x => ids_of x <> ids_of e) pre ->
  (forall e' post, rest = e' :: post -> ids_of e' = ids_of e) ->
  let file := snd (save_state name e idx tot done s) in
  let loaded := load_state name file new_state in
  snd loaded = true /\
  index (fst loaded) = idx /\ total (fst loaded) = tot /\
  completed (fst loaded) = done /\
  last_processed (fst loaded) = Some (ids_of e) /\
  find_resume_index (pre ++ rest) (fst loaded)
  = match rest with
    | [] => 0
    | _ :: _ => Z.of_nat (List.length pre) + 1
    end.
Proof.
  intros Hpre Hrest. cbv zeta.
  cbn [save_state snd load_state fst index total completed last_processed
       f_index f_total f_completed f_last_processed].
  repeat split.
  unfold find_resume_index. cbn [last_processed].
  rewrite find_from_spec by assumption. destruct rest; [reflexivity|lia].
Qed.

End ResumeStateFacts.

(** ** A failed entry and the resume point of its file *)

Section EntryTimerFacts.

Import Resume TimeEstimator ResumeManager EntryTimer.
Local Open Scope Z_scope.

Variables median stdev : list Q -> Q.
Variable round2 : Q -> Q.

Lemma ids_of_failed_dict t : ids_of (failed_dict t) = t.
Proof. destruct t as [[[a b] c] d]. reflexivity. Qed.

Lemma add_failed_entry_in e s :
  In (AsTuple (ids_of e)) (failed_entries (add_failed_entry e s)) /\
  (forall x, In x (failed_entries s) ->
             In x (failed_entries (add_failed_entry e s))).
Proof.
  unfold add_failed_entry.
  destruct (existsb (item_eqb (AsTuple (ids_of e))) (failed_entries s)) eqn:E.
  - split; [|auto]. apply existsb_exists in E. destruct E as (x & Hx & Hxe).
    destruct x as [t|l]; cbn [item_eqb] in Hxe; [|discriminate].
    apply id4_eqb_eq in Hxe. now rewrite Hxe.
  - cbn [failed_entries]. split.
    + apply in_or_app. right. now left.
    + intros x Hx. apply in_or_app. now left.
Qed.

Lemma fold_add_failed_keep ids : forall s x,
  In x (failed_entries s) ->
  In x (failed_entries
          (fold_left (fun s entry_id => add_failed_entry (failed_dict entry_id) s)
                     ids s)).
Proof.
  induction ids as [|i ids IH]; intros s x Hx; cbn [fold_left]; [exact Hx|].
  apply IH. now apply add_failed_entry_in.
Qed.

Lemma fold_add_failed_in ids : forall s t,
  In t ids ->
  In (AsTuple t)
     (failed_entries
        (fold_left (fun s entry_id => add_failed_entry (failed_dict entry_id) s)
                   ids s)).
Proof.
  induction ids as [|i ids IH]; intros s t Hin; cbn [fold_left]; [destruct Hin|].
  destruct Hin as [->|Hin].
  - apply fold_add_failed_keep.
    pose proof (add_failed_entry_in (failed_dict t) s) as [H _].
    now rewrite ids_of_failed_dict in H.
  - now apply IH.
Qed.

Lemma get_estimates_returns (e0 : estimator) (later : Q) :
  total_entries e0 <> 0 ->
  processing_times e0 <> [] ->
  exists estimates, get_estimates median stdev round2 e0 later = Returns estimates.
Proof.
  intros Ht Hp. unfold get_estimates.
  destruct (processing_times e0) eqn:El; [contradiction|].
  destruct (_calculate_time_statistics median stdev e0) as [[[a b] c] d].
  destruct (_calculate_time_estimates e0 later c) as [[[[x1 x2] x3] x4] x5].
  unfold _calculate_progress_percentage.
  destruct (Z.eqb_spec (total_entries e0) 0); [contradiction|].
  eauto.
Qed.

(** X28.  A failed entry moves the resume point past itself: when an
    entry is timed with [start_entry] and ended with
    [end_entry(success=False)], the instance still counts it as done and
    the saved resume state has the advanced index, the failed entry as
    last processed and its identity among the failed entries; a new
    [ResumeState] loaded from that file resumes after the failed
    entry. *)
Theorem failed_entry_advances_resume_point (t : timer) (p : string * scalar)
    (e : entry) (now0 now later : Q) (file : resume_file)
    (pre post : list entry) :
  total_entries (est t) <> 0 ->
  Forall (fun x => ids_of x <> ids_of (p :: e)) pre ->
  let t1 := start_entry now0 (Some (p :: e)) t in
  exists t2 f estimates,
    end_entry median stdev round2 now later false t1 file
      = (t2, Some f, Estimates estimates) /\
    current_index (est t2) = current_index (est t) + 1 /\
    remaining_entries (est t2) = remaining_entries (est t) - 1 /\
    f_index f = current_index (est t) + 1 /\
    f_last_processed f = ids_of (p :: e) /\
    In (to_array (AsTuple (failed_id (p :: e)))) (f_failed_entries f) /\
    find_resume_index (pre ++ (p :: e) :: post)
      (fst (load_state (file_name t) (Some f) new_state))
    = Z.of_nat (List.length pre) + 1.
Proof.
  intros Ht Hpre. cbv zeta. unfold end_entry.
  cbn [start_entry last_entry_start_time current_entry est file_name
       timer_failed_entries truthy].
  set (e1 := {| total_entries := total_entries (est t);
                current_index := current_index (est t) + 1;
                remaining_entries := remaining_entries (est t) - 1;
                start_time := start_time (est t);
                processing_times :=
                  (processing_times (est t) ++ [(now - now0)%Q])%list |}).
  assert (Hg : exists estimates,
             get_estimates median stdev round2 e1 later = Returns estimates).
  { apply get_estimates_returns; [exact Ht|].
    cbn [processing_times e1]. intros El.
    apply app_eq_nil in El. destruct El as [_ El]. discriminate. }
  destruct Hg as [estimates Hg]. rewrite Hg.
  eexists. eexists. exists estimates. split; [reflexivity|].
  cbn [est current_index remaining_entries e1 save_state snd f_index
       f_last_processed f_failed_entries total_entries].
  split; [reflexivity|]. split; [reflexivity|]. split; [reflexivity|].
  split; [reflexivity|]. split.
  - apply in_map. apply fold_add_failed_in. apply in_or_app. right. now left.
  - cbn [load_state fst]. unfold find_resume_index.
    cbn [last_processed f_last_processed].
    rewrite find_from_spec; [lia|exact Hpre|].
    intros e' post' [= <- _]. reflexivity.
Qed.

End EntryTimerFacts.

(** ** Labels and history of the review *)

Section ReviewMoreFacts.

Import Decision Review ReviewStatus.
Local Open Scope string_scope.
Local Open Scope Z_scope.

(** X29.  The labels and their descriptions are inverse to each
    other: the description of a label is extracted back to that label
    for the three labels 1, 0 and -1, and to nothing for any other
    number; and [_extract_result] never gives anything but one of the
    three labels, each from a result text that is its description up to
    case. *)
Theorem result_labels_round_trip (z : Z) (a : analysis) :
  _extract_result (ResultString (_get_result_description z))
  = (if (z =? 1) || (z =? 0) || (z =? -1) then Some z else None) /\
  match _extract_result a with
  | Some r =>
      In r [1; 0; -1] /\
      exists s, a = ResultString s /\ lower s = _get_result_description r
  | None => True
  end.
Proof.
  split.
  - unfold _get_result_description.
    destruct (Z.eqb_spec z 1) as [->|H1]; [reflexivity|].
    destruct (Z.eqb_spec z 0) as [->|H0]; [reflexivity|].
    destruct (Z.eqb_spec z (-1)) as [->|Hm]; reflexivity.
  - destruct a as [| | |s]; cbn [_extract_result _try_json_extraction]; try exact I.
    destruct (String.eqb_spec (lower s) "vulnerable") as [E|_].
    { split; [now left|]. exists s. split; [reflexivity|exact E]. }
    destruct (String.eqb_spec (lower s) "not vulnerable") as [E|_].
    { split; [right; now left|]. exists s. split; [reflexivity|exact E]. }
    destruct (String.eqb_spec (lower s) "not relevant") as [E|_].
    { split; [right; right; now left|]. exists s. split; [reflexivity|exact E]. }
    exact I.
Qed.

(** X30.  The history shown during the review: [get_processed_status]
    gives the identifiers of a final part of the processed objects, in
    their order: the last [max_history] of them for a positive
    [max_history], all of them when [max_history] is 0, and all but the
    first [-max_history] for a negative one. *)
Theorem processed_status_history (objs : list Resume.entry) (max_history : Z) :
  (exists earlier recent,
     objs = (earlier ++ recent)%list /\
     get_processed_status objs max_history = map status_of recent) /\
  Z.of_nat (List.length (get_processed_status objs max_history))
  = (if max_history =? 0 then Z.of_nat (List.length objs)
     else if 0 <? max_history
          then Z.min max_history (Z.of_nat (List.length objs))
          else Z.max 0 (Z.of_nat (List.length objs) + max_history)) /\
  get_processed_status objs 0 = map status_of objs.
Proof.
  assert (Hs : forall n,
            get_processed_status objs n = map status_of (slice_last objs n)).
  { intros n. destruct objs; [|reflexivity].
    unfold get_processed_status, slice_last. now rewrite skipn_nil. }
  rewrite !Hs. unfold slice_last.
  split; [|split].
  - eexists. eexists. split; [|reflexivity]. symmetry. apply firstn_skipn.
  - rewrite length_map, length_skipn.
    destruct (Z.eqb_spec max_history 0) as [->|Hm].
    + cbn. lia.
    + destruct (Z.ltb_spec 0 max_history); lia.
  - change (0 <? 0) with false. cbv iota.
    replace (Z.to_nat (Z.min (- 0) (Z.of_nat (List.length objs)))) with 0%nat by lia.
    reflexivity.
Qed.

End ReviewMoreFacts.

Section StateExamples.

Import Decision Resume TimeEstimator ResumeManager EntryTimer.
Local Open Scope string_scope.
Local Open Scope Z_scope.

Lemma format_time_duration_recomposes_witness :
  exists hours minutes secs,
    duration_parts (7384 # 1) = (hours, minutes, secs) /\
    hours * 3600 + minutes * 60 + secs = py_int (7384 # 1) /\
    0 <= hours /\ 0 <= minutes < 60 /\ 0 <= secs < 60 /\
    _format_time_duration (7384 # 1)
    = if 0 <? hours then
        decimal hours ++ "h " ++ decimal minutes ++ "m " ++ decimal secs ++ "s"
      else if 0 <? minutes then decimal minutes ++ "m " ++ decimal secs ++ "s"
      else decimal secs ++ "s".
Proof.
  apply (@format_time_duration_recomposes (7384 # 1)).
  vm_compute. discriminate.
Defined.

Lemma format_time_duration_negative_witness :
  exists minutes secs,
    0 <= minutes < 60 /\ 0 <= secs < 60 /\
    minutes * 60 + secs = py_int (-5 # 1) mod 3600 /\
    _format_time_duration (-5 # 1)
    = (if 0 <? minutes then decimal minutes ++ "m " ++ decimal secs ++ "s"
       else decimal secs ++ "s") /\
    _format_time_duration (-5 # 1)
    = _format_time_duration (inject_Z (py_int (-5 # 1) mod 3600)).
Proof.
  apply (@format_time_duration_negative (-5 # 1)).
  vm_compute. reflexivity.
Defined.

Lemma resume_state_round_trip_witness :
  let e := [("id", PyInt 2); ("sub_id", PyInt 0); ("code_id", PyInt 0);
            ("function_id", PyInt 1)]%list in
  let other := [("id", PyInt 1); ("sub_id", PyInt 0); ("code_id", PyInt 0);
                ("function_id", PyInt 1)]%list in
  let file := snd (save_state "data.json" e 7 9 false new_state) in
  let loaded := load_state "data.json" file new_state in
  snd loaded = true /\
  index (fst loaded) = 7 /\ total (fst loaded) = 9 /\
  completed (fst loaded) = false /\
  last_processed (fst loaded) = Some (ids_of e) /\
  find_resume_index ([other] ++ [e; other]) (fst loaded)
  = match [e; other] with
    | [] => 0
    | _ :: _ => Z.of_nat (List.length [other]) + 1
    end.
Proof.
  cbv zeta.
  apply (@resume_state_round_trip "data.json"
           [("id", PyInt 2); ("sub_id", PyInt 0); ("code_id", PyInt 0);
            ("function_id", PyInt 1)]%list 7 9 false new_state
           [[("id", PyInt 1); ("sub_id", PyInt 0); ("code_id", PyInt 0);
             ("function_id", PyInt 1)]%list]
           [[("id", PyInt 2); ("sub_id", PyInt 0); ("code_id", PyInt 0);
             ("function_id", PyInt 1)]%list;
            [("id", PyInt 1); ("sub_id", PyInt 0); ("code_id", PyInt 0);
             ("function_id", PyInt 1)]%list]).
  - constructor; [|constructor]. vm_compute. discriminate.
  - intros e' post H. injection H as <- _. reflexivity.
Defined.

Lemma failed_entry_advances_resume_point_witness :
  let median := fun l : list Q => hd 0%Q l in
  let stdev := fun _ : list Q => 0%Q in
  let round2 := fun q : Q => q in
  let t := {| est := {| total_entries := 3; current_index := 0;
                        remaining_entries := 3; start_time := 0%Q;
                        processing_times := [] |};
              file_name := "data.json"; last_entry_start_time := None;
              current_entry := None; timer_failed_entries := [] |} in
  let p := ("id", PyInt 2) in
  let e := [("sub_id", PyInt 0); ("code_id", PyInt 0);
            ("function_id", PyInt 1)]%list in
  let other := [("id", PyInt 1); ("sub_id", PyInt 0); ("code_id", PyInt 0);
                ("function_id", PyInt 1)]%list in
  let t1 := start_entry 10%Q (Some (p :: e)) t in
  exists t2 f estimates,
    end_entry median stdev round2 12%Q 13%Q false t1 None
      = (t2, Some f, Estimates estimates) /\
    current_index (est t2) = current_index (est t) + 1 /\
    remaining_entries (est t2) = remaining_entries (est t) - 1 /\
    f_index f = current_index (est t) + 1 /\
    f_last_processed f = ids_of (p :: e) /\
    In (to_array (AsTuple (failed_id (p :: e)))) (f_failed_entries f) /\
    find_resume_index ([other] ++ (p :: e) :: [other])%list
      (fst (load_state (file_name t) (Some f) new_state))
    = Z.of_nat (List.length [other]) + 1.
Proof.
  cbv zeta.
  apply (@failed_entry_advances_resume_point
           (fun l : list Q => hd 0%Q l) (fun _ : list Q => 0%Q) (fun q : Q => q)
           {| est := {| total_entries := 3; current_index := 0;
                        remaining_entries := 3; start_time := 0%Q;
                        processing_times := [] |};
              file_name := "data.json"; last_entry_start_time := None;
              current_entry := None; timer_failed_entries := [] |}
           ("id", PyInt 2)
           [("sub_id", PyInt 0); ("code_id", PyInt 0);
            ("function_id", PyInt 1)]%list
           10%Q 12%Q 13%Q None
           [[("id", PyInt 1); ("sub_id", PyInt 0); ("code_id", PyInt 0);
             ("function_id", PyInt 1)]%list]
           [[("id", PyInt 1); ("sub_id", PyInt 0); ("code_id", PyInt 0);
             ("function_id", PyInt 1)]%list]).
  - cbn [est total_entries]. lia.
  - constructor; [|constructor]. vm_compute. discriminate.
Defined.

End StateExamples.
